(** * Ephemeris forces of reboundx: a shallow embedding

    The C sources embedded here are the DE430 reader ([jpl_init],
    [jpl_work], [jpl_calc], the per-body helpers [_sun] ... [_lun]), the
    two body queries [ephem] and [ast_ephem], and the force routine
    [rebx_ephemeris_forces] with its relativistic fixed-point loop.

    The arithmetic of C's [double] is kept behind the interface [Arith]:
    every definition is written once, in the order and grouping of the
    source, and is then read
    - at [float], Rocq's binary64 numbers (the machine's doubles), and
    - at [R], exact real arithmetic,
    so that a statement proved for every [Arith] holds of the doubles the
    program runs on, and the laws that only exact arithmetic has are stated
    at [R]. *)

From Stdlib Require Import ZArith List Bool String Lia Floats Reals Lra.
From Stdlib Require Import Strings.Byte.
Import ListNotations.
Local Open Scope Z_scope.
Set Warnings "-inexact-float".

(** ** The arithmetic the program uses *)

Class Arith (F : Type) : Type := {
  of_Z   : Z -> F;            (* an integer constant or a cast [(double)n] *)
  dec    : Z -> Z -> F;       (* the decimal literal [m]E[e] *)
  fadd   : F -> F -> F;
  fsub   : F -> F -> F;
  fmul   : F -> F -> F;
  fdiv   : F -> F -> F;
  fopp   : F -> F;
  fsqrt  : F -> F;            (* sqrt of math.h *)
  fmod   : F -> F -> F;       (* fmod of math.h *)
  flt    : F -> F -> bool;    (* the comparison [<] *)
  ffloor : F -> option Z;     (* largest integer not above; None for NaN, infinities *)
  fceil  : F -> option Z      (* least integer not below; None for NaN, infinities *)
}.

Declare Scope num_scope.
Delimit Scope num_scope with num.
Infix "+" := fadd : num_scope.
Infix "-" := fsub : num_scope.
Infix "*" := fmul : num_scope.
Infix "/" := fdiv : num_scope.
Notation "- x" := (fopp x) : num_scope.
Infix "<?" := flt : num_scope.
Notation "# n" := (of_Z n) (at level 1, n at level 0, format "# n").

(** [0 .. n-1] as the values a C loop counter [for (p = 0; p < n; p++)]
    takes (none when [n <= 0]). *)
Definition zrange (n : Z) : list Z := map Z.of_nat (seq 0 (Z.to_nat n)).

Definition INT_MIN : Z := - 2 ^ 31.
Definition INT_MAX : Z := 2 ^ 31 - 1.
Definition UINT32_MAX : Z := 2 ^ 32 - 1.
Definition SIZE_MAX : Z := 2 ^ 64 - 1.

(** The result of an [int] operation: undefined (None) on overflow. *)
Definition int_result (z : Z) : option Z :=
  if (INT_MIN <=? z) && (z <=? INT_MAX) then Some z else None.

(** The results of a loop's passes, when each of them is defined. *)
Definition all_defined {A : Type} (l : list (option A)) : option (list A) :=
  fold_right (fun o acc => match o, acc with
                           | Some a, Some r => Some (a :: r)
                           | _, _ => None
                           end) (Some []) l.

Section Conversions.
Context {F : Type} `{Arith F}.
Local Open Scope num_scope.

(** A conversion from [double] to an integer type drops the fraction
    (rounds toward zero). *)
Definition trunc (x : F) : option Z :=
  if x <? #0 then fceil x else ffloor x.

(** [(int)x]: undefined (None) when the integral part does not fit. *)
Definition to_int (x : F) : option Z :=
  match trunc x with
  | Some z => if ((INT_MIN <=? z) && (z <=? INT_MAX))%Z then Some z else None
  | None => None
  end.

(** [(u_int32_t)x]: undefined (None) when the integral part does not fit. *)
Definition to_u32 (x : F) : option Z :=
  match trunc x with
  | Some z => if ((0 <=? z) && (z <=? UINT32_MAX))%Z then Some z else None
  | None => None
  end.

(** Reading [a[i]] of a local array. *)
Definition idx (a : list F) (i : nat) : F := nth i a #0.
End Conversions.

(** ** jpl_work: Chebyshev interpolation *)

Section Chebyshev.
Context {F : Type} `{Arith F}.
Local Open Scope num_scope.

(** The loop [for (p = 2; p < ncf; p++)] that fills [T] and [S]; [k] is
    the number of iterations left and [length Ts] is [p]. *)
Fixpoint cheb_loop (t0 : F) (k : nat) (Ts Ss : list F) : list F * list F :=
  match k with
  | O => (Ts, Ss)
  | S k' =>
      let p := List.length Ts in
      let Tp := #2 * t0 * idx Ts (p - 1) - idx Ts (p - 2) in
      let Sp := #2 * t0 * idx Ss (p - 1) + #2 * idx Ts (p - 1) - idx Ss (p - 2) in
      cheb_loop t0 k' (Ts ++ [Tp]) (Ss ++ [Sp])
  end.

(** [n = ncf * (m + b * ncm)], the index of a component's first
    coefficient: each operation is one of [int]. *)
Definition jpl_first (ncm ncf b m : Z) : option Z :=
  match int_result (b * ncm) with
  | Some bn =>
      match int_result (m + bn) with
      | Some k => int_result (ncf * k)
      | None => None
      end
  | None => None
  end.

(** The inner loop over [p] for one component: [u[m]] and [v[m]] start
    at [0.0] and accumulate left to right; [n] is the index of the
    component's first coefficient, and [n+p] is a sum of [int]. *)
Definition jpl_component (P : Z -> F) (Ts Ss : list F) (ncf : Z) (c : F) (n : Z)
  : option (F * F) :=
  fold_left
    (fun acc p =>
       match acc, int_result (n + p) with
       | Some uv, Some k =>
           Some (fst uv + idx Ts (Z.to_nat p) * P k,
                 snd uv + idx Ss (Z.to_nat p) * P k * c)
       | _, _ => None
       end)
    (zrange ncf) (Some (#0, #0)).

(** [jpl_work(P, ncm, ncf, niv, t0, t1, u, v)].  [P] is the pointer into
    the mapped record, read as [P[k]].  The result is what the call
    leaves in [u[0..ncm-1]] and [v[0..ncm-1]].  It is None when the
    behaviour is undefined: [niv * 2], [b * ncm], [m + b * ncm],
    [ncf * (m + b * ncm)] or [n + p] leaves [int], [(int)t] does not
    fit, or [ncf > 24] and the loop writes past [T[24]], [S[24]]. *)
Definition jpl_work (P : Z -> F) (ncm ncf niv : Z) (t0 t1 : F)
  : option (list F * list F) :=
  let t := t0 * #niv in
  let t0 := #2 * fmod t #1 - #1 in
  match int_result (niv * 2) with
  | None => None
  | Some niv2 =>
      let c := #niv2 / t1 / #86400 in
      match to_int t with
      | None => None
      | Some b =>
          if (24 <? ncf)%Z then None
          else
            let '(Ts, Ss) := cheb_loop t0 (Z.to_nat (ncf - 2)) [#1; t0] [#0; #1] in
            option_map (@List.split F F)
              (all_defined
                 (map (fun m => match jpl_first ncm ncf b m with
                                | Some n => jpl_component P Ts Ss ncf c n
                                | None => None
                                end)
                      (zrange ncm)))
      end
  end.

(** The polynomial sequences as the specification words them. *)
Fixpoint chebT (x : F) (p : nat) : F :=
  match p with
  | O => #1
  | S q => match q with
           | O => x
           | S r => #2 * x * chebT x q - chebT x r
           end
  end.

Fixpoint chebS (x : F) (p : nat) : F :=
  match p with
  | O => #0
  | S q => match q with
           | O => #1
           | S r => #2 * x * chebS x q + #2 * chebT x q - chebS x r
           end
  end.

(** [sum_{p < ncf} w p], added left to right from [0.0]. *)
Definition sum_upto (ncf : Z) (w : Z -> F) : F :=
  fold_left (fun acc p => acc + w p) (zrange ncf) #0.

(** The normalized time, the sub-interval's scale factor, and the two
    sums for component [m] of sub-interval [b]. *)
Definition cheb_x (niv : Z) (t0 : F) : F := #2 * fmod (t0 * #niv) #1 - #1.
Definition cheb_c (niv : Z) (t1 : F) : F := #(niv * 2) / t1 / #86400.
Definition cheb_pos (P : Z -> F) (ncm ncf : Z) (x : F) (b m : Z) : F :=
  sum_upto ncf (fun p => chebT x (Z.to_nat p) * P (ncf * (m + b * ncm) + p)%Z).
Definition cheb_vel (P : Z -> F) (ncm ncf : Z) (x c : F) (b m : Z) : F :=
  sum_upto ncf (fun p => chebS x (Z.to_nat p) * P (ncf * (m + b * ncm) + p)%Z * c).
End Chebyshev.

(** ** The ephemeris handle and the body helpers *)

(** Body codes of the user interface ([PLAN_*]) index [_help]. *)
Definition PLAN_BAR : Z := 0.
Definition PLAN_SOL : Z := 1.
Definition PLAN_EAR : Z := 2.
Definition PLAN_EMB : Z := 3.
Definition PLAN_LUN : Z := 4.
Definition PLAN_MER : Z := 5.
Definition PLAN_VEN : Z := 6.
Definition PLAN_MAR : Z := 7.
Definition PLAN_JUP : Z := 8.
Definition PLAN_SAT : Z := 9.
Definition PLAN_URA : Z := 10.
Definition PLAN_NEP : Z := 11.
Definition PLAN_PLU : Z := 12.
Definition _NUM_TEST : Z := 13.

(** Array indices of the internal interface ([JPL_*]). *)
Inductive jpl_index : Type :=
| JPL_MER | JPL_VEN | JPL_EMB | JPL_MAR | JPL_JUP | JPL_SAT | JPL_URA
| JPL_NEP | JPL_PLU | JPL_LUN | JPL_SUN | JPL_NUT | JPL_LIB | JPL_MAN
| JPL_TDB.

(** A [double[3]]. *)
Record vec3 (F : Type) : Type := mkvec { c0 : F; c1 : F; c2 : F }.
Arguments mkvec {F} _ _ _.
Arguments c0 {F} _.
Arguments c1 {F} _.
Arguments c2 {F} _.

(** [struct mpos_s]: position [u], velocity [v], time [jde]. *)
Record mpos_s (F : Type) : Type :=
  mkmpos { mpos_u : vec3 F; mpos_v : vec3 F; mpos_jde : F }.
Arguments mkmpos {F} _ _ _.
Arguments mpos_u {F} _.
Arguments mpos_v {F} _.
Arguments mpos_jde {F} _.

(** [struct _jpl_s].  The mapping [map] is read through: [jpl_map] gives
    the double stored at a byte offset of the mapped file, or is None for
    a NULL pointer.  A read is not checked against [len]: the file is
    taken to hold every record that is asked for.  The [int32_t] fields
    are integers. *)
Record _jpl_s (F : Type) : Type := mkjpl {
  jpl_beg : F;  jpl_end : F;          (* begin and end times *)
  jpl_inc : F;                        (* time step size *)
  jpl_cau : F;                        (* definition of AU *)
  jpl_cem : F;                        (* Earth/Moon mass ratio *)
  jpl_num : Z;                        (* number of constants *)
  jpl_ver : Z;                        (* ephemeris version *)
  jpl_off : jpl_index -> Z;           (* indexing offset *)
  jpl_ncf : jpl_index -> Z;           (* number of chebyshev coefficients *)
  jpl_niv : jpl_index -> Z;           (* number of interpolation intervals *)
  jpl_ncm : jpl_index -> Z;           (* number of components / dimension *)
  jpl_len : Z;  jpl_rec : Z;          (* file and record sizes *)
  jpl_map : option (Z -> F)           (* memory mapped location *)
}.
Arguments mkjpl {F} _ _ _ _ _ _ _ _ _ _ _ _ _ _.
Arguments jpl_beg {F} _.
Arguments jpl_end {F} _.
Arguments jpl_inc {F} _.
Arguments jpl_cau {F} _.
Arguments jpl_cem {F} _.
Arguments jpl_num {F} _.
Arguments jpl_ver {F} _.
Arguments jpl_off {F} _ _.
Arguments jpl_ncf {F} _ _.
Arguments jpl_niv {F} _ _.
Arguments jpl_ncm {F} _ _.
Arguments jpl_len {F} _.
Arguments jpl_rec {F} _.
Arguments jpl_map {F} _.

Section Jpl.
Context {F : Type} `{Arith F}.
Local Open Scope num_scope.

Definition vecpos_off (u v : vec3 F) (w : F) : vec3 F :=
  mkvec (c0 u + c0 v * w) (c1 u + c1 v * w) (c2 u + c2 v * w).
Definition vecpos_set (v : vec3 F) : vec3 F :=
  mkvec (c0 v) (c1 v) (c2 v).
Definition vecpos_nul : vec3 F :=
  mkvec #0 #0 #0.
Definition vecpos_div (u : vec3 F) (v : F) : vec3 F :=
  mkvec (c0 u / v) (c1 u / v) (c2 u / v).

(** The three doubles a call leaves in a [double[3]] destination.  The
    helpers below pass [pos->u] and [pos->v] of a fresh struct to
    [jpl_work]; [jpl_init] sets [ncm] to 3 for every body they ask for.
    With another count a component would stay indeterminate or the
    write would leave the array: no state is defined then. *)
Definition vec_of_list (l : list F) : option (vec3 F) :=
  match l with
  | [a; b; c] => Some (mkvec a b c)
  | _ => None
  end.

(** The call every helper makes:
    [jpl_work(&z[jpl->off[B]], jpl->ncm[B], jpl->ncf[B], jpl->niv[B], t,
              jpl->inc, pos->u, pos->v)]. *)
Definition jpl_work_at (jpl : _jpl_s F) (z : Z -> F) (t : F) (B : jpl_index)
  : option (vec3 F * vec3 F) :=
  match jpl_work (fun k => z (jpl_off jpl B + k)%Z)
                 (jpl_ncm jpl B) (jpl_ncf jpl B) (jpl_niv jpl B) t (jpl_inc jpl) with
  | Some (us, vs) =>
      match vec_of_list us, vec_of_list vs with
      | Some u, Some v => Some (u, v)
      | _, _ => None
      end
  | None => None
  end.

Definition _bar (jpl : _jpl_s F) (z : Z -> F) (t : F) : option (vec3 F * vec3 F) :=
  Some (vecpos_nul, vecpos_nul).
Definition _sun (jpl : _jpl_s F) (z : Z -> F) (t : F) := jpl_work_at jpl z t JPL_SUN.
Definition _emb (jpl : _jpl_s F) (z : Z -> F) (t : F) := jpl_work_at jpl z t JPL_EMB.
Definition _mer (jpl : _jpl_s F) (z : Z -> F) (t : F) := jpl_work_at jpl z t JPL_MER.
Definition _ven (jpl : _jpl_s F) (z : Z -> F) (t : F) := jpl_work_at jpl z t JPL_VEN.
Definition _mar (jpl : _jpl_s F) (z : Z -> F) (t : F) := jpl_work_at jpl z t JPL_MAR.
Definition _jup (jpl : _jpl_s F) (z : Z -> F) (t : F) := jpl_work_at jpl z t JPL_JUP.
Definition _sat (jpl : _jpl_s F) (z : Z -> F) (t : F) := jpl_work_at jpl z t JPL_SAT.
Definition _ura (jpl : _jpl_s F) (z : Z -> F) (t : F) := jpl_work_at jpl z t JPL_URA.
Definition _nep (jpl : _jpl_s F) (z : Z -> F) (t : F) := jpl_work_at jpl z t JPL_NEP.
Definition _plu (jpl : _jpl_s F) (z : Z -> F) (t : F) := jpl_work_at jpl z t JPL_PLU.

Definition _ear (jpl : _jpl_s F) (z : Z -> F) (t : F) : option (vec3 F * vec3 F) :=
  match jpl_work_at jpl z t JPL_EMB, jpl_work_at jpl z t JPL_LUN with
  | Some (emb_u, emb_v), Some (lun_u, lun_v) =>
      let pos_u := vecpos_off (vecpos_set emb_u) lun_u (- #1 / (#1 + jpl_cem jpl)) in
      let pos_v := vecpos_off (vecpos_set emb_v) lun_v (- #1 / (#1 + jpl_cem jpl)) in
      Some (pos_u, pos_v)
  | _, _ => None
  end.

Definition _lun (jpl : _jpl_s F) (z : Z -> F) (t : F) : option (vec3 F * vec3 F) :=
  match jpl_work_at jpl z t JPL_EMB, jpl_work_at jpl z t JPL_LUN with
  | Some (emb_u, emb_v), Some (lun_u, lun_v) =>
      let pos_u := vecpos_off (vecpos_set emb_u) lun_u (jpl_cem jpl / (#1 + jpl_cem jpl)) in
      let pos_v := vecpos_off (vecpos_set emb_v) lun_v (jpl_cem jpl / (#1 + jpl_cem jpl)) in
      Some (pos_u, pos_v)
  | _, _ => None
  end.

(** The table of function pointers; None outside its [_NUM_TEST]
    entries. *)
Definition _help (n : Z)
  : option (_jpl_s F -> (Z -> F) -> F -> option (vec3 F * vec3 F)) :=
  match n with
  | 0 => Some _bar | 1 => Some _sun | 2 => Some _ear | 3 => Some _emb
  | 4 => Some _lun | 5 => Some _mer | 6 => Some _ven | 7 => Some _mar
  | 8 => Some _jup | 9 => Some _sat | 10 => Some _ura | 11 => Some _nep
  | 12 => Some _plu
  | _ => None
  end%Z.

(** The record a pointer [z] of [jpl_calc] views: [z[k]] is the double
    at byte [base + 8k] of the mapping. *)
Definition record_at (mem : Z -> F) (base : Z) : Z -> F :=
  fun k => mem (base + 8 * k)%Z.

(** [(blk + 2) * pl->rec]: the sum in [u_int32_t], the product in
    [size_t]. *)
Definition record_offset (blk rec : Z) : Z :=
  (((blk + 2) mod 2 ^ 32) * rec) mod 2 ^ 64.

(** [jpl_calc(pl, now, jde, n, m)].  [now] is None for a NULL pointer.
    The result is the return value and what [*now] holds afterwards;
    it is None when the behaviour is undefined (an index outside
    [_help], a failing conversion, or a helper that defines no state). *)
Definition jpl_calc (pl : option (_jpl_s F)) (now : option (mpos_s F)) (jde : F) (n m : Z)
  : option (Z * option (mpos_s F)) :=
  match pl, now with
  | Some pl, Some _ =>
      (* check if covered by this file *)
      if (jde <? jpl_beg pl) || (jpl_end pl <? jde) then Some (-1, now)%Z
      else
        match jpl_map pl with
        | None => Some (-1, now)%Z
        | Some mem =>
            (* compute record number and 'offset' into record *)
            match to_u32 ((jde - jpl_beg pl) / jpl_inc pl) with
            | None => None
            | Some blk =>
                let t := fmod (jde - jpl_beg pl) (jpl_inc pl) / jpl_inc pl in
                let z := record_at mem (record_offset blk (jpl_rec pl)) in
                match _help n, _help m with
                | Some help_n, Some help_m =>
                    match help_n pl z t, help_m pl z t with
                    | Some (pos_u, pos_v), Some (ref_u, ref_v) =>
                        Some (0%Z,
                              Some (mkmpos
                                      (mkvec (c0 pos_u - c0 ref_u) (c1 pos_u - c1 ref_u)
                                             (c2 pos_u - c2 ref_u))
                                      (mkvec (c0 pos_v - c0 ref_v) (c1 pos_v - c1 ref_v)
                                             (c2 pos_v - c2 ref_v))
                                      jde))
                    | _, _ => None
                    end
                | _, _ => None
                end
            end
        end
  | _, _ => Some (-1, now)%Z
  end.
End Jpl.

(** ** The machine's doubles: binary64 *)

Module Binary64.

(** [(double)n], rounded to nearest even when [n] has more than 53 bits. *)
Definition of_Z (n : Z) : float :=
  SF2Prim (binary_normalize prec emax n 0 false).

(** The decimal literal [m]E[e], correctly rounded as a C compiler reads
    it.  For a negative exponent the quotient is cut after more than 64
    bits and a sticky bit records a non-zero remainder, so that one final
    rounding decides. *)
Definition SFdec (m e : Z) : spec_float :=
  if 0 <=? e then binary_normalize prec emax (m * 10 ^ e) 0 false
  else
    let d := 10 ^ (- e) in
    let k := Z.max 0 (64 + Z.log2_up d - Z.log2 (Z.abs m)) in
    let q := (Z.abs m * 2 ^ k) / d in
    let r := (Z.abs m * 2 ^ k) mod d in
    let q' := 2 * q + (if r =? 0 then 0 else 1) in
    binary_normalize prec emax (if m <? 0 then - q' else q') (- k - 1) false.

Definition dec (m e : Z) : float := SF2Prim (SFdec m e).

(** [fmod(x, y)]: the exact remainder [x - n*y] with [n] the quotient
    rounded toward zero; it has the sign of [x].  NaN for an infinite
    [x] or a zero [y]; [x] itself for an infinite [y]. *)
Definition SFfmod (x y : spec_float) : spec_float :=
  match x, y with
  | S754_nan, _ | _, S754_nan => S754_nan
  | S754_infinity _, _ => S754_nan
  | _, S754_zero _ => S754_nan
  | S754_zero _, _ => x
  | S754_finite _ _ _, S754_infinity _ => x
  | S754_finite sx mx ex, S754_finite _ my ey =>
      let e := Z.min ex ey in
      let r := (Zpos mx * 2 ^ (ex - e)) mod (Zpos my * 2 ^ (ey - e)) in
      match r with
      | Z0 => S754_zero sx
      | _ => binary_normalize prec emax (if sx then - r else r) e false
      end
  end.

Definition fmod (x y : float) : float :=
  SF2Prim (SFfmod (Prim2SF x) (Prim2SF y)).

(** The integers next to a finite double [(-1)^s * m * 2^e]. *)
Definition SFfloor (x : spec_float) : option Z :=
  match x with
  | S754_zero _ => Some 0
  | S754_finite s m e =>
      let n := if s then Zneg m else Zpos m in
      Some (if 0 <=? e then n * 2 ^ e else n / 2 ^ (- e))
  | _ => None
  end.

Definition SFceil (x : spec_float) : option Z :=
  match x with
  | S754_zero _ => Some 0
  | S754_finite s m e =>
      let n := if s then Zneg m else Zpos m in
      Some (if 0 <=? e then n * 2 ^ e else - ((- n) / 2 ^ (- e)))
  | _ => None
  end.

Definition floor (x : float) : option Z := SFfloor (Prim2SF x).
Definition ceil (x : float) : option Z := SFceil (Prim2SF x).

(** The exact value of a finite double times [2^k], when it is an
    integer. *)
Definition times_pow2 (k : Z) (x : float) : option Z :=
  match Prim2SF x with
  | S754_zero _ => Some 0
  | S754_finite s m e =>
      if 0 <=? e + k then Some ((if s then Zneg m else Zpos m) * 2 ^ (e + k)) else None
  | _ => None
  end.

(** The three kinds of double the statements below tell apart: NaN, the
    finite ones, and among them the two zeros. *)
Definition not_a_number (x : float) : bool :=
  match Prim2SF x with
  | S754_nan => true
  | _ => false
  end.

Definition finite (x : float) : bool :=
  match Prim2SF x with
  | S754_zero _ | S754_finite _ _ _ => true
  | _ => false
  end.

Definition zero (x : float) : bool :=
  match Prim2SF x with
  | S754_zero _ => true
  | _ => false
  end.

End Binary64.

#[export] Instance Arith_float : Arith float := {|
  of_Z := Binary64.of_Z;
  dec := Binary64.dec;
  fadd := PrimFloat.add;
  fsub := PrimFloat.sub;
  fmul := PrimFloat.mul;
  fdiv := PrimFloat.div;
  fopp := PrimFloat.opp;
  fsqrt := PrimFloat.sqrt;
  fmod := Binary64.fmod;
  flt := PrimFloat.ltb;
  ffloor := Binary64.floor;
  fceil := Binary64.ceil
|}.

(** ** Exact arithmetic: the real numbers *)

Module Exact.

Definition dec (m e : Z) : R := (IZR m * powerRZ 10 e)%R.

Definition floor (x : R) : option Z := Some (Int_part x).
Definition ceil (x : R) : option Z := Some (- Int_part (- x)).

Definition ltb (x y : R) : bool := if Rlt_dec x y then true else false.

(** The quotient rounded toward zero, and [fmod] by its definition. *)
Definition quot (x y : R) : Z :=
  if Rlt_dec (x / y) 0 then - Int_part (- (x / y)) else Int_part (x / y).
Definition fmod (x y : R) : R := (x - IZR (quot x y) * y)%R.

End Exact.

#[export] Instance Arith_R : Arith R := {|
  of_Z := IZR;
  dec := Exact.dec;
  fadd := Rplus;
  fsub := Rminus;
  fmul := Rmult;
  fdiv := Rdiv;
  fopp := Ropp;
  fsqrt := R_sqrt.sqrt;
  fmod := Exact.fmod;
  flt := Exact.ltb;
  ffloor := Exact.floor;
  fceil := Exact.ceil
|}.

(** ** Process state and effects *)

(** How a call ends: it returns a value, the process ends in
    [exit(EXIT_FAILURE)], or the behaviour is undefined (a NULL pointer
    is dereferenced, an index leaves its array).  Each carries the state
    reached. *)
Inductive outcome (St A : Type) : Type :=
| Ret (a : A) (s : St)
| Exit (s : St)
| Fault (s : St).
Arguments Ret {St A} _ _.
Arguments Exit {St A} _.
Arguments Fault {St A} _.

Definition M (St A : Type) : Type := St -> outcome St A.

Definition ret {St A : Type} (a : A) : M St A := fun s => Ret a s.

Definition bind {St A B : Type} (c : M St A) (k : A -> M St B) : M St B :=
  fun s =>
    match c s with
    | Ret a s' => k a s'
    | Exit s' => Exit s'
    | Fault s' => Fault s'
    end.

Definition fault {St A : Type} : M St A := fun s => Fault s.
Definition exit_failure {St A : Type} : M St A := fun s => Exit s.

Notation "x <- c ;; k" := (bind c (fun x => k))
  (at level 61, c at next level, right associativity).
Notation "c ;;; k" := (bind c (fun _ => k))
  (at level 61, right associativity).

(** Modelled from the spec: the minor-body kernel reader ([spk.h],
    [spk_init], [spk_calc]) is not among the sources.  The specification
    gives its interface only, [query(handle, index, epoch) -> state]; an
    open handle is taken to be that query. *)
Definition spk_s (F : Type) : Type := Z -> F -> mpos_s F.

(** The seven variables [ephem] writes through its pointer arguments. *)
Record ephem_out (F : Type) : Type := mkout {
  o_m : F; o_x : F; o_y : F; o_z : F; o_vx : F; o_vy : F; o_vz : F
}.
Arguments mkout {F} _ _ _ _ _ _ _.
Arguments o_m {F} _.
Arguments o_x {F} _.
Arguments o_y {F} _.
Arguments o_z {F} _.
Arguments o_vx {F} _.
Arguments o_vy {F} _.
Arguments o_vz {F} _.

(** What the body queries read and change besides their arguments: the
    two files, the [static] variables of [ephem] and of [ast_ephem], the
    indeterminate contents of locals that are declared without a value,
    and the output streams. *)
Record env (F : Type) : Type := mkenv {
  de430 : option (_jpl_s F);         (* what jpl_init() returns *)
  sb431 : option (spk_s F);          (* what spk_init("sb431-n16s.bsp") returns *)
  ephem_initialized : bool;          (* ephem: static int initialized *)
  ephem_pl : option (_jpl_s F);      (* ephem: static struct _jpl_s *pl *)
  ephem_spl : option (spk_s F);      (* ephem: static struct spk_s *spl *)
  ast_initialized : bool;            (* ast_ephem: static int initialized *)
  ast_spl : option (spk_s F);        (* ast_ephem: static struct spk_s *spl *)
  uninit_now : mpos_s F;             (* ephem: struct mpos_s now; *)
  uninit_out : ephem_out F;          (* rebx_ephemeris_forces: double m, x, ...; *)
  stdout : list string;
  stderr : list string;
  messages : list string             (* reb_error, reb_warning *)
}.
Arguments mkenv {F} _ _ _ _ _ _ _ _ _ _ _ _.
Arguments de430 {F} _.
Arguments sb431 {F} _.
Arguments ephem_initialized {F} _.
Arguments ephem_pl {F} _.
Arguments ephem_spl {F} _.
Arguments ast_initialized {F} _.
Arguments ast_spl {F} _.
Arguments uninit_now {F} _.
Arguments uninit_out {F} _.
Arguments stdout {F} _.
Arguments stderr {F} _.
Arguments messages {F} _.

Section Effects.
Context {F : Type}.

Definition set_ephem_static (b : bool) (pl : option (_jpl_s F)) (spl : option (spk_s F))
  (e : env F) : env F :=
  mkenv (de430 e) (sb431 e) b pl spl (ast_initialized e) (ast_spl e)
        (uninit_now e) (uninit_out e) (stdout e) (stderr e) (messages e).

Definition set_ast_static (b : bool) (spl : option (spk_s F)) (e : env F) : env F :=
  mkenv (de430 e) (sb431 e) (ephem_initialized e) (ephem_pl e) (ephem_spl e) b spl
        (uninit_now e) (uninit_out e) (stdout e) (stderr e) (messages e).

Definition put_stdout (s : string) (e : env F) : env F :=
  mkenv (de430 e) (sb431 e) (ephem_initialized e) (ephem_pl e) (ephem_spl e)
        (ast_initialized e) (ast_spl e) (uninit_now e) (uninit_out e)
        (stdout e ++ [s]) (stderr e) (messages e).

Definition put_stderr (s : string) (e : env F) : env F :=
  mkenv (de430 e) (sb431 e) (ephem_initialized e) (ephem_pl e) (ephem_spl e)
        (ast_initialized e) (ast_spl e) (uninit_now e) (uninit_out e)
        (stdout e) (stderr e ++ [s]) (messages e).

Definition put_message (s : string) (e : env F) : env F :=
  mkenv (de430 e) (sb431 e) (ephem_initialized e) (ephem_pl e) (ephem_spl e)
        (ast_initialized e) (ast_spl e) (uninit_now e) (uninit_out e)
        (stdout e) (stderr e) (messages e ++ [s]).

(** [printf(s)] and [fprintf(stderr, s)]. *)
Definition printf (s : string) : M (env F) unit := fun e => Ret tt (put_stdout s e).
Definition fprintf_stderr (s : string) : M (env F) unit := fun e => Ret tt (put_stderr s e).

(** Modelled from the spec: [reb_error] and [reb_warning] belong to the
    host simulation, which is not among the sources; they report a
    message and return. *)
Definition reb_error (s : string) : M (env F) unit := fun e => Ret tt (put_message s e).
Definition reb_warning (s : string) : M (env F) unit := fun e => Ret tt (put_message s e).

(** A computation whose undefined cases are None. *)
Definition defined {St A : Type} (o : option A) : M St A :=
  match o with
  | Some a => ret a
  | None => fault
  end.
End Effects.

(** ** ephem and ast_ephem: the body queries *)

Section Queries.
Context {F : Type} `{Arith F}.
Local Open Scope num_scope.

(** [double M[11]] of [ephem], before the division by [G]. *)
Definition ephem_M : list F :=
  [ dec 295912208285591100 (-21);   (* 0  sun     0.295912208285591100E-03 *)
    dec 491248045036476000 (-28);   (* 1  mercury 0.491248045036476000E-10 *)
    dec 724345233264412000 (-27);   (* 2  venus   0.724345233264412000E-09 *)
    dec 888769244512563400 (-27);   (* 3  earth   0.888769244512563400E-09 *)
    dec 109318945074237400 (-28);   (* 4  moon    0.109318945074237400E-10 *)
    dec 954954869555077000 (-28);   (* 5  mars    0.954954869555077000E-10 *)
    dec 282534584083387000 (-24);   (* 6  jupiter 0.282534584083387000E-06 *)
    dec 845970607324503000 (-25);   (* 7  saturn  0.845970607324503000E-07 *)
    dec 129202482578296000 (-25);   (* 8  uranus  0.129202482578296000E-07 *)
    dec 152435734788511000 (-25);   (* 9  neptune 0.152435734788511000E-07 *)
    dec 217844105197418000 (-29)    (* 10 pluto   0.217844105197418000E-11 *)
  ].

(** [double M[16]] of [ast_ephem], before the division by [G]. *)
Definition ast_M : list F :=
  [ dec 1400476556172344 (-28);     (* ceres      1.400476556172344e-13 *)
    dec 3854750187808810 (-29);     (* vesta      3.854750187808810e-14 *)
    dec 3104448198938713 (-29);     (* pallas     3.104448198938713e-14 *)
    dec 1235800787294125 (-29);     (* hygiea     1.235800787294125e-14 *)
    dec 6343280473648602 (-30);     (* euphrosyne 6.343280473648602e-15 *)
    dec 5256168678493662 (-30);     (* interamnia 5.256168678493662e-15 *)
    dec 5198126979457498 (-30);     (* davida     5.198126979457498e-15 *)
    dec 4678307418350905 (-30);     (* eunomia    4.678307418350905e-15 *)
    dec 3617538317147937 (-30);     (* juno       3.617538317147937e-15 *)
    dec 3411586826193812 (-30);     (* psyche     3.411586826193812e-15 *)
    dec 3180659282652541 (-30);     (* cybele     3.180659282652541e-15 *)
    dec 2577114127311047 (-30);     (* thisbe     2.577114127311047e-15 *)
    dec 2531091726015068 (-30);     (* doris      2.531091726015068e-15 *)
    dec 2476788101255867 (-30);     (* europa     2.476788101255867e-15 *)
    dec 2295559390637462 (-30);     (* patientia  2.295559390637462e-15 *)
    dec 2199295173574073 (-30)      (* sylvia     2.199295173574073e-15 *)
  ].

(** [for (k ...) M[k] /= G;] *)
Definition scaled (M0 : list F) (G : F) : list F := map (fun g => g / G) M0.

(** The first-call block of [ephem]. *)
Definition ephem_init : M (env F) unit :=
  fun e =>
    if ephem_initialized e then Ret tt e
    else
      match de430 e with
      | None =>
          Exit (put_stderr "could not load DE430 file, fool!\n"
                           (set_ephem_static false None (ephem_spl e) e))
      | Some pl =>
          match sb431 e with
          | None =>
              Exit (put_stderr "could not load sb431-n16 file, fool!\n"
                               (set_ephem_static false (Some pl) None e))
          | Some spl =>
              Ret tt (set_ephem_static true (Some pl) (Some spl)
                                       (put_stdout "initialization complete\n" e))
          end
      end.

(** The body code [ephem] asks [jpl_calc] for, by index: the source has
    one [if (i==k)] block per index [k = 0 .. 10], alike but for [M[k]]
    and this code. *)
Definition ephem_code (i : Z) : option Z :=
  match i with
  | 0 => Some PLAN_SOL | 1 => Some PLAN_MER | 2 => Some PLAN_VEN
  | 3 => Some PLAN_EAR | 4 => Some PLAN_LUN | 5 => Some PLAN_MAR
  | 6 => Some PLAN_JUP | 7 => Some PLAN_SAT | 8 => Some PLAN_URA
  | 9 => Some PLAN_NEP | 10 => Some PLAN_PLU
  | _ => None
  end%Z.

(** The block under [if (i==k)]: the return value of [jpl_calc] is not
    looked at. *)
Definition ephem_block (G : F) (pl : _jpl_s F) (now : mpos_s F) (jde : F) (k : Z) (code : Z)
  : option (ephem_out F) :=
  match jpl_calc (Some pl) (Some now) jde code PLAN_BAR with
  | Some (_, Some now) =>
      let u := vecpos_div (mpos_u now) (jpl_cau pl) in
      let v := vecpos_div (mpos_v now) (jpl_cau pl / #86400) in
      Some (mkout (idx (scaled ephem_M G) (Z.to_nat k))
                  (c0 u) (c1 u) (c2 u) (c0 v) (c1 v) (c2 v))
  | _ => None
  end.

(** [ephem(G, i, t, &m, &x, &y, &z, &vx, &vy, &vz)]: [o] is what the
    seven variables hold at the call, the result what they hold after. *)
Definition ephem (G : F) (i : Z) (t : F) (o : ephem_out F) : M (env F) (ephem_out F) :=
  ephem_init ;;;
  fun e =>
    let jde := t in
    match ephem_code i with
    | None => Ret o e
    | Some code =>
        match ephem_pl e with
        | None => Fault e
        | Some pl => defined (ephem_block G pl (uninit_now e) jde i code) e
        end
    end.

(** [ast_ephem(G, i, t, &m, &x, &y, &z)]: the result is what it writes to
    [m], [x], [y], [z]. *)
Definition ast_ephem (G : F) (i : Z) (t : F) : M (env F) (F * F * F * F) :=
  fun e =>
    if ((i <? 0) || (15 <? i))%Z then Exit (put_stderr "asteroid out of range\n" e)
    else
      let Ms := scaled ast_M G in
      let init : M (env F) unit :=
        fun e =>
          if ast_initialized e then Ret tt e
          else
            match sb431 e with
            | None =>
                Exit (put_stderr "could not load sb431-n16 file, fool!\n"
                                 (set_ast_static false None e))
            | Some spl =>
                Ret tt (set_ast_static true (Some spl)
                                       (put_stdout "asteroid initialization complete\n" e))
            end in
      (init ;;;
       fun e =>
         let jde := t in
         match ast_spl e with
         | None => Fault e
         | Some spl =>
             let pos := spl i jde in
             Ret (idx Ms (Z.to_nat i), c0 (mpos_u pos), c1 (mpos_u pos), c2 (mpos_u pos)) e
         end) e.
End Queries.

(** ** rebx_ephemeris_forces *)

(** [struct reb_particle], the fields the routine touches. *)
Record reb_particle (F : Type) : Type := mkparticle {
  p_x : F; p_y : F; p_z : F;
  p_vx : F; p_vy : F; p_vz : F;
  p_ax : F; p_ay : F; p_az : F;
  p_m : F
}.
Arguments mkparticle {F} _ _ _ _ _ _ _ _ _ _.
Arguments p_x {F} _.
Arguments p_y {F} _.
Arguments p_z {F} _.
Arguments p_vx {F} _.
Arguments p_vy {F} _.
Arguments p_vz {F} _.
Arguments p_ax {F} _.
Arguments p_ay {F} _.
Arguments p_az {F} _.
Arguments p_m {F} _.

(** [struct reb_simulation], the fields the routine reads. *)
Record reb_simulation (F : Type) : Type := mksim { sim_G : F; sim_t : F }.
Arguments mksim {F} _ _.
Arguments sim_G {F} _.
Arguments sim_t {F} _.

(** Modelled from the spec: the host's parameter store (reboundx.h,
    [rebx_get_param]) is not among the sources.  It is a key/value lookup
    by name that returns a typed pointer or null; [ap] is the list the
    force carries. *)
Inductive rebx_value (F : Type) : Type :=
| REBX_INT (n : Z)
| REBX_DOUBLE (d : F).
Arguments REBX_INT {F} _.
Arguments REBX_DOUBLE {F} _.

Record rebx_force (F : Type) : Type := mkforce { ap : list (string * rebx_value F) }.
Arguments mkforce {F} _.
Arguments ap {F} _.

Fixpoint rebx_get_param {F : Type} (ap : list (string * rebx_value F)) (name : string)
  : option (rebx_value F) :=
  match ap with
  | [] => None
  | (k, v) :: rest => if String.eqb k name then Some v else rebx_get_param rest name
  end.

(** Dereferencing what [rebx_get_param] returned as [int *], as
    [double *]: undefined for NULL or for a value of the other type. *)
Definition deref_int {F : Type} (v : option (rebx_value F)) : option Z :=
  match v with
  | Some (REBX_INT n) => Some n
  | _ => None
  end.

Definition deref_double {F : Type} (v : option (rebx_value F)) : option F :=
  match v with
  | Some (REBX_DOUBLE d) => Some d
  | _ => None
  end.

(** The routine runs on the query state and on the particle array it is
    handed. *)
Definition machine (F : Type) : Type := (env F * list (reb_particle F))%type.

Section Particles.
Context {F : Type}.

Definition set_acc (p : reb_particle F) (ax ay az : F) : reb_particle F :=
  mkparticle (p_x p) (p_y p) (p_z p) (p_vx p) (p_vy p) (p_vz p) ax ay az (p_m p).

(** [particles[j] = p]. *)
Fixpoint store (ps : list (reb_particle F)) (j : nat) (p : reb_particle F)
  : list (reb_particle F) :=
  match ps, j with
  | [], _ => []
  | _ :: rest, O => p :: rest
  | q :: rest, S j' => q :: store rest j' p
  end.

(** A query runs on the query state alone. *)
Definition lift {A : Type} (c : M (env F) A) : M (machine F) A :=
  fun s =>
    match c (fst s) with
    | Ret a e => Ret a (e, snd s)
    | Exit e => Exit (e, snd s)
    | Fault e => Fault (e, snd s)
    end.

(** An update of the particle array; None is an access outside it. *)
Definition on_particles (f : list (reb_particle F) -> option (list (reb_particle F)))
  : M (machine F) unit :=
  fun s =>
    match f (snd s) with
    | Some ps => Ret tt (fst s, ps)
    | None => Fault s
    end.
End Particles.

Section Forces.
Context {F : Type} `{Arith F}.
Local Open Scope num_scope.

(** [DBL_EPSILON] of float.h: [2^-52]. *)
Definition DBL_EPSILON : F := #1 / #4503599627370496.

(** The body of the loop over [j]: the pull of a mass [m] at [(x, y, z)]
    on particle [p]. *)
Definition kick (G m x y z : F) (p : reb_particle F) : reb_particle F :=
  let dx := p_x p - x in
  let dy := p_y p - y in
  let dz := p_z p - z in
  let _r := fsqrt (dx * dx + dy * dy + dz * dz) in
  let prefac := G * m / (_r * _r * _r) in
  set_acc p (p_ax p - prefac * dx) (p_ay p - prefac * dy) (p_az p - prefac * dz).

(** [for (int j=0; j<N; j++)]: [n] iterations are left, the counter is
    [j]. *)
Fixpoint kick_loop (G m x y z : F) (n j : nat) (ps : list (reb_particle F))
  : option (list (reb_particle F)) :=
  match n with
  | O => Some ps
  | S n' =>
      match nth_error ps j with
      | None => None
      | Some p => kick_loop G m x y z n' (S j) (store ps j (kick G m x y z p))
      end
  end.

(** *** The relativistic fixed point *)

(** What the loop carries: [vi], [vi2] and [A]. *)
Record gr_state : Type := mkgr { gr_vi : vec3 F; gr_vi2 : F; gr_A : F }.

Definition gr_A_of (mu ri C2 vi2 : F) : F :=
  (dec 5 (-1) * vi2 + #3 * mu / ri) / C2.

(** One pass through the body of [for(q=0; q<max_iterations; q++)], up
    to the test. *)
Definition gr_update (p : reb_particle F) (mu ri C2 : F) (s : gr_state) : gr_state :=
  let vi_x := p_vx p / (#1 - gr_A s) in
  let vi_y := p_vy p / (#1 - gr_A s) in
  let vi_z := p_vz p / (#1 - gr_A s) in
  let vi2 := vi_x * vi_x + vi_y * vi_y + vi_z * vi_z in
  mkgr (mkvec vi_x vi_y vi_z) vi2 (gr_A_of mu ri C2 vi2).

(** The test that ends the loop early; [old] is the state the pass
    started from ([old_v] is its [vi]). *)
Definition gr_converged (old new : gr_state) : bool :=
  let dvx := c0 (gr_vi new) - c0 (gr_vi old) in
  let dvy := c1 (gr_vi new) - c1 (gr_vi old) in
  let dvz := c2 (gr_vi new) - c2 (gr_vi old) in
  (dvx * dvx + dvy * dvy + dvz * dvz) / gr_vi2 new <? DBL_EPSILON * DBL_EPSILON.

(** The loop: [n] is [max_iterations - q]; the result is the final [q]
    and state. *)
Fixpoint gr_loop (p : reb_particle F) (mu ri C2 : F) (n : nat) (q : Z) (s : gr_state)
  : Z * gr_state :=
  match n with
  | O => (q, s)
  | S n' =>
      let s' := gr_update p mu ri C2 s in
      if gr_converged s s' then (q, s')
      else gr_loop p mu ri C2 n' (q + 1)%Z s'
  end.

Definition max_iterations : Z := 10.
Definition default_max_iterations : Z := 10.

(** The scalars [B] and [D] of the final state, and the term added to
    the acceleration of [p]. *)
Definition gr_B (mu ri C2 : F) (s : gr_state) : F :=
  (mu / ri - dec 15 (-1) * gr_vi2 s) * mu / (ri * ri * ri) / C2.

Definition gr_D (p : reb_particle F) (mu ri C2 : F) (s : gr_state) : F :=
  let vi := gr_vi s in
  let B := gr_B mu ri C2 s in
  let rdotrdot := p_x p * p_vx p + p_y p * p_vy p + p_z p * p_vz p in
  let vidot_x := p_ax p + B * p_x p in
  let vidot_y := p_ay p + B * p_y p in
  let vidot_z := p_az p + B * p_z p in
  let vdotvdot := c0 vi * vidot_x + c1 vi * vidot_y + c2 vi * vidot_z in
  (vdotvdot - #3 * mu / (ri * ri * ri) * rdotrdot) / C2.

Definition gr_term (p : reb_particle F) (mu ri C2 : F) (s : gr_state) : vec3 F :=
  let vi := gr_vi s in
  let A := gr_A s in
  let B := gr_B mu ri C2 s in
  let D := gr_D p mu ri C2 s in
  mkvec (B * (#1 - A) * p_x p - A * p_ax p - D * c0 vi)
        (B * (#1 - A) * p_y p - A * p_ay p - D * c1 vi)
        (B * (#1 - A) * p_z p - A * p_az p - D * c2 vi).

(** [ri], and the state the loop starts from, for the copy [p] of
    [particles[i]]. *)
Definition gr_ri (p : reb_particle F) : F :=
  fsqrt (p_x p * p_x p + p_y p * p_y p + p_z p * p_z p).

Definition gr_start (p : reb_particle F) (mu C2 : F) : gr_state :=
  let vi := mkvec (p_vx p) (p_vy p) (p_vz p) in
  let vi2 := c0 vi * c0 vi + c1 vi * c1 vi + c2 vi * c2 vi in
  let ri := gr_ri p in
  let A := gr_A_of mu ri C2 vi2 in
  mkgr vi vi2 A.

(** The final [q] and state of the loop. *)
Definition gr_solve (p : reb_particle F) (mu C2 : F) : Z * gr_state :=
  gr_loop p mu (gr_ri p) C2 (Z.to_nat max_iterations) 0%Z (gr_start p mu C2).

Definition gr_warning : string :=
  "REBOUNDx Warning: 10 iterations in gr.c failed to converge. This is typically because the perturbation is too strong for the current implementation.".

Definition gr_particle (mu C2 : F) (p : reb_particle F) : M (env F) (reb_particle F) :=
  let '(q, s) := gr_solve p mu C2 in
  (if (q =? default_max_iterations)%Z then reb_warning gr_warning else ret tt) ;;;
  let d := gr_term p mu (gr_ri p) C2 s in
  ret (set_acc p (p_ax p + c0 d) (p_ay p + c1 d) (p_az p + c2 d)).

(** [for (int i=0; i<N; i++)] of the relativistic part. *)
Fixpoint gr_particles (mu C2 : F) (n i : nat) : M (machine F) unit :=
  match n with
  | O => ret tt
  | S n' =>
      fun s =>
        match nth_error (snd s) i with
        | None => Fault s
        | Some p =>
            (p' <- lift (gr_particle mu C2 p) ;;
             on_particles (fun ps => Some (store ps i p')) ;;;
             gr_particles mu C2 n' (S i)) s
        end
  end.

(** The routine, with the two body queries it calls as parameters. *)
Section WithQueries.
Variable query : F -> Z -> F -> ephem_out F -> M (env F) (ephem_out F).
Variable ast_query : F -> Z -> F -> M (env F) (F * F * F * F).

(** [for (int i=0; i<*N_ephem; i++)]: [n] iterations are left, the
    counter is [i], and [o] is what [m, x, y, z, vx, vy, vz] hold. *)
Fixpoint major_loop (G t : F) (N : Z) (n : nat) (i : Z) (o : ephem_out F)
  : M (machine F) (ephem_out F) :=
  match n with
  | O => ret o
  | S n' =>
      o' <- lift (query G i t o) ;;
      on_particles (kick_loop G (o_m o') (o_x o') (o_y o') (o_z o') (Z.to_nat N) 0) ;;;
      major_loop G t N n' (i + 1)%Z o'
  end.

(** [for (int i=0; i<*N_ast; i++)]; [xs, ys, zs] is the Sun. *)
Fixpoint asteroid_loop (G t : F) (N : Z) (xs ys zs : F) (n : nat) (i : Z)
  : M (machine F) unit :=
  match n with
  | O => ret tt
  | S n' =>
      r <- lift (ast_query G i t) ;;
      (let '(m, x, y, z) := r in
       let x := x + xs in
       let y := y + ys in
       let z := z + zs in
       on_particles (kick_loop G m x y z (Z.to_nat N) 0)) ;;;
      asteroid_loop G t N xs ys zs n' (i + 1)%Z
  end.

Definition ephemeris_forces (sim : reb_simulation F) (force : rebx_force F) (N : Z)
  : M (machine F) unit :=
  let N_ephem := rebx_get_param (ap force) "N_ephem" in
  let N_ast := rebx_get_param (ap force) "N_ast" in
  match N_ephem with
  | None =>
      lift (fprintf_stderr "REBOUNDx Error: Need to set N_ephem for ephemeris_forces\n")
  | Some _ =>
      let G := sim_G sim in
      let t := sim_t sim in
      let c := rebx_get_param (ap force) "c" in
      match c with
      | None =>
          lift (reb_error
                  "REBOUNDx Error: Need to set speed of light in gr effect.  See examples in documentation.\n")
      | Some _ =>
          c_val <- defined (deref_double c) ;;
          let C2 := c_val * c_val in
          locals <- (fun s => Ret (uninit_out (fst s)) s) ;;
          (* Get position and mass of earth *)
          oe <- lift (query G 3%Z t locals) ;;
          (* Calculate acceleration due to sun and planets *)
          n_ephem <- defined (deref_int N_ephem) ;;
          o <- major_loop G t N (Z.to_nat n_ephem) 0%Z
                 (mkout (o_m oe) (o_x locals) (o_y locals) (o_z locals)
                        (o_vx locals) (o_vy locals) (o_vz locals)) ;;
          (* Get position, velocity, and mass of the sun wrt barycenter *)
          os <- lift (query G 0%Z t
                        (mkout (o_m o) (o_x locals) (o_y locals) (o_z locals)
                               (o_vx locals) (o_vy locals) (o_vz locals))) ;;
          (* Now calculate acceleration due to massive asteroids *)
          n_ast <- defined (deref_int N_ast) ;;
          asteroid_loop G t N (o_x os) (o_y os) (o_z os) (Z.to_nat n_ast) 0%Z ;;;
          (* Here is the GR treatment *)
          let Msun := #1 in
          let mu := G * Msun in
          gr_particles mu C2 (Z.to_nat N) 0
      end
  end.
End WithQueries.

(** [rebx_ephemeris_forces(sim, force, particles, N)]. *)
Definition rebx_ephemeris_forces (sim : reb_simulation F) (force : rebx_force F) (N : Z)
  : M (machine F) unit :=
  ephemeris_forces ephem ast_ephem sim force N.
End Forces.

(** ** The specification's words, to compare the code with *)

Section SpecWords.
Context {F : Type} `{Arith F}.
Local Open Scope num_scope.

(** Earth = EMB - Moon * (1/(1+mu)); Moon = EMB + Moon * (mu/(1+mu)),
    where "Moon" on the right is the geocentric lunar entry. *)
Definition earth_of (mu : F) (emb lun : vec3 F) : vec3 F :=
  mkvec (c0 emb - c0 lun * (#1 / (#1 + mu)))
        (c1 emb - c1 lun * (#1 / (#1 + mu)))
        (c2 emb - c2 lun * (#1 / (#1 + mu))).

Definition moon_of (mu : F) (emb lun : vec3 F) : vec3 F :=
  mkvec (c0 emb + c0 lun * (mu / (#1 + mu)))
        (c1 emb + c1 lun * (mu / (#1 + mu)))
        (c2 emb + c2 lun * (mu / (#1 + mu))).

(** Earth and Moon recombined with weights [we] and [wm]. *)
Definition recombine (we wm : F) (earth moon : vec3 F) : vec3 F :=
  mkvec (c0 earth * we + c0 moon * wm)
        (c1 earth * we + c1 moon * wm)
        (c2 earth * we + c2 moon * wm).
End SpecWords.

(** ** A small ephemeris file in doubles, for concrete runs *)

Module Demo.

(** Two coefficients and one interval per body; the offsets are those of
    a record that starts with its two time stamps. *)
Definition demo_off (B : jpl_index) : Z :=
  match B with
  | JPL_MER => 2 | JPL_VEN => 8 | JPL_EMB => 14 | JPL_MAR => 20 | JPL_JUP => 26
  | JPL_SAT => 32 | JPL_URA => 38 | JPL_NEP => 44 | JPL_PLU => 50 | JPL_LUN => 56
  | JPL_SUN => 62 | JPL_NUT => 68 | JPL_LIB => 72 | JPL_MAN => 78 | JPL_TDB => 84
  end.

Definition demo_ncm (B : jpl_index) : Z :=
  match B with
  | JPL_NUT => 2
  | JPL_TDB => 1
  | _ => 3
  end.

(** Records of 32 days from day 0 to day 64, an AU of 2 length units, an
    Earth/Moon mass ratio of 4, and a mapping in which every double is
    1.0. *)
Definition demo_jpl : _jpl_s float :=
  mkjpl 0%float 64%float 32%float 2%float 4%float 400 430
        demo_off (fun _ => 2) (fun _ => 1) demo_ncm
        (4 * 688) 688 (Some (fun _ => 1%float)).

Definition demo_record : Z -> float := record_at (fun _ => 1%float) (record_offset 0 688).




Definition no_spk : spk_s float := fun _ _ => (mkmpos (mkvec 0 0 0) (mkvec 0 0 0) 0)%float.

(** A process that has not called [ephem] yet, with both files at hand. *)
Definition demo_env : env float :=
  mkenv (Some demo_jpl) (Some no_spk) false None None false None
        (mkmpos (mkvec 0 0 0) (mkvec 0 0 0) 0)%float
        (mkout 0 0 0 0 0 0 0)%float
        [] [] [].

(** The same file read in exact arithmetic. *)
Definition demo_jpl_exact : _jpl_s R :=
  mkjpl 0%R 64%R 32%R 2%R 4%R 400 430
        demo_off (fun _ => 2) (fun _ => 1) demo_ncm
        (4 * 688) 688 (Some (fun _ => 1%R)).

Definition demo_record_exact : Z -> R := record_at (fun _ => 1%R) (record_offset 0 688).

(** The state [jpl_calc] reports for a body code on day 16, the middle
    of the first record, relative to the barycentre. *)
Definition demo_state (code : Z) : option (mpos_s float) :=
  match jpl_calc (Some demo_jpl) (Some (uninit_now demo_env)) 16%float code PLAN_BAR with
  | Some (_, now) => now
  | None => None
  end.

(** A test particle at rest at [(1, 0, 0)]. *)
Definition demo_particle : reb_particle float :=
  (mkparticle 1 0 0 0 0 0 0 0 0 0)%float.

End Demo.

(** ** Conditions the statements below are made under *)

Section Conditions.
Context {F : Type} `{Arith F}.
Local Open Scope num_scope.

(** The file covers the epoch [jde], in record [k]: [jde] is not outside
    [[beg, end]], the quotient [(jde - beg) / inc] is not negative and
    has floor [k], and [k + 2] and the byte offset fit their C types. *)
Definition covers (pl : _jpl_s F) (jde : F) (k : Z) : Prop :=
  (jde <? jpl_beg pl) = false /\
  (jpl_end pl <? jde) = false /\
  ((jde - jpl_beg pl) / jpl_inc pl <? #0) = false /\
  ffloor ((jde - jpl_beg pl) / jpl_inc pl) = Some k /\
  (0 <= k <= UINT32_MAX - 2)%Z /\
  (0 <= jpl_rec pl)%Z /\
  ((k + 2) * jpl_rec pl <= SIZE_MAX)%Z.

(** The handle [ephem] works with once its first-call block is through:
    the cached one, or the one a first call loads when both files can be
    opened. *)
Definition ephem_handle (e : env F) : option (_jpl_s F) :=
  if ephem_initialized e then ephem_pl e
  else
    match de430 e, sb431 e with
    | Some pl, Some _ => Some pl
    | _, _ => None
    end.

(** The state that block leaves. *)
Definition ephem_started (e : env F) : env F :=
  if ephem_initialized e then e
  else set_ephem_static true (de430 e) (sb431 e) (put_stdout "initialization complete\n" e).
End Conditions.

(** The handle [pl] over another mapping. *)
Definition with_map {F : Type} (pl : _jpl_s F) (m : option (Z -> F)) : _jpl_s F :=
  mkjpl (jpl_beg pl) (jpl_end pl) (jpl_inc pl) (jpl_cau pl) (jpl_cem pl) (jpl_num pl)
        (jpl_ver pl) (jpl_off pl) (jpl_ncf pl) (jpl_niv pl) (jpl_ncm pl)
        (jpl_len pl) (jpl_rec pl) m.

(** The arithmetic of [jpl_work] stays in [int]: the product [niv * 2],
    and every index up to the last coefficient of sub-interval [b]. *)
Definition work_fits (ncm ncf niv b : Z) : Prop :=
  INT_MIN <= niv * 2 <= INT_MAX /\ 0 <= b /\ ncf * (ncm * (b + 1)) <= INT_MAX.

(** What a call returned, when it did. *)
Definition returned {St A : Type} (r : outcome St A) : option A :=
  match r with
  | Ret a _ => Some a
  | _ => None
  end.

Definition final_state {St A : Type} (r : outcome St A) : St :=
  match r with
  | Ret _ s => s
  | Exit s => s
  | Fault s => s
  end.

(** ** The relativistic iteration *)

Section GrWords.
Context {F : Type} `{Arith F}.

(** The loop's update applied [k] times. *)
Fixpoint gr_iterate (p : reb_particle F) (mu C2 : F) (k : nat) (s : gr_state) : gr_state :=
  match k with
  | O => s
  | S k' => gr_iterate p mu C2 k' (gr_update p mu (gr_ri p) C2 s)
  end.

(** The particle with the term of a state added to its acceleration. *)
Definition gr_corrected (p : reb_particle F) (mu C2 : F) (s : gr_state) : reb_particle F :=
  let d := gr_term p mu (gr_ri p) C2 s in
  set_acc p (fadd (p_ax p) (c0 d)) (fadd (p_ay p) (c1 d)) (fadd (p_az p) (c2 d)).
End GrWords.

(** ** The relativistic iteration as the specification words it

    The specification's iteration carries the velocity [v] and the
    scalar [A]: [old_v = v; v = v_particle / (1 - A); A = (|v|^2 / 2 +
    3 mu / r) / c^2], and it stops when [|v - old_v|^2 / |v|^2 < eps^2]. *)

Section GrSpecWords.
Context {F : Type} `{Arith F}.
Local Open Scope num_scope.

(** [|v|^2]. *)
Definition norm2 (v : vec3 F) : F := c0 v * c0 v + c1 v * c1 v + c2 v * c2 v.

(** [A = (|v|^2 / 2 + 3 mu / r) / c^2], [r] the particle's distance from
    the barycentre and [C2] the square of [c]. *)
Definition words_A (p : reb_particle F) (mu C2 : F) (v : vec3 F) : F :=
  (dec 5 (-1) * norm2 v + #3 * mu / fsqrt (p_x p * p_x p + p_y p * p_y p + p_z p * p_z p)) / C2.

(** Before the first pass [v] is the particle's velocity. *)
Definition words_start (p : reb_particle F) (mu C2 : F) : vec3 F * F :=
  let v := mkvec (p_vx p) (p_vy p) (p_vz p) in
  (v, words_A p mu C2 v).

(** One pass: [v = v_particle / (1 - A)], then [A] from the new [v]. *)
Definition words_update (p : reb_particle F) (mu C2 : F) (s : vec3 F * F) : vec3 F * F :=
  let v := mkvec (p_vx p / (#1 - snd s)) (p_vy p / (#1 - snd s)) (p_vz p / (#1 - snd s)) in
  (v, words_A p mu C2 v).

(** The state after [k] passes. *)
Fixpoint words_iterate (p : reb_particle F) (mu C2 : F) (k : nat) : vec3 F * F :=
  match k with
  | O => words_start p mu C2
  | S k' => words_update p mu C2 (words_iterate p mu C2 k')
  end.

(** The stopping test [|v - old_v|^2 / |v|^2 < eps^2]. *)
Definition words_stop (old_v v : vec3 F) : bool :=
  norm2 (mkvec (c0 v - c0 old_v) (c1 v - c1 old_v) (c2 v - c2 old_v)) / norm2 v
  <? DBL_EPSILON * DBL_EPSILON.

(** The test after pass [k + 1], between the iterates [k] and [k + 1]. *)
Definition words_test (p : reb_particle F) (mu C2 : F) (k : nat) : bool :=
  words_stop (fst (words_iterate p mu C2 k)) (fst (words_iterate p mu C2 (S k))).

(** What the loop's variables [vi], [vi2] and [A] hold for a state of
    the specification. *)
Definition gr_state_of (s : vec3 F * F) : gr_state :=
  mkgr (fst s) (norm2 (fst s)) (snd s).
End GrSpecWords.

(** ** The Newtonian loop as the specification words it *)

Section NewtonWords.
Context {F : Type} `{Arith F}.
Variable query : F -> Z -> F -> ephem_out F -> M (env F) (ephem_out F).

(** The queries for the bodies [i, i+1, ..., i+n-1] alone, in this
    order: the answers, and what the seven variables hold at the end. *)
Fixpoint query_trace (G t : F) (n : nat) (i : Z) (o : ephem_out F)
  : M (env F) (list (ephem_out F) * ephem_out F) :=
  match n with
  | O => ret ([], o)
  | S n' =>
      o' <- query G i t o ;;
      r <- query_trace G t n' (i + 1) o' ;;
      ret (o' :: fst r, snd r)
  end.

(** A particle with [-G m dr / |dr|^3] added to its acceleration, for a
    body [b] of mass [m] and [dr] the particle's position minus the
    body's. *)
Definition newton_pull (G : F) (b : ephem_out F) (p : reb_particle F) : reb_particle F :=
  let dx := fsub (p_x p) (o_x b) in
  let dy := fsub (p_y p) (o_y b) in
  let dz := fsub (p_z p) (o_z b) in
  let r := fsqrt (fadd (fadd (fmul dx dx) (fmul dy dy)) (fmul dz dz)) in
  let g := fdiv (fmul G (o_m b)) (fmul (fmul r r) r) in
  mkparticle (p_x p) (p_y p) (p_z p) (p_vx p) (p_vy p) (p_vz p)
             (fsub (p_ax p) (fmul g dx)) (fsub (p_ay p) (fmul g dy))
             (fsub (p_az p) (fmul g dz)) (p_m p).

(** A particle after the pull of each body of a list, in turn. *)
Definition pulled (G : F) (bodies : list (ephem_out F)) (p : reb_particle F)
  : reb_particle F :=
  fold_left (fun p b => newton_pull G b p) bodies p.
End NewtonWords.

(** ** The end-to-end scenario of the specification *)

Module Scenario.

(** A DE430 file with the header of the demo file in which every
    coefficient is 0: the Sun sits at the barycentre, at rest. *)
Definition barycentric_file : _jpl_s float :=
  mkjpl 0%float 64%float 32%float 2%float 4%float 400 430
        Demo.demo_off (fun _ => 2) (fun _ => 1) Demo.demo_ncm
        (4 * 688) 688 (Some (fun _ => 0%float)).

(** A process that has not called [ephem] yet, with this file and an
    asteroid kernel at hand. *)
Definition process : env float :=
  mkenv (Some barycentric_file) (Some Demo.no_spk) false None None false None
        (mkmpos (mkvec 0 0 0) (mkvec 0 0 0) 0)%float
        (mkout 0 0 0 0 0 0 0)%float
        [] [] [].

(** [G = 1], on day 16. *)
Definition sim : reb_simulation float := mksim 1%float 16%float.

(** [N_ephem = 1], no asteroids, [c = +infinity]. *)
Definition force : rebx_force float :=
  mkforce [("N_ephem"%string, REBX_INT 1); ("N_ast"%string, REBX_INT 0);
           ("c"%string, REBX_DOUBLE infinity)].

(** A test particle at rest at distance 1 on the x axis. *)
Definition particle : reb_particle float := (mkparticle 1 0 0 0 0 0 0 0 0 0)%float.

(** The same day with [G = 4]. *)
Definition sim_G4 : reb_simulation float := mksim 4%float 16%float.

(** A force that carries [N_ephem = 1] and the speed of light in AU per
    day, and no [N_ast]. *)
Definition force_without_N_ast : rebx_force float :=
  mkforce [("N_ephem"%string, REBX_INT 1);
           ("c"%string, REBX_DOUBLE 173.14463267424034%float)].

End Scenario.

(** Closing a goal by running the definitions. *)
Ltac by_run := vm_compute; first [reflexivity | lia | discriminate].

(** ** The components jpl_work returns *)

Section WorkComponents.
Context {F : Type} `{Arith F}.

(** Component [m] of the position and of the velocity that
    [jpl_work(P, ncm, ncf, niv, t0, t1, u, v)] leaves in [u] and [v]. *)
Definition work_pos (P : Z -> F) (ncm ncf niv : Z) (t1 : F) (m : Z) (t0 : F) : F :=
  match jpl_work P ncm ncf niv t0 t1 with
  | Some (us, _) => idx us (Z.to_nat m)
  | None => of_Z 0
  end.

Definition work_vel (P : Z -> F) (ncm ncf niv : Z) (t1 : F) (m : Z) (t0 : F) : F :=
  match jpl_work P ncm ncf niv t0 t1 with
  | Some (_, vs) => idx vs (Z.to_nat m)
  | None => of_Z 0
  end.
End WorkComponents.

(** All six components of a state are finite doubles. *)
Definition finite_state (u v : vec3 float) : bool :=
  Binary64.finite (c0 u) && Binary64.finite (c1 u) && Binary64.finite (c2 u) &&
  Binary64.finite (c0 v) && Binary64.finite (c1 v) && Binary64.finite (c2 v).

(** ** The asteroid query's first call *)

Section AstConditions.
Context {F : Type} `{Arith F}.

(** The kernel handle [ast_ephem] works with once its first-call block
    is through. *)
Definition ast_handle (e : env F) : option (spk_s F) :=
  if ast_initialized e then ast_spl e else sb431 e.

(** The state that block leaves. *)
Definition ast_started (e : env F) : env F :=
  if ast_initialized e then e
  else set_ast_static true (sb431 e) (put_stdout "asteroid initialization complete\n" e).
End AstConditions.

(** ** The loops of the force routine as the statements word them *)

Section ForceWords.
Context {F : Type} `{Arith F}.

(** What the routine is not to touch of a particle: its position, its
    velocity and its mass. *)
Definition frame (p : reb_particle F) : F * F * F * F * F * F * F :=
  (p_x p, p_y p, p_z p, p_vx p, p_vy p, p_vz p, p_m p).

(** An asteroid as a body: its mass, and its heliocentric position moved
    by the Sun's barycentric position [(xs, ys, zs)]. *)
Definition ast_body (xs ys zs : F) (r : F * F * F * F) : ephem_out F :=
  let '(m, x, y, z) := r in
  mkout m (fadd x xs) (fadd y ys) (fadd z zs) (of_Z 0) (of_Z 0) (of_Z 0).

Variable ast_query : F -> Z -> F -> M (env F) (F * F * F * F).

(** The asteroid queries for [i, i+1, ..., i+n-1] alone, in this order. *)
Fixpoint ast_trace (G t : F) (xs ys zs : F) (n : nat) (i : Z)
  : M (env F) (list (ephem_out F)) :=
  match n with
  | O => ret []
  | S n' =>
      r <- ast_query G i t ;;
      rest <- ast_trace G t xs ys zs n' (i + 1) ;;
      ret (ast_body xs ys zs r :: rest)
  end.
End ForceWords.

(** A computation that leaves the frame of every particle, however it
    ends. *)
Definition keeps_frame (F : Type) {A : Type} (c : M (machine F) A) : Prop :=
  forall s, map frame (snd (final_state (c s))) = map frame (snd s).

Section GrPass.
Context {F : Type} `{Arith F}.

(** A particle after the relativistic part: the term of the last iterate
    added to its acceleration. *)
Definition gr_fixed (mu C2 : F) (p : reb_particle F) : reb_particle F :=
  gr_corrected p mu C2 (snd (gr_solve p mu C2)).

(** The warnings the relativistic part reports for a list of particles,
    one for each whose loop ran all its passes. *)
Definition gr_reports (mu C2 : F) (ps : list (reb_particle F)) : list string :=
  flat_map (fun p => if (fst (gr_solve p mu C2) =? default_max_iterations)%Z
                     then [gr_warning] else []) ps.

Definition put_messages (ms : list string) (e : env F) : env F :=
  fold_left (fun e m => put_message m e) ms e.
End GrPass.

(** A list with [g] applied to its first [n] entries: what a loop [for
    (j = 0; j < n; j++)] over an array leaves. *)
Definition on_first {A : Type} (n : nat) (g : A -> A) (l : list A) : list A :=
  map g (firstn n l) ++ skipn n l.

(** ** Zeros and NaN *)

(** A double that is a zero or NaN. *)
Definition zero_or_nan (x : float) : bool :=
  Binary64.zero x || Binary64.not_a_number x.

(** A particle at rest: the three components of its velocity are
    zeros. *)
Definition at_rest (p : reb_particle float) : bool :=
  Binary64.zero (p_vx p) && Binary64.zero (p_vy p) && Binary64.zero (p_vz p).

(** ** jpl_init: opening the file *)

(** The value of a little-endian byte string, as the x86-64 host of the
    "linux_" file reads an object from its bytes. *)
Definition le_value (bs : list byte) : Z :=
  fold_right (fun b acc => Z.of_N (Byte.to_N b) + 256 * acc) 0 bs.

(** An [int32_t] from its four bytes (two's complement). *)
Definition int32_of_bytes (bs : list byte) : Z :=
  let u := le_value bs in
  if u <? 2 ^ 31 then u else u - 2 ^ 32.

(** A [double] from its 64 bits: sign, 11 bits of exponent, 52 bits of
    fraction. *)
Definition SF_of_bits (u : Z) : spec_float :=
  let s := 2 ^ 63 <=? u in
  let e := (u / 2 ^ 52) mod 2 ^ 11 in
  let m := u mod 2 ^ 52 in
  if e =? 0 then
    match m with
    | Zpos p => S754_finite s p (-1074)
    | _ => S754_zero s
    end
  else if e =? 2047 then
    if m =? 0 then S754_infinity s else S754_nan
  else
    match m + 2 ^ 52 with
    | Zpos p => S754_finite s p (e - 1075)
    | _ => S754_nan
    end.

Definition double_of_bytes (bs : list byte) : float :=
  SF2Prim (SF_of_bits (le_value bs)).

(** [read(fd, buf, n)] on a regular file at offset [pos]: the bytes the
    file has there, fewer than [n] at its end.  The return values are
    summed in [ret], which is never looked at. *)
Definition read (f : list byte) (pos : Z) (n : nat) : list byte :=
  firstn n (skipn (Z.to_nat pos) f).

(** What an object of [n] bytes holds after a read into it, when it was
    all zero before ([memset(jpl, 0, ...)]; every field is read into
    once). *)
Definition filled (n : nat) (got : list byte) : list byte :=
  got ++ repeat x00 (n - List.length got).

(** [read(fd, &x, sizeof(double))] and [read(fd, &n, sizeof(int32_t))]:
    the value left in the object and the new file offset. *)
Definition read_double (f : list byte) (pos : Z) : float * Z :=
  let got := read f pos 8 in
  (double_of_bytes (filled 8 got), pos + Z.of_nat (List.length got)).

Definition read_int32 (f : list byte) (pos : Z) : Z * Z :=
  let got := read f pos 4 in
  (int32_of_bytes (filled 4 got), pos + Z.of_nat (List.length got)).

(** One pass of the loops over [p]: [off[p]], [ncf[p]], [niv[p]]. *)
Definition read_triple (f : list byte) (pos : Z) : (Z * Z * Z) * Z :=
  let '(off, pos) := read_int32 f pos in
  let '(ncf, pos) := read_int32 f pos in
  let '(niv, pos) := read_int32 f pos in
  ((off, ncf, niv), pos).

Fixpoint read_triples (f : list byte) (n : nat) (pos : Z) : list (Z * Z * Z) * Z :=
  match n with
  | O => ([], pos)
  | S n' =>
      let '(t, pos) := read_triple f pos in
      let '(ts, pos) := read_triples f n' pos in
      (t :: ts, pos)
  end.

(** The array index of a body. *)
Definition jpl_index_pos (B : jpl_index) : nat :=
  match B with
  | JPL_MER => 0 | JPL_VEN => 1 | JPL_EMB => 2 | JPL_MAR => 3 | JPL_JUP => 4
  | JPL_SAT => 5 | JPL_URA => 6 | JPL_NEP => 7 | JPL_PLU => 8 | JPL_LUN => 9
  | JPL_SUN => 10 | JPL_NUT => 11 | JPL_LIB => 12 | JPL_MAN => 13 | JPL_TDB => 14
  end%nat.

(** [p = 0 .. _NUM_JPL - 1]. *)
Definition jpl_indices : list jpl_index :=
  [JPL_MER; JPL_VEN; JPL_EMB; JPL_MAR; JPL_JUP; JPL_SAT; JPL_URA; JPL_NEP;
   JPL_PLU; JPL_LUN; JPL_SUN; JPL_NUT; JPL_LIB; JPL_MAN; JPL_TDB].

(** [a * n] with [a] a [size_t] and [n] an [int32_t] converted to it. *)
Definition size_mul (a n : Z) : Z := (a * (n mod 2 ^ 64)) mod 2 ^ 64.

(** [jpl->ncm]: 3 for every body, but 2 for the nutations and 1 for
    TT-TDB. *)
Definition init_ncm (B : jpl_index) : Z :=
  match B with
  | JPL_NUT => 2
  | JPL_TDB => 1
  | _ => 3
  end.

(** [jpl->rec = sizeof(double) * 2] and the loop that adds
    [sizeof(double) * ncf[p] * niv[p] * ncm[p]], in [size_t]. *)
Definition init_rec (ncf niv : jpl_index -> Z) : Z :=
  fold_left
    (fun rec B => (rec + size_mul (size_mul (size_mul 8 (ncf B)) (niv B)) (init_ncm B)) mod 2 ^ 64)
    jpl_indices (8 * 2).

(** The double the mapping holds at a byte offset; past the end of the
    file, zero bytes. *)
Definition mapped (f : list byte) : Z -> float :=
  fun off => double_of_bytes (filled 8 (read f off 8)).

(** What the system calls of [jpl_init] answer: [open] gives the bytes of
    "linux_p1550p2650.430" or fails, [fstat] and the first [lseek]
    succeed or fail, and [mmap] maps a file that is not empty when
    [host_mmap] holds and fails otherwise: on an empty file it always
    fails (a length of 0 is refused).  [malloc] is taken to succeed. *)
Record host : Type := mkhost {
  host_open : option (list byte);
  host_fstat : bool;
  host_lseek : bool;
  host_mmap : bool
}.

(** What [jpl_init] returns: NULL or the handle.  A failing [mmap]
    returns [MAP_FAILED], which is not NULL, the one value the source
    compares the result with: the handle is then returned all the same,
    with [jpl->map = MAP_FAILED].  That pointer cannot be read and is
    not NULL, so [jpl_map] cannot hold it: [init_map_failed jpl] gives
    the other fields of the handle in [jpl], whose [jpl_map] is left
    None and is not the pointer of the program. *)
Inductive init_result : Type :=
| init_null
| init_handle (jpl : _jpl_s float)
| init_map_failed (jpl : _jpl_s float).

(** [off[p] -= 1] for every [p]: None when one of them overflows. *)
Fixpoint adjust (ts : list (Z * Z * Z)) : option (list (Z * Z * Z)) :=
  match ts with
  | [] => Some []
  | (off, ncf, niv) :: rest =>
      match int_result (off - 1), adjust rest with
      | Some off', Some rest' => Some ((off', ncf, niv) :: rest')
      | _, _ => None
      end
  end.

Definition triple_of (ts : list (Z * Z * Z)) (B : jpl_index) : Z * Z * Z :=
  nth (jpl_index_pos B) ts (0, 0, 0).

(** [jpl_init()]: what is returned, and None when the behaviour is
    undefined (an [int] overflows). *)
Definition jpl_init (o : host) : option init_result :=
  match host_open o with
  | None => Some init_null
  | Some f =>
      if negb (host_fstat o) then Some init_null
      else if negb (host_lseek o) then Some init_null
      else
        (* read header *)
        let pos := 0x0A5C in
        let '(beg, pos) := read_double f pos in
        let '(end_, pos) := read_double f pos in
        let '(inc, pos) := read_double f pos in
        let '(num, pos) := read_int32 f pos in
        let '(cau, pos) := read_double f pos in
        let '(cem, pos) := read_double f pos in
        let '(ts, pos) := read_triples f 12 pos in
        let '(ver, pos) := read_int32 f pos in
        let '(t12, pos) := read_triple f pos in
        (* skip the remaining constants *)
        match int_result (num - 400) with
        | None => None
        | Some d =>
            match int_result (6 * d) with
            | None => None
            | Some off =>
                if pos + off <? 0 then Some init_null
                else
                  (* finishing reading *)
                  let '(ts', _) := read_triples f 2 (pos + off) in
                  (* adjust for correct indexing (ie: zero based) *)
                  match adjust (ts ++ [t12] ++ ts') with
                  | None => None
                  | Some ts =>
                      let off_ := fun B => fst (fst (triple_of ts B)) in
                      let ncf := fun B => snd (fst (triple_of ts B)) in
                      let niv := fun B => snd (triple_of ts B) in
                      (* save file size, and determine 'kernel size' *)
                      let len := Z.of_nat (List.length f) in
                      let rec := init_rec ncf niv in
                      (* memory map the file *)
                      if host_mmap o && (0 <? len) then
                        Some (init_handle (mkjpl beg end_ inc cau cem num ver off_ ncf niv
                                                 init_ncm len rec (Some (mapped f))))
                      else
                        Some (init_map_failed (mkjpl beg end_ inc cau cem num ver off_ ncf niv
                                                     init_ncm len rec None))
                  end
            end
        end
  end.

(** The objects of the file at a byte offset. *)
Definition double_at (f : list byte) (pos : Z) : float := double_of_bytes (read f pos 8).
Definition int32_at (f : list byte) (pos : Z) : Z := int32_of_bytes (read f pos 4).

(** Where the triple [off, ncf, niv] of a body lies in the file: twelve
    bytes each from byte 44 of the header, the version number between
    the twelfth and the thirteenth, and the last two after a gap of
    [6 * (num - 400)] bytes. *)
Definition triple_offset (num : Z) (B : jpl_index) : Z :=
  match B with
  | JPL_LIB => 0x0A5C + 192
  | JPL_MAN => 0x0A5C + 204 + 6 * (num - 400)
  | JPL_TDB => 0x0A5C + 204 + 6 * (num - 400) + 12
  | _ => 0x0A5C + 44 + 12 * Z.of_nat (jpl_index_pos B)
  end.

(** The sum over the fifteen bodies. *)
Definition sum_bodies (g : jpl_index -> Z) : Z :=
  fold_right Z.add 0 (map g jpl_indices).

(** ** Processes and files for concrete runs of the edge cases *)

Module Edge.

(** A process that has not called [ephem] yet and finds neither file. *)
Definition no_files : env float :=
  mkenv None None false None None false None
        (mkmpos (mkvec 0 0 0) (mkvec 0 0 0) 0)%float
        (mkout 0 0 0 0 0 0 0)%float
        [] [] [].

(** A system that grants every call, with an empty file and with a file
    of three bytes. *)
Definition empty_file_host : host := mkhost (Some []) true true true.

Definition short_file : list byte := [x4a; x50; x4c].

Definition short_host : host := mkhost (Some short_file) true true true.

(** A file of 2880 zero bytes but for [num = 400] at byte 24 of the
    header. *)
Definition header_file : list byte :=
  repeat x00 2676 ++ [x90; x01; x00; x00] ++ repeat x00 200.

Definition header_host : host := mkhost (Some header_file) true true true.

(** A file that ends with its header, filled in with the values of
    DE430: the span 2287184.5 .. 2688976.5 in steps of 32 days, [num =
    572], the AU in km and the Earth/Moon mass ratio, then the triples
    [off, ncf, niv] of the twelve first bodies, from Mercury (3, 14, 4)
    to the nutations (819, 10, 4), the version 430 and the triple of the
    librations (899, 10, 4); after the gap of [6 * (572 - 400)] bytes,
    two triples without coefficients. *)
Definition de430_header : list byte :=
  repeat x00 0x0A5C ++
  [x00; x00; x00; x40; x28; x73; x41; x41; x00; x00; x00; x40;
   xe8; x83; x44; x41; x00; x00; x00; x00; x00; x00; x40; x40;
   x3c; x02; x00; x00; x66; x66; x66; x5d; x5d; xd5; xa1; x41;
   x9d; xf5; x11; x86; x3c; x53; x54; x40; x03; x00; x00; x00;
   x0e; x00; x00; x00; x04; x00; x00; x00; xab; x00; x00; x00;
   x0a; x00; x00; x00; x02; x00; x00; x00; xe7; x00; x00; x00;
   x0d; x00; x00; x00; x02; x00; x00; x00; x35; x01; x00; x00;
   x0b; x00; x00; x00; x01; x00; x00; x00; x56; x01; x00; x00;
   x08; x00; x00; x00; x01; x00; x00; x00; x6e; x01; x00; x00;
   x07; x00; x00; x00; x01; x00; x00; x00; x83; x01; x00; x00;
   x06; x00; x00; x00; x01; x00; x00; x00; x95; x01; x00; x00;
   x06; x00; x00; x00; x01; x00; x00; x00; xa7; x01; x00; x00;
   x06; x00; x00; x00; x01; x00; x00; x00; xb9; x01; x00; x00;
   x0d; x00; x00; x00; x08; x00; x00; x00; xf1; x02; x00; x00;
   x0b; x00; x00; x00; x02; x00; x00; x00; x33; x03; x00; x00;
   x0a; x00; x00; x00; x04; x00; x00; x00; xae; x01; x00; x00;
   x83; x03; x00; x00; x0a; x00; x00; x00; x04; x00; x00; x00] ++
  repeat x00 (6 * (572 - 400)) ++
  [xfb; x03; x00; x00; x00; x00; x00; x00; x00; x00; x00; x00;
   xfb; x03; x00; x00; x00; x00; x00; x00; x00; x00; x00; x00].

Definition de430_host : host := mkhost (Some de430_header) true true true.

End Edge.

(** * Properties *)

(** ** The constants, read as doubles *)

(** The two catalogs are the doubles a C compiler reads from the
    literals of the source. *)
Example ephem_M_double :
  @ephem_M float _ =
  [ 0.295912208285591100E-03; 0.491248045036476000E-10; 0.724345233264412000E-09;
    0.888769244512563400E-09; 0.109318945074237400E-10; 0.954954869555077000E-10;
    0.282534584083387000E-06; 0.845970607324503000E-07; 0.129202482578296000E-07;
    0.152435734788511000E-07; 0.217844105197418000E-11 ]%float.
Proof. vm_compute. reflexivity. Qed.

Example ast_M_double :
  @ast_M float _ =
  [ 1.400476556172344e-13; 3.854750187808810e-14; 3.104448198938713e-14;
    1.235800787294125e-14; 6.343280473648602e-15; 5.256168678493662e-15;
    5.198126979457498e-15; 4.678307418350905e-15; 3.617538317147937e-15;
    3.411586826193812e-15; 3.180659282652541e-15; 2.577114127311047e-15;
    2.531091726015068e-15; 2.476788101255867e-15; 2.295559390637462e-15;
    2.199295173574073e-15 ]%float.
Proof. vm_compute. reflexivity. Qed.

Example DBL_EPSILON_double : @DBL_EPSILON float _ = 0x1p-52%float.
Proof. vm_compute. reflexivity. Qed.

Example literals_double :
  (dec 5 (-1), dec 15 (-1), #86400, #3) = (0.5, 1.5, 86400, 3)%float.
Proof. vm_compute. reflexivity. Qed.

(** [fmod] and the conversions on a few doubles. *)
Example fmod_double :
  (fmod 5.5 2, fmod (-5.5) 2, fmod 0.7 0.1, fmod 2451545.3 32, fmod (-6) 3, fmod 3 0)%float =
  (1.5, -1.5, 0.09999999999999992, 25.299999999813735, -0, nan)%float.
Proof. vm_compute. reflexivity. Qed.

Example conversions_double :
  (to_int 2.5%float, to_int (-2.5)%float, to_int 2147483648%float, to_int nan,
   to_u32 (-0.5)%float, to_u32 (-1)%float, to_u32 4294967295.5%float) =
  (Some 2, Some (-2), None, None, Some 0, None, Some 4294967295).
Proof. vm_compute. reflexivity. Qed.

(** The square of an infinite speed of light. *)
Example infinite_C2 : (infinity * infinity)%float = infinity.
Proof. reflexivity. Qed.

(** ** jpl_work computes the Chebyshev sums *)

Section ChebyshevFacts.
Context {F : Type} `{Arith F}.
Local Open Scope num_scope.

Lemma idx_app_old (l l' : list F) (i : nat) :
  (i < List.length l)%nat -> idx (l ++ l') i = idx l i.
Proof. intros Hi. unfold idx. now rewrite app_nth1. Qed.

Lemma idx_app_new (l : list F) (a : F) : idx (l ++ [a]) (List.length l) = a.
Proof. unfold idx. now rewrite nth_middle. Qed.

Lemma chebT_step (x : F) (r : nat) :
  chebT x (S (S r)) = #2 * x * chebT x (S r) - chebT x r.
Proof. reflexivity. Qed.

Lemma chebS_step (x : F) (r : nat) :
  chebS x (S (S r)) = #2 * x * chebS x (S r) + #2 * chebT x (S r) - chebS x r.
Proof. reflexivity. Qed.

(** The loop keeps the arrays equal to the two sequences and appends one
    entry per iteration. *)
Lemma cheb_loop_spec (x : F) (k : nat) :
  forall Ts Ss : list F,
    (2 <= List.length Ts)%nat ->
    List.length Ss = List.length Ts ->
    (forall p, (p < List.length Ts)%nat -> idx Ts p = chebT x p /\ idx Ss p = chebS x p) ->
    forall p, (p < List.length Ts + k)%nat ->
      idx (fst (cheb_loop x k Ts Ss)) p = chebT x p /\
      idx (snd (cheb_loop x k Ts Ss)) p = chebS x p.
Proof.
  induction k as [|k IH]; intros Ts Ss Hlen HS Hinv p Hp.
  - simpl. apply Hinv. lia.
  - cbn [cheb_loop]. apply IH.
    + rewrite length_app. simpl. lia.
    + rewrite !length_app. simpl. lia.
    + intros p' Hp'. rewrite length_app in Hp'. simpl in Hp'.
      destruct (Nat.eq_dec p' (List.length Ts)) as [->|Hne].
      * assert (Hprev : idx Ts (List.length Ts - 1) = chebT x (List.length Ts - 1) /\
                        idx Ss (List.length Ts - 1) = chebS x (List.length Ts - 1))
          by (apply Hinv; lia).
        assert (Hprev2 : idx Ts (List.length Ts - 2) = chebT x (List.length Ts - 2) /\
                         idx Ss (List.length Ts - 2) = chebS x (List.length Ts - 2))
          by (apply Hinv; lia).
        destruct Hprev as [HT1 HS1]. destruct Hprev2 as [HT0 HS0].
        split.
        -- rewrite idx_app_new, HT1, HT0.
           destruct (List.length Ts) as [|[|r]]; try lia.
           replace (S (S r) - 1)%nat with (S r) by lia.
           replace (S (S r) - 2)%nat with r by lia.
           reflexivity.
        -- match goal with
           | |- idx (Ss ++ [?a]) _ = _ => pose proof (idx_app_new Ss a) as E
           end.
           rewrite HS in E. rewrite E, HS1, HS0, HT1.
           destruct (List.length Ts) as [|[|r]]; try lia.
           replace (S (S r) - 1)%nat with (S r) by lia.
           replace (S (S r) - 2)%nat with r by lia.
           reflexivity.
      * rewrite !idx_app_old by lia. apply Hinv. lia.
    + rewrite length_app. simpl. lia.
Qed.

Lemma in_zrange (n p : Z) : In p (zrange n) <-> (0 <= p < n)%Z.
Proof.
  unfold zrange. rewrite in_map_iff. split.
  - intros [k [<- Hk]]. apply in_seq in Hk. lia.
  - intros Hp. exists (Z.to_nat p). split; [lia|]. apply in_seq. lia.
Qed.

Lemma length_zrange (n : Z) : List.length (zrange n) = Z.to_nat n.
Proof. unfold zrange. now rewrite length_map, length_seq. Qed.

(** A loop that accumulates two sums at once computes each of them. *)
Lemma fold_pair (f g : Z -> F) (l : list Z) :
  forall a b : F,
    fold_left (fun uv p => (fst uv + f p, snd uv + g p)) l (a, b) =
    (fold_left (fun acc p => acc + f p) l a, fold_left (fun acc p => acc + g p) l b).
Proof.
  induction l as [|p l IH]; intros a b; simpl; [reflexivity|]. apply IH.
Qed.

Lemma fold_ext_in (f g : Z -> F) (l : list Z) :
  (forall p, In p l -> f p = g p) ->
  forall a : F, fold_left (fun acc p => acc + f p) l a = fold_left (fun acc p => acc + g p) l a.
Proof.
  induction l as [|p l IH]; intros Hfg a; simpl; [reflexivity|].
  rewrite (Hfg p) by now left. apply IH. intros q Hq. apply Hfg. now right.
Qed.

Lemma split_map_pair {A : Type} (f g : A -> F) (l : list A) :
  List.split (map (fun m => (f m, g m)) l) = (map f l, map g l).
Proof.
  induction l as [|a l IH]; simpl; [reflexivity|]. now rewrite IH.
Qed.

Lemma int_result_fits (z : Z) : (INT_MIN <= z <= INT_MAX)%Z -> int_result z = Some z.
Proof.
  intros Hz. unfold int_result.
  destruct (INT_MIN <=? z)%Z eqn:E1; [|apply Z.leb_gt in E1; lia].
  destruct (z <=? INT_MAX)%Z eqn:E2; [reflexivity|apply Z.leb_gt in E2; lia].
Qed.

Lemma all_defined_map {A B : Type} (f : A -> option B) (g : A -> B) (l : list A) :
  (forall a, In a l -> f a = Some (g a)) ->
  all_defined (map f l) = Some (map g l).
Proof.
  induction l as [|a l IH]; intros Hfg; [reflexivity|].
  cbn [map all_defined fold_right]. fold (all_defined (map f l)).
  rewrite IH by (intros a' Ha'; apply Hfg; now right).
  now rewrite (Hfg a) by now left.
Qed.

(** While [n + p] stays in [int] the inner loop computes the two sums. *)
Lemma jpl_component_sums (P : Z -> F) (Ts Ss : list F) (c : F) (n : Z) (l : list Z) :
  (forall p, In p l -> (INT_MIN <= n + p <= INT_MAX)%Z) ->
  forall a b : F,
    fold_left
      (fun acc p =>
         match acc, int_result (n + p) with
         | Some uv, Some k =>
             Some (fst uv + idx Ts (Z.to_nat p) * P k,
                   snd uv + idx Ss (Z.to_nat p) * P k * c)
         | _, _ => None
         end) l (Some (a, b)) =
    Some (fold_left (fun acc p => acc + idx Ts (Z.to_nat p) * P (n + p)%Z) l a,
          fold_left (fun acc p => acc + idx Ss (Z.to_nat p) * P (n + p)%Z * c) l b).
Proof.
  induction l as [|p l IH]; intros Hfit a b; [reflexivity|].
  cbn [fold_left]. rewrite (int_result_fits (n + p)) by (apply Hfit; now left).
  cbn [fst snd]. apply IH. intros q Hq. apply Hfit. now right.
Qed.

(** The index arithmetic of a component that fits. *)
Lemma jpl_first_fits (ncm ncf niv b m : Z) :
  (1 <= ncf)%Z -> work_fits ncm ncf niv b -> (0 <= m < ncm)%Z ->
  jpl_first ncm ncf b m = Some (ncf * (m + b * ncm))%Z /\
  forall p, (0 <= p < ncf)%Z -> (INT_MIN <= ncf * (m + b * ncm) + p <= INT_MAX)%Z.
Proof.
  intros Hncf (_ & Hb & Hfit) Hm. unfold INT_MIN, INT_MAX in *.
  assert (H0 : (0 <= b * ncm)%Z) by nia.
  assert (H1 : (ncm * (b + 1) <= 2 ^ 31 - 1)%Z) by nia.
  assert (H2 : (ncf * (m + b * ncm + 1) <= ncf * (ncm * (b + 1)))%Z)
    by (apply Z.mul_le_mono_nonneg_l; nia).
  split.
  - unfold jpl_first.
    rewrite (int_result_fits (b * ncm)) by (unfold INT_MIN, INT_MAX; nia).
    rewrite (int_result_fits (m + b * ncm)) by (unfold INT_MIN, INT_MAX; nia).
    rewrite (int_result_fits (ncf * (m + b * ncm))) by (unfold INT_MIN, INT_MAX; nia).
    reflexivity.
  - intros p Hp. nia.
Qed.

(** For a coefficient count the arrays hold and indices that stay in
    [int], the call returns, and each component is the sum of the
    specification. *)
Lemma jpl_work_sums (P : Z -> F) (ncm ncf niv : Z) (t0 t1 : F) (b : Z) :
  (2 <= ncf <= 24)%Z ->
  to_int (t0 * #niv) = Some b ->
  work_fits ncm ncf niv b ->
  jpl_work P ncm ncf niv t0 t1 =
  Some (map (cheb_pos P ncm ncf (cheb_x niv t0) b) (zrange ncm),
        map (cheb_vel P ncm ncf (cheb_x niv t0) (cheb_c niv t1) b) (zrange ncm)).
Proof.
  intros Hncf Hb Hfit. unfold jpl_work.
  rewrite (int_result_fits (niv * 2)) by apply Hfit. rewrite Hb.
  destruct (24 <? ncf)%Z eqn:E; [apply Z.ltb_lt in E; lia|].
  fold (cheb_x niv t0). fold (cheb_c niv t1).
  set (x := cheb_x niv t0). set (c := cheb_c niv t1).
  pose proof (cheb_loop_spec x (Z.to_nat (ncf - 2)) [#1; x] [#0; #1]) as L.
  destruct (cheb_loop x (Z.to_nat (ncf - 2)) [#1; x] [#0; #1]) as [Ts Ss].
  simpl in L.
  assert (HTS : forall p, (0 <= p < ncf)%Z ->
            idx Ts (Z.to_nat p) = chebT x (Z.to_nat p) /\
            idx Ss (Z.to_nat p) = chebS x (Z.to_nat p)).
  { intros p Hp. apply L; try lia.
    intros [|[|q]] Hq; try lia; split; reflexivity. }
  rewrite (all_defined_map _ (fun m => (cheb_pos P ncm ncf x b m, cheb_vel P ncm ncf x c b m))).
  - cbn [option_map]. now rewrite split_map_pair.
  - intros m Hm. apply in_zrange in Hm.
    destruct (jpl_first_fits ncm ncf niv b m ltac:(lia) Hfit Hm) as [-> Hp].
    unfold jpl_component, cheb_pos, cheb_vel, sum_upto.
    rewrite jpl_component_sums by (intros p Hin; apply Hp; now apply in_zrange).
    f_equal. f_equal; apply fold_ext_in; intros p Hin; apply in_zrange in Hin;
      destruct (HTS p Hin) as [HT HS]; now rewrite ?HT, ?HS.
Qed.
End ChebyshevFacts.

(** In exact arithmetic the rescaling picks the sub-interval [b] that
    holds [t0] and maps it onto [[-1, 1)]. *)
Lemma exact_rescale (t0 : R) (niv : Z) :
  (0 <= t0 < 1)%R ->
  1 <= niv <= INT_MAX ->
  exists b : Z,
    to_int (fmul t0 (of_Z niv)) = Some b /\
    0 <= b < niv /\
    (IZR b <= t0 * IZR niv < IZR b + 1)%R /\
    cheb_x niv t0 = (2 * (t0 * IZR niv - IZR b) - 1)%R /\
    (-1 <= cheb_x niv t0 < 1)%R.
Proof.
  intros Ht0 Hniv.
  set (t := (t0 * IZR niv)%R).
  assert (Hn1 : (1 <= IZR niv)%R) by (apply IZR_le; lia).
  assert (Ht : (0 <= t < IZR niv)%R) by (unfold t; split; nra).
  destruct (base_Int_part t) as [Hlo Hhi].
  assert (Hb0 : 0 <= Int_part t).
  { assert (IZR (-1) < IZR (Int_part t))%R by (simpl; lra).
    apply lt_IZR in H. lia. }
  assert (Hb1 : Int_part t < niv) by (apply lt_IZR; lra).
  assert (Hnot : Exact.ltb t 0 = false).
  { unfold Exact.ltb. destruct (Rlt_dec t 0); [lra | reflexivity]. }
  exists (Int_part t). repeat split; try lia; try lra.
  - unfold to_int, trunc. cbn [fmul of_Z flt ffloor fceil Arith_R]. fold t.
    rewrite Hnot. unfold Exact.floor.
    assert (E : ((INT_MIN <=? Int_part t) && (Int_part t <=? INT_MAX))%bool = true).
    { unfold INT_MIN, INT_MAX in *. apply andb_true_iff. split; apply Z.leb_le; lia. }
    now rewrite E.
  - unfold cheb_x. cbn [fmul fsub of_Z fmod Arith_R]. fold t.
    unfold Exact.fmod, Exact.quot.
    replace (t / 1)%R with t by (unfold Rdiv; rewrite Rinv_1; ring).
    destruct (Rlt_dec t 0); [lra|]. ring.
  - unfold cheb_x. cbn [fmul fsub of_Z fmod Arith_R]. fold t.
    unfold Exact.fmod, Exact.quot.
    replace (t / 1)%R with t by (unfold Rdiv; rewrite Rinv_1; ring).
    destruct (Rlt_dec t 0); lra.
  - unfold cheb_x. cbn [fmul fsub of_Z fmod Arith_R]. fold t.
    unfold Exact.fmod, Exact.quot.
    replace (t / 1)%R with t by (unfold Rdiv; rewrite Rinv_1; ring).
    destruct (Rlt_dec t 0); lra.
Qed.

(** C3 (amended).  For a coefficient count [2 <= ncf <= 24], the count
    the arrays [T[24]], [S[24]] hold, and counts for which the [int]
    arithmetic of the call does not overflow ([niv * 2] and the indices
    up to [ncf * ncm * (b + 1)] fit an [int], [b >= 0]), [jpl_work]
    returns, for each component [m], the position [sum_p T[p] * P[n+p]]
    and the velocity [sum_p S[p] * P[n+p] * c], added in this order and
    grouping, with [T], [S] the two recurrences of the specification,
    [x = 2 fmod(t0 * niv, 1) - 1], [c = 2 niv / t1 / 86400] and [n] the
    first coefficient of component [m] in sub-interval
    [b = (int)(t0 * niv)].  In exact arithmetic, for [t0] in [[0, 1)],
    [b] is the sub-interval that holds [t0] and [x] lies in [[-1, 1)]. *)
Theorem jpl_work_chebyshev :
  (forall (F : Type) (A : Arith F) (P : Z -> F) (ncm ncf niv : Z) (t0 t1 : F) (b : Z),
      2 <= ncf <= 24 ->
      to_int (fmul t0 (of_Z niv)) = Some b ->
      INT_MIN <= niv * 2 <= INT_MAX ->
      0 <= b ->
      ncf * (ncm * (b + 1)) <= INT_MAX ->
      jpl_work P ncm ncf niv t0 t1 =
      Some (map (cheb_pos P ncm ncf (cheb_x niv t0) b) (zrange ncm),
            map (cheb_vel P ncm ncf (cheb_x niv t0) (cheb_c niv t1) b) (zrange ncm))) /\
  (forall (t0 : R) (niv : Z),
      (0 <= t0 < 1)%R ->
      1 <= niv <= INT_MAX ->
      exists b : Z,
        to_int (fmul t0 (of_Z niv)) = Some b /\
        0 <= b < niv /\
        (IZR b <= t0 * IZR niv < IZR b + 1)%R /\
        cheb_x niv t0 = (2 * (t0 * IZR niv - IZR b) - 1)%R /\
        (-1 <= cheb_x niv t0 < 1)%R).
Proof.
  split.
  - intros F A P ncm ncf niv t0 t1 b Hncf Hb Hniv Hb0 Hfit.
    apply jpl_work_sums; [exact Hncf | exact Hb | now repeat split].
  - intros t0 niv Ht0 Hniv. now apply exact_rescale.
Qed.

(** ** Earth and Moon from the Earth-Moon barycentre *)

(** Rounding to nearest is symmetric about zero, so a sign moves through
    a division, a product and a sum of doubles unchanged. *)
Lemma binary_round_aux_opp (s : bool) (m e : Z) (l : location) :
  binary_round_aux prec emax (negb s) m e l = SFopp (binary_round_aux prec emax s m e l).
Proof.
  unfold binary_round_aux.
  destruct (shr_fexp prec emax m e l) as [mrs' e'].
  destruct (shr_fexp prec emax _ e' loc_Exact) as [mrs'' e''].
  destruct (shr_m mrs''); simpl; try reflexivity.
  destruct (e'' <=? 971); reflexivity.
Qed.

Lemma SFdiv_opp_l (x y : spec_float) :
  SFdiv prec emax (SFopp x) y = SFopp (SFdiv prec emax x y).
Proof.
  destruct x as [sx|sx| |sx mx ex], y as [sy|sy| |sy my ey]; simpl; try reflexivity;
    try (destruct sx, sy; reflexivity).
  destruct (SFdiv_core_binary prec emax (Z.pos mx) ex (Z.pos my) ey) as [[mz ez] lz].
  rewrite <- binary_round_aux_opp. destruct sx, sy; reflexivity.
Qed.

Lemma SFmul_opp_r (x y : spec_float) :
  SFmul prec emax x (SFopp y) = SFopp (SFmul prec emax x y).
Proof.
  destruct x as [sx|sx| |sx mx ex], y as [sy|sy| |sy my ey]; simpl; try reflexivity;
    try (destruct sx, sy; reflexivity).
  rewrite <- binary_round_aux_opp. destruct sx, sy; reflexivity.
Qed.

Lemma SFadd_opp_r (x y : spec_float) :
  SFadd prec emax x (SFopp y) = SFsub prec emax x y.
Proof.
  destruct x as [sx|sx| |sx mx ex], y as [sy|sy| |sy my ey]; simpl; try reflexivity;
    try (destruct sx, sy; reflexivity).
Qed.

Lemma double_minus_scaled (a b w d : float) :
  (a + b * (- w / d) = a - b * (w / d))%float.
Proof.
  apply Prim2SF_inj.
  rewrite add_spec, sub_spec, !mul_spec, !div_spec, opp_spec.
  now rewrite SFdiv_opp_l, SFmul_opp_r, SFadd_opp_r.
Qed.

Lemma double_sub_adds_opp (a y : float) : (a - y = a + - y)%float.
Proof.
  apply Prim2SF_inj. rewrite add_spec, sub_spec, opp_spec. now rewrite SFadd_opp_r.
Qed.

Section EarthMoon.
Context {F : Type} `{Arith F}.
Local Open Scope num_scope.

(** [_ear] and [_lun] on the two entries they interpolate, in the
    grouping of the source. *)
Lemma ear_lun_of_entries (jpl : _jpl_s F) (z : Z -> F) (t : F)
      (emb_u emb_v lun_u lun_v : vec3 F) :
  jpl_work_at jpl z t JPL_EMB = Some (emb_u, emb_v) ->
  jpl_work_at jpl z t JPL_LUN = Some (lun_u, lun_v) ->
  _ear jpl z t = Some (vecpos_off emb_u lun_u (- #1 / (#1 + jpl_cem jpl)),
                       vecpos_off emb_v lun_v (- #1 / (#1 + jpl_cem jpl))) /\
  _lun jpl z t = Some (moon_of (jpl_cem jpl) emb_u lun_u,
                       moon_of (jpl_cem jpl) emb_v lun_v).
Proof.
  intros Hemb Hlun. unfold _ear, _lun. rewrite Hemb, Hlun. split; reflexivity.
Qed.
End EarthMoon.

(** C4.  Whatever the record [z] and the time [t] inside it, the body
    helpers for Earth and Moon, entries [PLAN_EAR] and [PLAN_LUN] of
    [_help], combine the Earth-Moon-barycentre entry and the geocentric
    lunar entry with the mass ratio [mu = cem]: Moon = EMB + Moon * (mu /
    (1 + mu)) and Earth = EMB + Moon * (-1 / (1 + mu)), in position and in
    velocity, for every arithmetic; on the doubles, and in exact
    arithmetic, the latter is Earth = EMB - Moon * (1 / (1 + mu)). *)
Theorem earth_moon_from_emb :
  (forall (F : Type) (A : Arith F) (jpl : _jpl_s F) (z : Z -> F) (t : F)
          (emb_u emb_v lun_u lun_v : vec3 F),
      jpl_work_at jpl z t JPL_EMB = Some (emb_u, emb_v) ->
      jpl_work_at jpl z t JPL_LUN = Some (lun_u, lun_v) ->
      _help PLAN_EAR = Some _ear /\
      _help PLAN_LUN = Some _lun /\
      _ear jpl z t = Some (vecpos_off emb_u lun_u (- #1 / (#1 + jpl_cem jpl))%num,
                           vecpos_off emb_v lun_v (- #1 / (#1 + jpl_cem jpl))%num) /\
      _lun jpl z t = Some (moon_of (jpl_cem jpl) emb_u lun_u,
                           moon_of (jpl_cem jpl) emb_v lun_v)) /\
  (forall (jpl : _jpl_s float) (z : Z -> float) (t : float)
          (emb_u emb_v lun_u lun_v : vec3 float),
      jpl_work_at jpl z t JPL_EMB = Some (emb_u, emb_v) ->
      jpl_work_at jpl z t JPL_LUN = Some (lun_u, lun_v) ->
      _ear jpl z t = Some (earth_of (jpl_cem jpl) emb_u lun_u,
                           earth_of (jpl_cem jpl) emb_v lun_v)) /\
  (forall (jpl : _jpl_s R) (z : Z -> R) (t : R)
          (emb_u emb_v lun_u lun_v : vec3 R),
      jpl_work_at jpl z t JPL_EMB = Some (emb_u, emb_v) ->
      jpl_work_at jpl z t JPL_LUN = Some (lun_u, lun_v) ->
      _ear jpl z t = Some (earth_of (jpl_cem jpl) emb_u lun_u,
                           earth_of (jpl_cem jpl) emb_v lun_v)).
Proof.
  split; [|split].
  - intros F A jpl z t emb_u emb_v lun_u lun_v Hemb Hlun.
    destruct (ear_lun_of_entries jpl z t _ _ _ _ Hemb Hlun) as [He Hl].
    repeat split; assumption || reflexivity.
  - intros jpl z t emb_u emb_v lun_u lun_v Hemb Hlun.
    destruct (ear_lun_of_entries jpl z t _ _ _ _ Hemb Hlun) as [He _].
    rewrite He. unfold vecpos_off, earth_of.
    cbn [fadd fsub fmul fdiv fopp of_Z Arith_float].
    now rewrite !double_minus_scaled.
  - intros jpl z t emb_u emb_v lun_u lun_v Hemb Hlun.
    destruct (ear_lun_of_entries jpl z t _ _ _ _ Hemb Hlun) as [He _].
    rewrite He. unfold vecpos_off, earth_of.
    cbn [fadd fsub fmul fdiv fopp of_Z Arith_R].
    do 2 f_equal; f_equal; unfold Rdiv; ring.
Qed.

(** ** The Earth-Moon round trip *)

(** C5 (amended).  In exact arithmetic, for a mass ratio with [1 + mu]
    not zero: whenever the two entries are defined, [_ear], [_lun] and
    [_emb] are, and Earth weighted by [mu / (1 + mu)] plus Moon weighted
    by [1 / (1 + mu)] is the Earth-Moon-barycentre state, in position and
    in velocity. *)
Theorem earth_moon_round_trip_exact
        (jpl : _jpl_s R) (z : Z -> R) (t : R) (emb_u emb_v lun_u lun_v : vec3 R) :
  (1 + jpl_cem jpl <> 0)%R ->
  jpl_work_at jpl z t JPL_EMB = Some (emb_u, emb_v) ->
  jpl_work_at jpl z t JPL_LUN = Some (lun_u, lun_v) ->
  exists e_u e_v m_u m_v : vec3 R,
    _ear jpl z t = Some (e_u, e_v) /\
    _lun jpl z t = Some (m_u, m_v) /\
    _emb jpl z t = Some (emb_u, emb_v) /\
    recombine (jpl_cem jpl / (1 + jpl_cem jpl))%R (1 / (1 + jpl_cem jpl))%R e_u m_u = emb_u /\
    recombine (jpl_cem jpl / (1 + jpl_cem jpl))%R (1 / (1 + jpl_cem jpl))%R e_v m_v = emb_v.
Proof.
  intros Hmu Hemb Hlun.
  destruct (ear_lun_of_entries jpl z t _ _ _ _ Hemb Hlun) as [He Hl].
  eexists _, _, _, _. split; [exact He|]. split; [exact Hl|]. split; [exact Hemb|].
  destruct emb_u as [a0 a1 a2], emb_v as [b0 b1 b2].
  unfold recombine, vecpos_off, moon_of.
  cbn [fadd fsub fmul fdiv fopp of_Z Arith_R c0 c1 c2].
  split; f_equal; field; exact Hmu.
Qed.

(** A helper's call of [jpl_work] returns a state when the body has
    three components, a coefficient count the arrays hold and indices
    that stay in [int]. *)
Lemma jpl_work_at_sums {F : Type} `{Arith F} (jpl : _jpl_s F) (z : Z -> F) (t : F)
      (B : jpl_index) (b : Z) :
  jpl_ncm jpl B = 3 ->
  2 <= jpl_ncf jpl B <= 24 ->
  to_int (fmul t (of_Z (jpl_niv jpl B))) = Some b ->
  work_fits 3 (jpl_ncf jpl B) (jpl_niv jpl B) b ->
  let P := fun k => z (jpl_off jpl B + k) in
  let x := cheb_x (jpl_niv jpl B) t in
  let c := cheb_c (jpl_niv jpl B) (jpl_inc jpl) in
  jpl_work_at jpl z t B =
  Some (mkvec (cheb_pos P 3 (jpl_ncf jpl B) x b 0)
              (cheb_pos P 3 (jpl_ncf jpl B) x b 1)
              (cheb_pos P 3 (jpl_ncf jpl B) x b 2),
        mkvec (cheb_vel P 3 (jpl_ncf jpl B) x c b 0)
              (cheb_vel P 3 (jpl_ncf jpl B) x c b 1)
              (cheb_vel P 3 (jpl_ncf jpl B) x c b 2)).
Proof.
  intros Hncm Hncf Hb Hfit P x c. unfold jpl_work_at. rewrite Hncm.
  rewrite (jpl_work_sums _ _ _ _ _ _ b Hncf Hb Hfit). reflexivity.
Qed.

Lemma earth_moon_round_trip_exact_witness :
  (1 + jpl_cem Demo.demo_jpl_exact <> 0)%R /\
  exists emb_u emb_v e_u e_v m_u m_v : vec3 R,
    _emb Demo.demo_jpl_exact Demo.demo_record_exact (1 / 2)%R = Some (emb_u, emb_v) /\
    _ear Demo.demo_jpl_exact Demo.demo_record_exact (1 / 2)%R = Some (e_u, e_v) /\
    _lun Demo.demo_jpl_exact Demo.demo_record_exact (1 / 2)%R = Some (m_u, m_v) /\
    recombine (4 / (1 + 4))%R (1 / (1 + 4))%R e_u m_u = emb_u /\
    recombine (4 / (1 + 4))%R (1 / (1 + 4))%R e_v m_v = emb_v.
Proof.
  assert (Hmu : (1 + jpl_cem Demo.demo_jpl_exact <> 0)%R) by (simpl; lra).
  split; [exact Hmu|].
  destruct (exact_rescale (1 / 2)%R 1) as [b [Hb [Hrange _]]];
    [lra | unfold INT_MAX; lia |].
  assert (b = 0) by lia. subst b.
  pose proof (jpl_work_at_sums Demo.demo_jpl_exact Demo.demo_record_exact (1 / 2)%R
                JPL_EMB 0 eq_refl ltac:(simpl; lia) Hb
                ltac:(unfold work_fits, INT_MIN, INT_MAX; simpl; lia)) as Hemb.
  pose proof (jpl_work_at_sums Demo.demo_jpl_exact Demo.demo_record_exact (1 / 2)%R
                JPL_LUN 0 eq_refl ltac:(simpl; lia) Hb
                ltac:(unfold work_fits, INT_MIN, INT_MAX; simpl; lia)) as Hlun.
  cbv zeta in Hemb, Hlun.
  destruct (earth_moon_round_trip_exact _ _ _ _ _ _ _ Hmu Hemb Hlun)
    as [e_u [e_v [m_u [m_v [He [Hl [Hb' [Hu Hv]]]]]]]].
  eexists _, _, e_u, e_v, m_u, m_v.
  split; [exact Hb'|]. split; [exact He|]. split; [exact Hl|]. split; [exact Hu | exact Hv].
Defined.

(** On the doubles the round trip is not exact.  In the demo file on day
    16 the barycentre is at [(1, 1, 1)], Earth at 0.8 and Moon at 1.8 on
    each axis; Earth * (4/5) + Moon * (1/5) is 1.0000000000000002, and
    with the two weights exchanged the sum is 1.6.  The two doubles are
    not the reals 0.8 and 1.8 either: recombined without any rounding,
    [4 Earth + Moon] is not [5] (here times [2^60]), nor is [Earth + 4
    Moon]. *)
Lemma earth_moon_round_trip_inexact :
  option_map mpos_u (Demo.demo_state PLAN_EMB) = Some (mkvec 1 1 1)%float /\
  option_map mpos_u (Demo.demo_state PLAN_EAR) = Some (mkvec 0.8 0.8 0.8)%float /\
  option_map mpos_u (Demo.demo_state PLAN_LUN) = Some (mkvec 1.8 1.8 1.8)%float /\
  recombine (4 / (1 + 4))%float (1 / (1 + 4))%float
            (mkvec 0.8 0.8 0.8)%float (mkvec 1.8 1.8 1.8)%float =
  (mkvec 1.0000000000000002 1.0000000000000002 1.0000000000000002)%float /\
  (1.0000000000000002 =? 1)%float = false /\
  recombine (1 / (1 + 4))%float (4 / (1 + 4))%float
            (mkvec 0.8 0.8 0.8)%float (mkvec 1.8 1.8 1.8)%float =
  (mkvec 1.6 1.6 1.6)%float /\
  (1.6 =? 1)%float = false /\
  Binary64.times_pow2 60 0.8%float = Some 922337203685477632 /\
  Binary64.times_pow2 60 1.8%float = Some 2075258708292324608 /\
  (4 * 922337203685477632 + 2075258708292324608 =? (1 + 4) * 2 ^ 60) = false /\
  (922337203685477632 + 4 * 2075258708292324608 =? (1 + 4) * 2 ^ 60) = false.
Proof. repeat split; vm_compute; reflexivity. Qed.

Lemma earth_moon_from_emb_witness :
  let c := (2 / 32 / 86400)%float in
  jpl_work_at Demo.demo_jpl Demo.demo_record 0.5%float JPL_EMB =
    Some (mkvec 1 1 1, mkvec c c c)%float /\
  jpl_work_at Demo.demo_jpl Demo.demo_record 0.5%float JPL_LUN =
    Some (mkvec 1 1 1, mkvec c c c)%float /\
  _ear Demo.demo_jpl Demo.demo_record 0.5%float =
    Some (earth_of 4%float (mkvec 1 1 1)%float (mkvec 1 1 1)%float,
          earth_of 4%float (mkvec c c c) (mkvec c c c)) /\
  _lun Demo.demo_jpl Demo.demo_record 0.5%float =
    Some (moon_of 4%float (mkvec 1 1 1)%float (mkvec 1 1 1)%float,
          moon_of 4%float (mkvec c c c) (mkvec c c c)).
Proof.
  intros c.
  assert (Hemb : jpl_work_at Demo.demo_jpl Demo.demo_record 0.5%float JPL_EMB =
                 Some (mkvec 1 1 1, mkvec c c c)%float) by (vm_compute; reflexivity).
  assert (Hlun : jpl_work_at Demo.demo_jpl Demo.demo_record 0.5%float JPL_LUN =
                 Some (mkvec 1 1 1, mkvec c c c)%float) by (vm_compute; reflexivity).
  split; [exact Hemb|]. split; [exact Hlun|]. split.
  - exact (proj1 (proj2 earth_moon_from_emb) _ _ _ _ _ _ _ Hemb Hlun).
  - exact (proj2 (proj2 (proj2 (proj1 earth_moon_from_emb _ _ _ _ _ _ _ _ _ Hemb Hlun)))).
Defined.

(** With 25 coefficients the loop writes [T[24]], past the array, and
    with [2^30] intervals the product [niv * 2] leaves [int]: the call
    has no defined result, whatever the block holds. *)
Lemma jpl_work_overflow :
  jpl_work (fun _ => 1%float) 3 25 1 0.5%float 32%float = None /\
  jpl_work (fun _ => 1%float) 3 2 (2 ^ 30) 0x1p-31%float 32%float = None.
Proof. split; vm_compute; reflexivity. Qed.

Lemma jpl_work_chebyshev_witness :
  (2 <= 4 <= 24 /\
   to_int (0.75 * 2)%float = Some 1 /\
   INT_MIN <= 2 * 2 <= INT_MAX /\
   0 <= 1 /\
   4 * (3 * (1 + 1)) <= INT_MAX /\
   jpl_work (fun k => Binary64.of_Z (k + 1)) 3 4 2 0.75%float 32%float =
   Some (map (cheb_pos (fun k => Binary64.of_Z (k + 1)) 3 4 (cheb_x 2 0.75%float) 1) (zrange 3),
         map (cheb_vel (fun k => Binary64.of_Z (k + 1)) 3 4 (cheb_x 2 0.75%float)
                       (cheb_c 2 32%float) 1) (zrange 3))) /\
  ((0 <= 1 / 2 < 1)%R /\
   1 <= 2 <= INT_MAX /\
   exists b : Z,
     to_int (fmul (1 / 2)%R (of_Z 2)) = Some b /\
     0 <= b < 2 /\
     (IZR b <= 1 / 2 * IZR 2 < IZR b + 1)%R /\
     cheb_x 2 (1 / 2)%R = (2 * (1 / 2 * IZR 2 - IZR b) - 1)%R /\
     (-1 <= cheb_x 2 (1 / 2)%R < 1)%R).
Proof.
  assert (H1 : 2 <= 4 <= 24) by lia.
  assert (H2 : to_int (0.75 * 2)%float = Some 1) by (vm_compute; reflexivity).
  assert (H3 : (0 <= 1 / 2 < 1)%R) by lra.
  assert (H4 : 1 <= 2 <= INT_MAX) by (unfold INT_MAX; lia).
  assert (H5 : INT_MIN <= 2 * 2 <= INT_MAX) by (unfold INT_MIN, INT_MAX; lia).
  assert (H6 : 0 <= 1) by lia.
  assert (H7 : 4 * (3 * (1 + 1)) <= INT_MAX) by (unfold INT_MAX; lia).
  split.
  - split; [exact H1|]. split; [exact H2|]. split; [exact H5|]. split; [exact H6|].
    split; [exact H7|].
    exact (proj1 jpl_work_chebyshev float _ (fun k => Binary64.of_Z (k + 1)) 3 4 2
                 0.75%float 32%float 1 H1 H2 H5 H6 H7).
  - split; [exact H3|]. split; [exact H4|].
    exact (proj2 jpl_work_chebyshev (1 / 2)%R 2 H3 H4).
Defined.

(** ** jpl_calc: the lookup by epoch *)

Section Lookup.
Context {F : Type} `{Arith F}.
Local Open Scope num_scope.

Lemma to_u32_floor (q : F) (k : Z) :
  (q <? #0) = false -> ffloor q = Some k -> (0 <= k <= UINT32_MAX)%Z ->
  to_u32 q = Some k.
Proof.
  intros Hq Hk Hr. unfold to_u32, trunc. rewrite Hq, Hk.
  destruct ((0 <=? k)%Z && (k <=? UINT32_MAX)%Z) eqn:E; [reflexivity|].
  apply andb_false_iff in E. destruct E as [E|E]; apply Z.leb_gt in E; lia.
Qed.

Lemma record_offset_exact (k rec : Z) :
  (0 <= k <= UINT32_MAX - 2)%Z -> (0 <= rec)%Z -> ((k + 2) * rec <= SIZE_MAX)%Z ->
  record_offset k rec = ((k + 2) * rec)%Z.
Proof.
  intros Hk Hrec Hsz. unfold record_offset, UINT32_MAX, SIZE_MAX in *.
  rewrite (Z.mod_small (k + 2)) by lia. apply Z.mod_small. nia.
Qed.

Lemma jpl_calc_outside (pl : _jpl_s F) (now : option (mpos_s F)) (jde : F) (n m : Z) :
  (jde <? jpl_beg pl) = true \/ (jpl_end pl <? jde) = true ->
  jpl_calc (Some pl) now jde n m = Some ((-1)%Z, now).
Proof.
  intros Hout. unfold jpl_calc. destruct now as [now0|]; [|reflexivity].
  destruct Hout as [E|E]; rewrite E; [reflexivity|].
  now rewrite orb_true_r.
Qed.

Lemma jpl_calc_inside (pl : _jpl_s F) (mem : Z -> F) (now0 : mpos_s F) (jde : F) (n m k : Z)
      (help_n help_m : _jpl_s F -> (Z -> F) -> F -> option (vec3 F * vec3 F))
      (pos_u pos_v ref_u ref_v : vec3 F) :
  covers pl jde k ->
  jpl_map pl = Some mem ->
  _help n = Some help_n ->
  _help m = Some help_m ->
  let t := fmod (jde - jpl_beg pl) (jpl_inc pl) / jpl_inc pl in
  let z := record_at mem ((k + 2) * jpl_rec pl)%Z in
  help_n pl z t = Some (pos_u, pos_v) ->
  help_m pl z t = Some (ref_u, ref_v) ->
  jpl_calc (Some pl) (Some now0) jde n m =
  Some (0%Z,
        Some (mkmpos (mkvec (c0 pos_u - c0 ref_u) (c1 pos_u - c1 ref_u) (c2 pos_u - c2 ref_u))
                     (mkvec (c0 pos_v - c0 ref_v) (c1 pos_v - c1 ref_v) (c2 pos_v - c2 ref_v))
                     jde)).
Proof.
  intros (Hbeg & Hend & Hq & Hk & Hk32 & Hrec & Hsz) Hmap Hn Hm t z Hpos Href.
  unfold jpl_calc. rewrite Hbeg, Hend, Hmap. cbn [orb].
  rewrite (to_u32_floor _ k Hq Hk) by lia.
  rewrite (record_offset_exact k (jpl_rec pl) Hk32 Hrec Hsz).
  rewrite Hn, Hm. fold t. fold z. now rewrite Hpos, Href.
Qed.
End Lookup.

(** *** The quotient on doubles

    With a finite epoch not below a finite [beg], and a positive [inc],
    the double [(jde - beg) / inc] is not negative: rounding keeps the
    sign of a difference and of a quotient. *)

Section DoubleLookup.
Import Binary64.







End DoubleLookup.


Lemma demo_covers : covers Demo.demo_jpl 16%float 0.
Proof. unfold covers. repeat split; by_run. Qed.



(** ** ephem and ast_ephem *)

Section QueryFacts.
Context {F : Type} `{Arith F}.
Local Open Scope num_scope.

Lemma ephem_init_started (e : env F) (pl : _jpl_s F) :
  ephem_handle e = Some pl ->
  ephem_init e = Ret tt (ephem_started e) /\
  ephem_pl (ephem_started e) = Some pl /\
  uninit_now (ephem_started e) = uninit_now e /\
  stderr (ephem_started e) = stderr e /\
  messages (ephem_started e) = messages e.
Proof.
  unfold ephem_handle, ephem_init, ephem_started.
  destruct (ephem_initialized e) eqn:Ei.
  - intros Hpl. repeat split; assumption || reflexivity.
  - destruct (de430 e) as [pl'|]; [|discriminate].
    destruct (sb431 e) as [spl|]; [|discriminate].
    intros Hpl. repeat split; assumption || reflexivity.
Qed.

Lemma ephem_code_range (i code : Z) : ephem_code i = Some code -> (0 <= i <= 10)%Z.
Proof.
  unfold ephem_code. destruct i as [|p|p]; try discriminate; [lia|].
  do 4 (try destruct p as [p|p|]); try discriminate; lia.
Qed.

Lemma ephem_outside (G : F) (i : Z) (t : F) (o : ephem_out F) (e : env F) (pl : _jpl_s F) :
  (i < 0 \/ 10 < i)%Z ->
  ephem_handle e = Some pl ->
  ephem G i t o e = Ret o (ephem_started e).
Proof.
  intros Hi Hpl. destruct (ephem_init_started e pl Hpl) as (Hinit & _).
  unfold ephem, bind. rewrite Hinit.
  destruct (ephem_code i) as [code|] eqn:E; [|reflexivity].
  apply ephem_code_range in E. lia.
Qed.

Lemma ast_ephem_outside (G : F) (i : Z) (t : F) (e : env F) :
  (i < 0 \/ 15 < i)%Z ->
  ast_ephem G i t e = Exit (put_stderr "asteroid out of range\n" e).
Proof.
  intros Hi. unfold ast_ephem.
  destruct ((i <? 0)%Z || (15 <? i)%Z) eqn:E; [reflexivity|].
  apply orb_false_iff in E. destruct E as [E1 E2].
  apply Z.ltb_ge in E1. apply Z.ltb_ge in E2. lia.
Qed.
End QueryFacts.

(** C10 (amended).  In a process whose ephemeris files are loaded, or
    can be loaded by the first call, [ephem] called with a body index
    outside [0 .. 10] returns with the seven output variables as they
    were and writes nothing to [stderr] and no message; called with an
    index outside [0 .. 15], [ast_ephem] writes "asteroid out of range"
    to [stderr] and ends the process. *)
Theorem ephem_index_outside :
  (forall (F : Type) (A : Arith F) (G : F) (i : Z) (t : F) (o : ephem_out F)
          (e : env F) (pl : _jpl_s F),
      i < 0 \/ 10 < i ->
      ephem_handle e = Some pl ->
      ephem G i t o e = Ret o (ephem_started e) /\
      stderr (ephem_started e) = stderr e /\
      messages (ephem_started e) = messages e) /\
  (forall (F : Type) (A : Arith F) (G : F) (i : Z) (t : F) (e : env F),
      i < 0 \/ 15 < i ->
      ast_ephem G i t e = Exit (put_stderr "asteroid out of range\n" e)).
Proof.
  split.
  - intros F A G i t o e pl Hi Hpl.
    destruct (ephem_init_started e pl Hpl) as (_ & _ & _ & Herr & Hmsg).
    split; [now apply (ephem_outside G i t o e pl) | split; assumption].
  - intros F A G i t e Hi. now apply ast_ephem_outside.
Qed.

Lemma ephem_index_outside_witness :
  ((11 < 0 \/ 10 < 11) /\
   ephem_handle Demo.demo_env = Some Demo.demo_jpl /\
   ephem 1%float 11 16%float (mkout 7 7 7 7 7 7 7)%float Demo.demo_env =
   Ret (mkout 7 7 7 7 7 7 7)%float (ephem_started Demo.demo_env) /\
   stderr (ephem_started Demo.demo_env) = stderr Demo.demo_env /\
   messages (ephem_started Demo.demo_env) = messages Demo.demo_env) /\
  ((16 < 0 \/ 15 < 16) /\
   ast_ephem 1%float 16 16%float Demo.demo_env =
   Exit (put_stderr "asteroid out of range\n" Demo.demo_env)).
Proof.
  assert (H1 : 11 < 0 \/ 10 < 11) by lia.
  assert (H2 : 16 < 0 \/ 15 < 16) by lia.
  split.
  - split; [exact H1|]. split; [reflexivity|].
    exact (proj1 ephem_index_outside float _ 1%float 11 16%float _ Demo.demo_env
                 Demo.demo_jpl H1 eq_refl).
  - split; [exact H2|].
    exact (proj2 ephem_index_outside float _ 1%float 16 16%float Demo.demo_env H2).
Defined.

(** On a first call that finds no DE430 file, [ephem] with the index 11
    (or -1) does not return: it writes to [stderr] and ends the
    process. *)
Lemma ephem_index_outside_first_call :
  ephem_handle Edge.no_files = None /\
  ephem 1%float 11 16%float (mkout 7 7 7 7 7 7 7)%float Edge.no_files =
  Exit (put_stderr "could not load DE430 file, fool!\n" Edge.no_files) /\
  ephem 1%float (-1) 16%float (mkout 7 7 7 7 7 7 7)%float Edge.no_files =
  Exit (put_stderr "could not load DE430 file, fool!\n" Edge.no_files) /\
  returned (ephem 1%float 11 16%float (mkout 7 7 7 7 7 7 7)%float Edge.no_files) = None /\
  stderr (final_state (ephem 1%float 11 16%float (mkout 7 7 7 7 7 7 7)%float Edge.no_files)) =
  ["could not load DE430 file, fool!\n"%string].
Proof. repeat split; vm_compute; reflexivity. Qed.

Section QueryUnits.
Context {F : Type} `{Arith F}.
Local Open Scope num_scope.

Lemma scaled_ephem_M (G : F) (i : Z) :
  (0 <= i <= 10)%Z ->
  idx (scaled ephem_M G) (Z.to_nat i) = idx ephem_M (Z.to_nat i) / G.
Proof.
  intros Hi. assert (Hn : (Z.to_nat i < 11)%nat) by lia.
  revert Hn. generalize (Z.to_nat i) as n. intros n Hn.
  do 11 (destruct n as [|n]; [reflexivity|]). lia.
Qed.

(** A query inside the table and inside the file: the mass is [M[i]]
    over [G], the state is the helper's minus the barycentre's (which
    [_bar] sets to zero), the position over [cau] and the velocity over
    [cau / 86400]. *)
Lemma ephem_inside (G : F) (i : Z) (t : F) (o : ephem_out F) (e : env F)
      (pl : _jpl_s F) (mem : Z -> F) (k code : Z)
      (help : _jpl_s F -> (Z -> F) -> F -> option (vec3 F * vec3 F))
      (pos_u pos_v : vec3 F) :
  ephem_code i = Some code ->
  _help code = Some help ->
  ephem_handle e = Some pl ->
  covers pl t k ->
  jpl_map pl = Some mem ->
  help pl (record_at mem ((k + 2) * jpl_rec pl)%Z)
       (fmod (t - jpl_beg pl) (jpl_inc pl) / jpl_inc pl) = Some (pos_u, pos_v) ->
  ephem G i t o e =
  Ret (mkout (idx ephem_M (Z.to_nat i) / G)
             ((c0 pos_u - #0) / jpl_cau pl)
             ((c1 pos_u - #0) / jpl_cau pl)
             ((c2 pos_u - #0) / jpl_cau pl)
             ((c0 pos_v - #0) / (jpl_cau pl / #86400))
             ((c1 pos_v - #0) / (jpl_cau pl / #86400))
             ((c2 pos_v - #0) / (jpl_cau pl / #86400)))
      (ephem_started e).
Proof.
  intros Hcode Hhelp Hpl Hcov Hmap Hpos.
  destruct (ephem_init_started e pl Hpl) as (Hinit & Hpl' & _).
  unfold ephem, bind. rewrite Hinit, Hcode, Hpl'. unfold ephem_block.
  rewrite (jpl_calc_inside pl mem (uninit_now (ephem_started e)) t code PLAN_BAR k
                           help _bar pos_u pos_v vecpos_nul vecpos_nul
                           Hcov Hmap Hhelp eq_refl Hpos eq_refl).
  rewrite (scaled_ephem_M G i (ephem_code_range i code Hcode)).
  reflexivity.
Qed.
End QueryUnits.

(** C9 (amended).  For every body index [0 .. 10] there is a body code
    and a helper of [_help] such that, for an epoch the file covers,
    [ephem] returns the catalog value [M[i]] divided by [G] as the mass,
    the helper's position minus the barycentre's divided by [cau], and
    the helper's velocity minus the barycentre's divided by [cau /
    86400]. *)
Theorem ephem_units :
  forall (F : Type) (A : Arith F) (i : Z),
    0 <= i <= 10 ->
    exists (code : Z) (help : _jpl_s F -> (Z -> F) -> F -> option (vec3 F * vec3 F)),
      ephem_code i = Some code /\
      _help code = Some help /\
      forall (G t : F) (o : ephem_out F) (e : env F) (pl : _jpl_s F) (mem : Z -> F) (k : Z)
             (pos_u pos_v : vec3 F),
        ephem_handle e = Some pl ->
        covers pl t k ->
        jpl_map pl = Some mem ->
        help pl (record_at mem ((k + 2) * jpl_rec pl))
             (fmod (t - jpl_beg pl) (jpl_inc pl) / jpl_inc pl)%num = Some (pos_u, pos_v) ->
        ephem G i t o e =
        Ret (mkout (idx ephem_M (Z.to_nat i) / G)
                   ((c0 pos_u - #0) / jpl_cau pl)
                   ((c1 pos_u - #0) / jpl_cau pl)
                   ((c2 pos_u - #0) / jpl_cau pl)
                   ((c0 pos_v - #0) / (jpl_cau pl / #86400))
                   ((c1 pos_v - #0) / (jpl_cau pl / #86400))
                   ((c2 pos_v - #0) / (jpl_cau pl / #86400)))%num
            (ephem_started e).
Proof.
  intros F A i Hi.
  assert (Hcases : i = 0 \/ i = 1 \/ i = 2 \/ i = 3 \/ i = 4 \/ i = 5 \/
                   i = 6 \/ i = 7 \/ i = 8 \/ i = 9 \/ i = 10) by lia.
  repeat (destruct Hcases as [-> | Hcases]); [| | | | | | | | | | subst i];
    (eexists _, _; split; [reflexivity|]; split; [reflexivity|];
     intros G t o e pl mem k pos_u pos_v Hpl Hcov Hmap Hpos;
     eapply ephem_inside;
     [reflexivity | reflexivity | exact Hpl | exact Hcov | exact Hmap | exact Hpos]).
Qed.

Lemma ephem_units_witness :
  let c := (2 / 32 / 86400)%float in
  0 <= 0 <= 10 /\
  ephem_handle Demo.demo_env = Some Demo.demo_jpl /\
  covers Demo.demo_jpl 16%float 0 /\
  ephem 1%float 0 16%float (uninit_out Demo.demo_env) Demo.demo_env =
  Ret (mkout (idx ephem_M 0 / 1)
             ((1 - 0) / 2) ((1 - 0) / 2) ((1 - 0) / 2)
             ((c - 0) / (2 / 86400)) ((c - 0) / (2 / 86400)) ((c - 0) / (2 / 86400)))%float
      (ephem_started Demo.demo_env).
Proof.
  intros c.
  assert (Hi : 0 <= 0 <= 10) by lia.
  split; [exact Hi|]. split; [reflexivity|]. split; [exact demo_covers|].
  destruct (ephem_units float _ 0 Hi) as (code & help & Hcode & Hhelp & Hrun).
  cbn in Hcode. injection Hcode as <-.
  cbn in Hhelp. injection Hhelp as <-.
  assert (Hsun : _sun Demo.demo_jpl (record_at (fun _ => 1%float) ((0 + 2) * 688))
                      (Binary64.fmod (16 - 0) 32 / 32)%float =
                 Some (mkvec 1 1 1, mkvec c c c)%float) by (vm_compute; reflexivity).
  exact (Hrun 1%float 16%float (uninit_out Demo.demo_env) Demo.demo_env Demo.demo_jpl
              (fun _ => 1%float) 0 _ _ eq_refl demo_covers eq_refl Hsun).
Defined.

(** The velocity is not divided by the seconds in a day.  In the demo
    file on day 16 the Sun moves at [c = 2/32/86400] length units per
    second on each axis, and an AU is 2 length units; [ephem] reports
    the velocity 0.03125 = c / (2 / 86400), which is neither [c / 86400]
    nor [c / 2 / 86400]. *)
Lemma ephem_velocity_not_over_day :
  let c := (2 / 32 / 86400)%float in
  Demo.demo_state PLAN_SOL = Some (mkmpos (mkvec 1 1 1) (mkvec c c c) 16)%float /\
  returned (ephem 1%float 0 16%float (uninit_out Demo.demo_env) Demo.demo_env) =
  Some (mkout (0.295912208285591100E-03 / 1) 0.5 0.5 0.5 0.03125 0.03125 0.03125)%float /\
  (c / (2 / 86400))%float = 0.03125%float /\
  (c / 86400 =? 0.03125)%float = false /\
  (c / 2 / 86400 =? 0.03125)%float = false.
Proof. intros c. repeat split; vm_compute; reflexivity. Qed.

(** ** The relativistic fixed point *)

Section GrFacts.
Context {F : Type} `{Arith F}.
Local Open Scope num_scope.

(** The loop stops after the first pass whose test holds, and after [n]
    passes when none does; [q] counts the passes whose test failed. *)
Lemma gr_loop_spec (p : reb_particle F) (mu C2 : F) (n : nat) :
  forall (q : Z) (s : gr_state),
  exists k : nat,
    (k <= n)%nat /\
    gr_loop p mu (gr_ri p) C2 n q s =
      ((q + Z.of_nat k)%Z, gr_iterate p mu C2 (Nat.min (S k) n) s) /\
    (forall j, (j < k)%nat ->
       gr_converged (gr_iterate p mu C2 j s) (gr_iterate p mu C2 (S j) s) = false) /\
    ((k < n)%nat ->
       gr_converged (gr_iterate p mu C2 k s) (gr_iterate p mu C2 (S k) s) = true).
Proof.
  induction n as [|n IH]; intros q s.
  - exists O. repeat split; try lia. simpl. now rewrite Z.add_0_r.
  - cbn [gr_loop].
    destruct (gr_converged s (gr_update p mu (gr_ri p) C2 s)) eqn:E.
    + exists O. repeat split; try lia.
      * simpl. now rewrite Z.add_0_r.
      * intros _. exact E.
    + destruct (IH (q + 1)%Z (gr_update p mu (gr_ri p) C2 s))
        as (k & Hk & Hloop & Hbefore & Hat).
      exists (S k). repeat split; try lia.
      * rewrite Hloop. f_equal. lia.
      * intros [|j] Hj; [exact E|]. apply Hbefore. lia.
      * intros Hlt. apply Hat. lia.
Qed.

Lemma gr_particle_run (mu C2 : F) (p : reb_particle F) (e : env F) :
  gr_particle mu C2 p e =
  Ret (gr_corrected p mu C2 (snd (gr_solve p mu C2)))
      (if (fst (gr_solve p mu C2) =? default_max_iterations)%Z
       then put_message gr_warning e else e).
Proof.
  unfold gr_particle. destruct (gr_solve p mu C2) as [q s]. cbn [fst snd].
  destruct (q =? default_max_iterations)%Z; reflexivity.
Qed.
End GrFacts.

Section GrWordsFacts.
Context {F : Type} `{Arith F}.
Local Open Scope num_scope.

(** The loop's pass is the update of the specification, and its test the
    specification's test. *)
Lemma gr_start_words (p : reb_particle F) (mu C2 : F) :
  gr_start p mu C2 = gr_state_of (words_start p mu C2).
Proof. reflexivity. Qed.

Lemma gr_update_words (p : reb_particle F) (mu C2 : F) (s : vec3 F * F) :
  gr_update p mu (gr_ri p) C2 (gr_state_of s) = gr_state_of (words_update p mu C2 s).
Proof. reflexivity. Qed.

Lemma gr_converged_words (old new : vec3 F * F) :
  gr_converged (gr_state_of old) (gr_state_of new) = words_stop (fst old) (fst new).
Proof. reflexivity. Qed.

Lemma gr_iterate_words (p : reb_particle F) (mu C2 : F) (k : nat) :
  gr_iterate p mu C2 k (gr_start p mu C2) = gr_state_of (words_iterate p mu C2 k).
Proof.
  induction k as [|k IH]; [apply gr_start_words|].
  assert (E : forall j s, gr_iterate p mu C2 (S j) s =
                          gr_update p mu (gr_ri p) C2 (gr_iterate p mu C2 j s)).
  { induction j as [|j IHj]; intros s; [reflexivity|].
    cbn [gr_iterate] in *. now rewrite <- IHj. }
  rewrite E, IH. cbn [words_iterate]. apply gr_update_words.
Qed.
End GrWordsFacts.

(** C6.  For each particle the loop makes at most 10 passes of the
    update [old_v = v; v = v_particle / (1 - A); A = (|v|^2 / 2 + 3 mu /
    r) / c^2], starting from [v = v_particle]: it stops after pass [k +
    1], the first whose test [|v - old_v|^2 / |v|^2 < eps^2] holds ([q =
    k < 10]), or after the tenth when none holds ([q = 10]); only then
    it reports the warning, and in both cases the term of the last
    iterate is added to the acceleration and the call returns.  [eps]
    is [DBL_EPSILON], on the doubles [2^-52].  For a particle on an
    Earth-like orbit the test fails after the first two passes and holds
    after the third, which has raised the speed. *)
Theorem gr_iteration :
  (forall (F : Type) (A : Arith F) (p : reb_particle F) (mu C2 : F) (e : env F),
   exists k : nat,
     (k <= 10)%nat /\
     (forall j, (j < k)%nat -> words_test p mu C2 j = false) /\
     ((k < 10)%nat -> words_test p mu C2 k = true) /\
     gr_solve p mu C2 =
       (Z.of_nat k, gr_state_of (words_iterate p mu C2 (Nat.min (S k) 10))) /\
     gr_particle mu C2 p e =
       Ret (gr_corrected p mu C2 (gr_state_of (words_iterate p mu C2 (Nat.min (S k) 10))))
           (if (k =? 10)%nat then put_message gr_warning e else e)) /\
  @DBL_EPSILON float _ = 0x1p-52%float /\
  (let p := (mkparticle 1 0 0 0 0.017 0 0 0 0 0)%float in
   let mu := 0.295912208285591100E-03%float in
   let C2 := (173.14463267424034 * 173.14463267424034)%float in
   map (words_test p mu C2) [0; 1; 2]%nat = [false; false; true] /\
   gr_solve p mu C2 = (2, gr_state_of (words_iterate p mu C2 3)) /\
   (c1 (fst (words_iterate p mu C2 0)) <? c1 (fst (words_iterate p mu C2 3)))%float = true).
Proof.
  split; [|split; [vm_compute; reflexivity | repeat split; vm_compute; reflexivity]].
  intros F A p mu C2 e.
  destruct (gr_loop_spec p mu C2 10 0 (gr_start p mu C2)) as (k & Hk & Hloop & Hbefore & Hat).
  exists k.
  assert (Hsolve : gr_solve p mu C2 =
                   (Z.of_nat k, gr_state_of (words_iterate p mu C2 (Nat.min (S k) 10)))).
  { unfold gr_solve. rewrite <- gr_iterate_words. exact Hloop. }
  split; [exact Hk|]. split; [|split; [|split; [exact Hsolve|]]].
  - intros j Hj. specialize (Hbefore j Hj).
    rewrite !gr_iterate_words, gr_converged_words in Hbefore. exact Hbefore.
  - intros Hlt. specialize (Hat Hlt).
    rewrite !gr_iterate_words, gr_converged_words in Hat. exact Hat.
  - rewrite gr_particle_run, Hsolve. cbn [fst snd]. f_equal.
    unfold default_max_iterations.
    destruct (Nat.eqb_spec k 10) as [->|Hne]; [reflexivity|].
    destruct (Z.eqb_spec (Z.of_nat k) 10) as [E|_]; [lia | reflexivity].
Qed.

(** ** The limit of an infinite speed of light, on the doubles *)

Section DoubleFacts.
Import Binary64.

Lemma div_infinity (x : float) :
  not_a_number (x / infinity)%float = false ->
  finite x = true /\ zero (x / infinity)%float = true.
Proof.
  unfold not_a_number, finite, zero. rewrite div_spec.
  change (Prim2SF infinity) with (S754_infinity false).
  destruct (Prim2SF x); simpl; intros E; try discriminate; split; reflexivity.
Qed.

Lemma finite_add (a b : float) :
  finite (a + b)%float = true -> finite a = true /\ finite b = true.
Proof.
  unfold finite. rewrite add_spec.
  destruct (Prim2SF a) as [sa|sa| |sa ma ea], (Prim2SF b) as [sb|sb| |sb mb eb]; simpl;
    try (intros E; try discriminate; split; reflexivity);
    try (destruct sa, sb; simpl; intros E; try discriminate; split; reflexivity).
Qed.

Lemma finite_mul (a b : float) :
  finite (a * b)%float = true -> finite a = true /\ finite b = true.
Proof.
  unfold finite. rewrite mul_spec.
  destruct (Prim2SF a) as [sa|sa| |sa ma ea], (Prim2SF b) as [sb|sb| |sb mb eb]; simpl;
    try (intros E; try discriminate; split; reflexivity).
Qed.

Lemma one_minus_zero (z : float) : zero z = true -> (1 - z)%float = 1%float.
Proof.
  unfold zero. intros Hz. apply Prim2SF_inj. rewrite sub_spec.
  destruct (Prim2SF z); try discriminate. reflexivity.
Qed.

Lemma zero_mul (a b : float) :
  zero a = true -> finite b = true -> zero (a * b)%float = true.
Proof.
  unfold zero, finite. rewrite mul_spec.
  destruct (Prim2SF a), (Prim2SF b); simpl; intros; try discriminate; reflexivity.
Qed.

Lemma zero_sub (a b : float) :
  zero a = true -> zero b = true -> zero (a - b)%float = true.
Proof.
  unfold zero. rewrite sub_spec.
  destruct (Prim2SF a) as [sa|sa| |sa ma ea], (Prim2SF b) as [sb|sb| |sb mb eb]; simpl;
    intros; try discriminate. destruct sa, sb; reflexivity.
Qed.

Lemma SFeqb_refl_finite (x : spec_float) :
  match x with S754_zero _ | S754_finite _ _ _ => True | _ => False end ->
  SFeqb x x = true.
Proof.
  destruct x as [s|s| |s m e]; try contradiction; intros _; [reflexivity|].
  unfold SFeqb, SFcompare.
  destruct s; rewrite Z.compare_refl, Pos.compare_cont_refl; reflexivity.
Qed.

Lemma add_zero_same (x d : float) :
  finite x = true -> zero d = true -> (x + d =? x)%float = true.
Proof.
  unfold finite, zero. rewrite eqb_spec, add_spec. intros Hx Hd.
  destruct (Prim2SF x) as [sx|sx| |sx mx ex] eqn:Ex, (Prim2SF d) as [sd|sd| |sd md ed];
    try discriminate.
  - destruct sx, sd; reflexivity.
  - simpl. apply (SFeqb_refl_finite (S754_finite sx mx ex)). exact I.
Qed.

Lemma gr_iterate_S {F : Type} `{Arith F} (p : reb_particle F) (mu C2 : F) (j : nat) :
  forall s, gr_iterate p mu C2 (S j) s = gr_update p mu (gr_ri p) C2 (gr_iterate p mu C2 j s).
Proof.
  induction j as [|j IH]; intros s; [reflexivity|].
  cbn [gr_iterate] in *. now rewrite <- IH.
Qed.

Lemma gr_solve_is_update {F : Type} `{Arith F} (p : reb_particle F) (mu C2 : F) :
  exists s_prev, snd (gr_solve p mu C2) = gr_update p mu (gr_ri p) C2 s_prev.
Proof.
  destruct (gr_loop_spec p mu C2 10 0 (gr_start p mu C2)) as (k & Hk & Hloop & _).
  unfold gr_solve. change (Z.to_nat max_iterations) with 10%nat. rewrite Hloop. cbn [snd].
  destruct (Nat.min (S k) 10) as [|j] eqn:E; [lia|].
  eexists. apply gr_iterate_S.
Qed.

(** C7 (amended).  With [c = +infinity] on the doubles: for every
    particle whose position and acceleration are finite and for which the
    three scalars [A], [B] and [D] of the final iterate are numbers (not
    NaN, as they are when a quotient overflows or the particle sits at
    the barycentre), each component of the added term [B (1 - A) r - A a
    - D v] is a zero, and the acceleration the routine stores compares
    equal to the accumulated one. *)
Theorem gr_term_vanishes (p : reb_particle float) (mu c : float) (e : env float) :
  c = infinity ->
  finite (p_x p) = true -> finite (p_y p) = true -> finite (p_z p) = true ->
  finite (p_ax p) = true -> finite (p_ay p) = true -> finite (p_az p) = true ->
  not_a_number (gr_A (snd (gr_solve p mu (c * c)%float))) = false ->
  not_a_number (gr_B mu (gr_ri p) (c * c)%float (snd (gr_solve p mu (c * c)%float))) = false ->
  not_a_number (gr_D p mu (gr_ri p) (c * c)%float (snd (gr_solve p mu (c * c)%float))) = false ->
  let d := gr_term p mu (gr_ri p) (c * c)%float (snd (gr_solve p mu (c * c)%float)) in
  zero (c0 d) = true /\ zero (c1 d) = true /\ zero (c2 d) = true /\
  exists p' : reb_particle float,
    returned (gr_particle mu (c * c)%float p e) = Some p' /\
    (p_ax p' =? p_ax p)%float = true /\
    (p_ay p' =? p_ay p)%float = true /\
    (p_az p' =? p_az p)%float = true.
Proof.
  intros -> Hx Hy Hz Hax Hay Haz.
  change (infinity * infinity)%float with infinity.
  destruct (gr_solve_is_update p mu infinity) as [sp Hs].
  set (s := snd (gr_solve p mu infinity)) in *.
  intros HA HB HD.
  (* A is a zero, and the iterate is finite *)
  assert (HA' : gr_A s = gr_A_of mu (gr_ri p) infinity (gr_vi2 s)) by (rewrite Hs; reflexivity).
  rewrite HA' in HA. unfold gr_A_of in HA. cbn [fdiv fadd fmul Arith_float] in HA.
  apply div_infinity in HA. destruct HA as [HN HAz]. 
  apply finite_add in HN. destruct HN as [HN _].
  apply finite_mul in HN. destruct HN as [_ Hvi2].
  assert (Hvi2' : gr_vi2 s = (c0 (gr_vi s) * c0 (gr_vi s) + c1 (gr_vi s) * c1 (gr_vi s)
                               + c2 (gr_vi s) * c2 (gr_vi s))%float) by (rewrite Hs; reflexivity).
  rewrite Hvi2' in Hvi2.
  apply finite_add in Hvi2. destruct Hvi2 as [Hxy Hvz].
  apply finite_add in Hxy. destruct Hxy as [Hvx Hvy].
  apply finite_mul in Hvx. destruct Hvx as [Hvx _].
  apply finite_mul in Hvy. destruct Hvy as [Hvy _].
  apply finite_mul in Hvz. destruct Hvz as [Hvz _].
  assert (HAz' : zero (gr_A s) = true) by (rewrite HA'; exact HAz).
  (* B and D are zeros *)
  unfold gr_B in HB. cbn [fdiv Arith_float] in HB. apply div_infinity in HB.
  destruct HB as [_ HBz]. 
  unfold gr_D in HD. cbn zeta in HD. cbn [fdiv Arith_float] in HD. apply div_infinity in HD.
  destruct HD as [_ HDz].
  assert (Hone : finite 1%float = true) by reflexivity.
  assert (Hterm : forall x a v : float,
             finite x = true -> finite a = true -> finite v = true ->
             zero (gr_B mu (gr_ri p) infinity s * (1 - gr_A s) * x - gr_A s * a
                   - gr_D p mu (gr_ri p) infinity s * v)%float = true).
  { intros x a v Hfx Hfa Hfv.
    rewrite (one_minus_zero _ HAz').
    apply zero_sub; [apply zero_sub|].
    - apply zero_mul; [apply zero_mul|]; assumption.
    - apply zero_mul; assumption.
    - apply zero_mul; assumption. }
  intros d.
  assert (H0 : zero (c0 d) = true) by (apply Hterm; assumption).
  assert (H1 : zero (c1 d) = true) by (apply Hterm; assumption).
  assert (H2 : zero (c2 d) = true) by (apply Hterm; assumption).
  split; [exact H0|]. split; [exact H1|]. split; [exact H2|].
  exists (gr_corrected p mu infinity s). split.
  - rewrite gr_particle_run. reflexivity.
  - unfold gr_corrected. cbn [p_ax p_ay p_az set_acc]. fold d.
    repeat split; apply add_zero_same; assumption.
Qed.
End DoubleFacts.

Lemma gr_term_vanishes_witness :
  let p := (mkparticle 1 0 0 0 1 0 (-1) 0 0 0)%float in
  let C2 := (infinity * infinity)%float in
  let s := snd (gr_solve p 1%float C2) in
  (Binary64.not_a_number (gr_A s) = false /\
   Binary64.not_a_number (gr_B 1%float (gr_ri p) C2 s) = false /\
   Binary64.not_a_number (gr_D p 1%float (gr_ri p) C2 s) = false) /\
  Binary64.zero (c0 (gr_term p 1%float (gr_ri p) C2 s)) = true /\
  Binary64.zero (c1 (gr_term p 1%float (gr_ri p) C2 s)) = true /\
  Binary64.zero (c2 (gr_term p 1%float (gr_ri p) C2 s)) = true /\
  exists p' : reb_particle float,
    returned (gr_particle 1%float C2 p Demo.demo_env) = Some p' /\
    (p_ax p' =? p_ax p)%float = true /\
    (p_ay p' =? p_ay p)%float = true /\
    (p_az p' =? p_az p)%float = true.
Proof.
  intros p C2 s.
  assert (HA : Binary64.not_a_number (gr_A s) = false) by (vm_compute; reflexivity).
  assert (HB : Binary64.not_a_number (gr_B 1%float (gr_ri p) C2 s) = false)
    by (vm_compute; reflexivity).
  assert (HD : Binary64.not_a_number (gr_D p 1%float (gr_ri p) C2 s) = false)
    by (vm_compute; reflexivity).
  split; [split; [exact HA | split; [exact HB | exact HD]]|].
  exact (gr_term_vanishes p 1%float infinity Demo.demo_env eq_refl
                          eq_refl eq_refl eq_refl eq_refl eq_refl eq_refl HA HB HD).
Defined.

(** A particle at the barycentre: [ri = 0], so [3 mu / ri] is infinite
    and [A], an infinity over an infinity, is NaN; so is the term, and
    the stored acceleration. *)
Lemma gr_term_at_barycentre :
  returned (gr_particle 1%float (infinity * infinity)%float
                        (mkparticle 0 0 0 0 1 0 0 0 0 0)%float Demo.demo_env) =
  Some (mkparticle 0 0 0 0 1 0 nan nan nan 0)%float /\
  gr_term (mkparticle 0 0 0 0 1 0 0 0 0 0)%float 1%float
          (gr_ri (mkparticle 0 0 0 0 1 0 0 0 0 0)%float) (infinity * infinity)%float
          (snd (gr_solve (mkparticle 0 0 0 0 1 0 0 0 0 0)%float 1%float
                         (infinity * infinity)%float)) =
  mkvec nan nan nan /\
  Binary64.zero nan = false.
Proof. repeat split; vm_compute; reflexivity. Qed.

(** ** The Newtonian loops *)

Section NewtonFacts.
Context {F : Type} `{Arith F}.

Lemma length_store (ps : list (reb_particle F)) (j : nat) (p : reb_particle F) :
  List.length (store ps j p) = List.length ps.
Proof.
  revert j. induction ps as [|q ps IH]; intros [|j]; simpl; try reflexivity.
  now rewrite IH.
Qed.

Lemma nth_error_store (ps : list (reb_particle F)) (j : nat) (p : reb_particle F) (i : nat) :
  (j < List.length ps)%nat ->
  nth_error (store ps j p) i = if (i =? j)%nat then Some p else nth_error ps i.
Proof.
  revert j i. induction ps as [|q ps IH]; intros j i Hj; simpl in Hj; [lia|].
  destruct j as [|j], i as [|i]; simpl; try reflexivity.
  apply IH. lia.
Qed.

(** One sweep over [j = j0 .. j0+n-1] kicks exactly these particles. *)
Lemma kick_loop_spec (G m x y z : F) (n : nat) :
  forall (j : nat) (ps : list (reb_particle F)),
    (j + n <= List.length ps)%nat ->
    exists ps',
      kick_loop G m x y z n j ps = Some ps' /\
      List.length ps' = List.length ps /\
      forall i,
        nth_error ps' i =
        if ((j <=? i)%nat && (i <? j + n)%nat)%bool
        then option_map (kick G m x y z) (nth_error ps i)
        else nth_error ps i.
Proof.
  induction n as [|n IH]; intros j ps Hlen.
  - exists ps. repeat split. intros i.
    destruct (j <=? i)%nat eqn:E1, (i <? j + 0)%nat eqn:E2; simpl; try reflexivity.
    apply Nat.leb_le in E1. apply Nat.ltb_lt in E2. lia.
  - cbn [kick_loop].
    destruct (nth_error ps j) as [p|] eqn:Ep;
      [|apply nth_error_None in Ep; lia].
    destruct (IH (S j) (store ps j (kick G m x y z p))) as (ps' & Hrun & Hl & Hnth).
    { rewrite length_store. lia. }
    exists ps'. split; [exact Hrun|]. split; [now rewrite Hl, length_store|].
    intros i. rewrite Hnth.
    rewrite nth_error_store by (apply nth_error_Some; congruence).
    destruct (Nat.eq_dec i j) as [->|Hne].
    + rewrite Nat.eqb_refl, Ep.
      replace (S j <=? j)%nat with false by (symmetry; apply Nat.leb_gt; lia).
      replace (j <=? j)%nat with true by (symmetry; apply Nat.leb_le; lia).
      replace (j <? j + S n)%nat with true by (symmetry; apply Nat.ltb_lt; lia).
      reflexivity.
    + replace (i =? j)%nat with false by (symmetry; apply Nat.eqb_neq; exact Hne).
      destruct (S j <=? i)%nat eqn:E1, (i <? S j + n)%nat eqn:E2,
               (j <=? i)%nat eqn:E3, (i <? j + S n)%nat eqn:E4; simpl; try reflexivity;
        repeat match goal with
               | E : (_ <=? _)%nat = true |- _ => apply Nat.leb_le in E
               | E : (_ <=? _)%nat = false |- _ => apply Nat.leb_gt in E
               | E : (_ <? _)%nat = true |- _ => apply Nat.ltb_lt in E
               | E : (_ <? _)%nat = false |- _ => apply Nat.ltb_ge in E
               end; lia.
Qed.

Variable query : F -> Z -> F -> ephem_out F -> M (env F) (ephem_out F).

(** When the queries all return, the loop returns, and particle [j < N]
    has been pulled by each answer in turn; the others are untouched. *)
Lemma major_loop_spec (G t : F) (N : Z) (n : nat) :
  forall (i : Z) (o : ephem_out F) (e : env F) (ps : list (reb_particle F))
         (bodies : list (ephem_out F)) (o' : ephem_out F) (e' : env F),
    (Z.to_nat N <= List.length ps)%nat ->
    query_trace query G t n i o e = Ret (bodies, o') e' ->
    exists ps',
      major_loop query G t N n i o (e, ps) = Ret o' (e', ps') /\
      List.length ps' = List.length ps /\
      List.length bodies = n /\
      forall j,
        nth_error ps' j =
        if (j <? Z.to_nat N)%nat
        then option_map (pulled G bodies) (nth_error ps j)
        else nth_error ps j.
Proof.
  induction n as [|n IH]; intros i o e ps bodies o' e' HN Htrace.
  - cbn in Htrace. injection Htrace as <- <- <-.
    exists ps. repeat split. intros j.
    destruct (j <? Z.to_nat N)%nat; [|reflexivity].
    destruct (nth_error ps j); reflexivity.
  - cbn [query_trace] in Htrace. unfold bind in Htrace.
    destruct (query G i t o e) as [o1 e1|e1|e1] eqn:Eq; try discriminate.
    destruct (query_trace query G t n (i + 1) o1 e1) as [[bs o2] e2|e2|e2] eqn:Et;
      try discriminate.
    cbn in Htrace. injection Htrace as <- <- <-.
    destruct (kick_loop_spec G (o_m o1) (o_x o1) (o_y o1) (o_z o1) (Z.to_nat N) 0 ps)
      as (ps1 & Hk & Hl1 & Hn1); [lia|].
    destruct (IH (i + 1) o1 e1 ps1 bs o2 e2) as (ps' & Hrun & Hl & Hb & Hnth);
      [lia | exact Et |].
    exists ps'. split; [|split; [lia | split; [simpl; lia|]]].
    + cbn [major_loop]. unfold bind, lift, on_particles. cbn [fst snd].
      rewrite Eq. cbn [fst snd]. rewrite Hk. exact Hrun.
    + intros j. rewrite Hnth, Hn1. cbn [Nat.leb andb].
      replace (j <? 0 + Z.to_nat N)%nat with (j <? Z.to_nat N)%nat by reflexivity.
      destruct (j <? Z.to_nat N)%nat; [|reflexivity].
      destruct (nth_error ps j); reflexivity.
Qed.
End NewtonFacts.

(** C2 (amended).  Whatever the body query: when the queries for the
    bodies [0 .. n-1] return, the loop over them returns, and each
    particle [j < N] has had [-G m_i dr / |dr|^3] added to its
    acceleration once for each body [i], in this order, with [dr] the
    particle's position minus the body's (the other particles are
    untouched).  The source subtracts [G m / |dr|^3 * dr]; on the doubles
    this is the sum with the negated term, bit for bit.  The routine's
    own query [ephem] answers the catalog's [GM] divided by [G] for the
    mass, so [G m] of the Sun is 0.2959122082855911e-3: with the Sun at
    the barycentre, [G = 1], a particle at rest at [(1, 0, 0)],
    [N_ephem = 1], no asteroid and [c = +infinity], the accumulated
    acceleration is [(-0.2959122082855911e-3, 0, 0)], the relativistic
    term is [(0, 0, 0)], and the routine returns with that
    acceleration. *)
Theorem newton_accumulation :
  (forall (F : Type) (A : Arith F)
          (query : F -> Z -> F -> ephem_out F -> M (env F) (ephem_out F))
          (G t : F) (N : Z) (n : nat) (o : ephem_out F) (e : env F)
          (ps : list (reb_particle F))
          (bodies : list (ephem_out F)) (o' : ephem_out F) (e' : env F),
      (Z.to_nat N <= List.length ps)%nat ->
      query_trace query G t n 0 o e = Ret (bodies, o') e' ->
      exists ps' : list (reb_particle F),
        major_loop query G t N n 0 o (e, ps) = Ret o' (e', ps') /\
        List.length ps' = List.length ps /\
        List.length bodies = n /\
        forall j : nat,
          nth_error ps' j =
          if (j <? Z.to_nat N)%nat
          then option_map (pulled G bodies) (nth_error ps j)
          else nth_error ps j) /\
  (forall (G : float) (b : ephem_out float) (p : reb_particle float),
      let dx := (p_x p - o_x b)%float in
      let dy := (p_y p - o_y b)%float in
      let dz := (p_z p - o_z b)%float in
      let r := PrimFloat.sqrt (dx * dx + dy * dy + dz * dz)%float in
      newton_pull G b p =
      mkparticle (p_x p) (p_y p) (p_z p) (p_vx p) (p_vy p) (p_vz p)
                 (p_ax p + - (G * o_m b / (r * r * r) * dx))%float
                 (p_ay p + - (G * o_m b / (r * r * r) * dy))%float
                 (p_az p + - (G * o_m b / (r * r * r) * dz))%float
                 (p_m p)) /\
  (let gm := 0.295912208285591100E-03%float in
   let pulled_particle := (mkparticle 1 0 0 0 0 0 (- gm) 0 0 0)%float in
   major_loop ephem 1%float 16%float 1 1 0
              (uninit_out Scenario.process) (Scenario.process, [Scenario.particle]) =
   Ret (mkout gm 0 0 0 0 0 0)%float
       (ephem_started Scenario.process, [pulled_particle]) /\
   gr_term pulled_particle 1%float (gr_ri pulled_particle) (infinity * infinity)%float
           (snd (gr_solve pulled_particle 1%float (infinity * infinity)%float)) =
   (mkvec 0 0 0)%float /\
   rebx_ephemeris_forces Scenario.sim Scenario.force 1
                         (Scenario.process, [Scenario.particle]) =
   Ret tt (put_message gr_warning (ephem_started Scenario.process), [pulled_particle])).
Proof.
  split; [|split].
  - intros F A query G t N n o e ps bodies o' e' HN Htrace.
    exact (major_loop_spec query G t N n 0 o e ps bodies o' e' HN Htrace).
  - intros G b p dx dy dz r. unfold newton_pull.
    cbn [fadd fsub fmul fdiv fsqrt Arith_float]. fold dx dy dz. fold r.
    now rewrite !double_sub_adds_opp.
  - repeat split; vm_compute; reflexivity.
Qed.

(** With [GM = 1] the acceleration would be [(-1, 0, 0)].  The routine's
    body 0 has the catalog's [GM] whatever [G] is: with the Sun at the
    barycentre the particle at [(1, 0, 0)] gets
    [(-0.2959122082855911e-3, 0, 0)], for [G = 1] and for [G = 4]. *)
Lemma newton_scenario_catalog_mass :
  let gm := 0.295912208285591100E-03%float in
  returned (ephem 1%float 0 16%float (uninit_out Scenario.process) Scenario.process) =
  Some (mkout gm 0 0 0 0 0 0)%float /\
  rebx_ephemeris_forces Scenario.sim Scenario.force 1
                        (Scenario.process, [Scenario.particle]) =
  Ret tt (put_message gr_warning (ephem_started Scenario.process),
          [(mkparticle 1 0 0 0 0 0 (- gm) 0 0 0)%float]) /\
  rebx_ephemeris_forces Scenario.sim_G4 Scenario.force 1
                        (Scenario.process, [Scenario.particle]) =
  Ret tt (put_message gr_warning (ephem_started Scenario.process),
          [(mkparticle 1 0 0 0 0 0 (- gm) 0 0 0)%float]) /\
  (- gm =? -1)%float = false.
Proof. intros gm. repeat split; vm_compute; reflexivity. Qed.

Lemma newton_accumulation_witness :
  let sun := (mkout 0.295912208285591100E-03 0.5 0.5 0.5 0.03125 0.03125 0.03125)%float in
  let mercury := (mkout 0.491248045036476000E-10 0.5 0.5 0.5 0.03125 0.03125 0.03125)%float in
  (Z.to_nat 1 <= List.length [Scenario.particle])%nat /\
  query_trace ephem 1%float 16%float 2 0 (uninit_out Demo.demo_env) Demo.demo_env =
  Ret ([sun; mercury], mercury) (ephem_started Demo.demo_env) /\
  exists ps' : list (reb_particle float),
    major_loop ephem 1%float 16%float 1 2 0
               (uninit_out Demo.demo_env) (Demo.demo_env, [Scenario.particle]) =
    Ret mercury (ephem_started Demo.demo_env, ps') /\
    List.length ps' = 1%nat /\
    List.length [sun; mercury] = 2%nat /\
    forall j : nat,
      nth_error ps' j =
      if (j <? Z.to_nat 1)%nat
      then option_map (pulled 1%float [sun; mercury]) (nth_error [Scenario.particle] j)
      else nth_error [Scenario.particle] j.
Proof.
  intros sun mercury.
  assert (HN : (Z.to_nat 1 <= List.length [Scenario.particle])%nat) by (simpl; lia).
  assert (Ht : query_trace ephem 1%float 16%float 2 0
                           (uninit_out Demo.demo_env) Demo.demo_env =
               Ret ([sun; mercury], mercury) (ephem_started Demo.demo_env))
    by (vm_compute; reflexivity).
  split; [exact HN|]. split; [exact Ht|].
  exact (proj1 newton_accumulation float _ ephem 1%float 16%float 1 2%nat
               (uninit_out Demo.demo_env) Demo.demo_env [Scenario.particle]
               _ _ _ HN Ht).
Defined.

(** ** Missing parameters *)

Section MissingParameters.
Context {F : Type} `{Arith F}.
Variable query : F -> Z -> F -> ephem_out F -> M (env F) (ephem_out F).
Variable ast_query : F -> Z -> F -> M (env F) (F * F * F * F).

Lemma returned_bind {St A B : Type} (c : M St A) (k : A -> M St B) (s : St) :
  returned (bind c k s) =
  match c s with
  | Ret a s' => returned (k a s')
  | _ => None
  end.
Proof. unfold bind. destruct (c s); reflexivity. Qed.

Lemma forces_without_N_ephem (sim : reb_simulation F) (force : rebx_force F) (N : Z)
      (s : machine F) :
  rebx_get_param (ap force) "N_ephem" = None ->
  ephemeris_forces query ast_query sim force N s =
  Ret tt (put_stderr "REBOUNDx Error: Need to set N_ephem for ephemeris_forces\n" (fst s),
          snd s).
Proof. intros Hn. unfold ephemeris_forces. rewrite Hn. reflexivity. Qed.

Lemma forces_without_c (sim : reb_simulation F) (force : rebx_force F) (N : Z)
      (s : machine F) (v : rebx_value F) :
  rebx_get_param (ap force) "N_ephem" = Some v ->
  rebx_get_param (ap force) "c" = None ->
  ephemeris_forces query ast_query sim force N s =
  Ret tt (put_message
            "REBOUNDx Error: Need to set speed of light in gr effect.  See examples in documentation.\n"
            (fst s),
          snd s).
Proof. intros Hn Hc. unfold ephemeris_forces. rewrite Hn, Hc. reflexivity. Qed.

Lemma forces_without_N_ast (sim : reb_simulation F) (force : rebx_force F) (N : Z)
      (s : machine F) (v w : rebx_value F) :
  rebx_get_param (ap force) "N_ephem" = Some v ->
  rebx_get_param (ap force) "c" = Some w ->
  rebx_get_param (ap force) "N_ast" = None ->
  returned (ephemeris_forces query ast_query sim force N s) = None.
Proof.
  intros Hn Hc Ha. unfold ephemeris_forces. rewrite Hn, Hc, Ha.
  repeat (rewrite returned_bind; cbn [defined deref_int fault]; cbv beta iota;
          try reflexivity;
          try match goal with
              | |- match ?c with Ret _ _ => _ | _ => _ end = None =>
                  destruct c; try reflexivity
              end).
Qed.
End MissingParameters.

(** C1.  The routine returns at once, with the particles as they were
    and a report on [stderr] or in the simulation's messages, when
    [N_ephem] is absent and when [c] is absent.  When only [N_ast] is
    absent it does not return: no check guards the read of [*N_ast].  On
    the demo file, with [N_ephem = 1] and one particle, the Sun has
    already pulled the particle when the NULL pointer is read. *)
Theorem missing_parameters :
  (forall (F : Type) (A : Arith F)
          (query : F -> Z -> F -> ephem_out F -> M (env F) (ephem_out F))
          (ast_query : F -> Z -> F -> M (env F) (F * F * F * F))
          (sim : reb_simulation F) (force : rebx_force F) (N : Z) (s : machine F),
      rebx_get_param (ap force) "N_ephem" = None ->
      ephemeris_forces query ast_query sim force N s =
      Ret tt (put_stderr "REBOUNDx Error: Need to set N_ephem for ephemeris_forces\n" (fst s),
              snd s)) /\
  (forall (F : Type) (A : Arith F)
          (query : F -> Z -> F -> ephem_out F -> M (env F) (ephem_out F))
          (ast_query : F -> Z -> F -> M (env F) (F * F * F * F))
          (sim : reb_simulation F) (force : rebx_force F) (N : Z) (s : machine F)
          (v : rebx_value F),
      rebx_get_param (ap force) "N_ephem" = Some v ->
      rebx_get_param (ap force) "c" = None ->
      ephemeris_forces query ast_query sim force N s =
      Ret tt (put_message
                "REBOUNDx Error: Need to set speed of light in gr effect.  See examples in documentation.\n"
                (fst s),
              snd s)) /\
  (forall (F : Type) (A : Arith F)
          (query : F -> Z -> F -> ephem_out F -> M (env F) (ephem_out F))
          (ast_query : F -> Z -> F -> M (env F) (F * F * F * F))
          (sim : reb_simulation F) (force : rebx_force F) (N : Z) (s : machine F)
          (v w : rebx_value F),
      rebx_get_param (ap force) "N_ephem" = Some v ->
      rebx_get_param (ap force) "c" = Some w ->
      rebx_get_param (ap force) "N_ast" = None ->
      returned (ephemeris_forces query ast_query sim force N s) = None) /\
  rebx_ephemeris_forces Scenario.sim Scenario.force_without_N_ast 1
                        (Demo.demo_env, [Scenario.particle]) =
  Fault (ephem_started Demo.demo_env,
         [(mkparticle 1 0 0 0 0 0
                      (-0.00022779332414691019) 0.00022779332414691019
                      0.00022779332414691019 0)%float]).
Proof.
  split; [|split; [|split]].
  - intros F A query ast_query sim force N s Hn.
    now apply forces_without_N_ephem.
  - intros F A query ast_query sim force N s v Hn Hc.
    now apply (forces_without_c query ast_query sim force N s v).
  - intros F A query ast_query sim force N s v w Hn Hc Ha.
    now apply (forces_without_N_ast query ast_query sim force N s v w).
  - vm_compute. reflexivity.
Qed.

(** ** The iteration on two particles *)

(** A particle on an Earth-like orbit, with the Sun's [G M] and the speed
    of light in AU per day: the third pass meets the test ([q = 2]) and
    nothing is reported. *)
Example gr_converges :
  let p := (mkparticle 1 0 0 0 0.017 0 0 0 0 0)%float in
  let mu := 0.295912208285591100E-03%float in
  let C2 := (173.14463267424034 * 173.14463267424034)%float in
  fst (gr_solve p mu C2) = 2 /\
  messages (final_state (gr_particle mu C2 p Demo.demo_env)) = [].
Proof. split; vm_compute; reflexivity. Qed.

(** A particle at rest: [|v|^2] is zero, the quotient of the test is
    0/0, a NaN, and no comparison with a NaN holds; the loop runs its ten
    passes and the warning is reported. *)
Example gr_at_rest_warns :
  let p := (mkparticle 1 0 0 0 0 0 0 0 0 0)%float in
  let mu := 0.295912208285591100E-03%float in
  let C2 := (173.14463267424034 * 173.14463267424034)%float in
  fst (gr_solve p mu C2) = 10 /\
  messages (final_state (gr_particle mu C2 p Demo.demo_env)) = [gr_warning].
Proof. split; vm_compute; reflexivity. Qed.

Lemma missing_parameters_witness :
  (rebx_get_param [("c"%string, REBX_DOUBLE 173.14463267424034%float)] "N_ephem" = None /\
   rebx_ephemeris_forces Scenario.sim
                         (mkforce [("c"%string, REBX_DOUBLE 173.14463267424034%float)]) 1
                         (Demo.demo_env, [Scenario.particle]) =
   Ret tt (put_stderr "REBOUNDx Error: Need to set N_ephem for ephemeris_forces\n"
                      Demo.demo_env,
           [Scenario.particle])) /\
  (rebx_get_param [("N_ephem"%string, @REBX_INT float 1)] "N_ephem" = Some (REBX_INT 1) /\
   rebx_get_param [("N_ephem"%string, @REBX_INT float 1)] "c" = None /\
   rebx_ephemeris_forces Scenario.sim (mkforce [("N_ephem"%string, REBX_INT 1)]) 1
                         (Demo.demo_env, [Scenario.particle]) =
   Ret tt (put_message
             "REBOUNDx Error: Need to set speed of light in gr effect.  See examples in documentation.\n"
             Demo.demo_env,
           [Scenario.particle])) /\
  (rebx_get_param (ap Scenario.force_without_N_ast) "N_ast" = None /\
   returned (rebx_ephemeris_forces Scenario.sim Scenario.force_without_N_ast 1
                                   (Demo.demo_env, [Scenario.particle])) = None).
Proof.
  destruct missing_parameters as (H1 & H2 & H3 & _).
  split; [|split].
  - split; [reflexivity|].
    exact (H1 float _ ephem ast_ephem Scenario.sim
              (mkforce [("c"%string, REBX_DOUBLE 173.14463267424034%float)]) 1
              (Demo.demo_env, [Scenario.particle]) eq_refl).
  - split; [reflexivity|]. split; [reflexivity|].
    exact (H2 float _ ephem ast_ephem Scenario.sim (mkforce [("N_ephem"%string, REBX_INT 1)]) 1
              (Demo.demo_env, [Scenario.particle]) _ eq_refl eq_refl).
  - split; [reflexivity|].
    exact (H3 float _ ephem ast_ephem Scenario.sim Scenario.force_without_N_ast 1
              (Demo.demo_env, [Scenario.particle]) _ _ eq_refl eq_refl eq_refl).
Defined.

(** * Further properties of the code *)

(** ** jpl_work: derivative and reads *)

Section Derivative.
Local Open Scope R_scope.

Lemma cheb_derivative (p : nat) (x : R) :
  derivable_pt_lim (fun y => chebT y p) x (chebS x p) /\
  derivable_pt_lim (fun y => chebT y (S p)) x (chebS x (S p)).
Proof.
  induction p as [|p [IH1 IH2]].
  - split.
    + exact (derivable_pt_lim_const 1 x).
    + exact (derivable_pt_lim_id x).
  - split; [exact IH2|].
    pose proof (derivable_pt_lim_minus _ _ x _ _
                  (derivable_pt_lim_mult _ _ x _ _
                     (derivable_pt_lim_mult _ _ x _ _
                        (derivable_pt_lim_const 2 x) (derivable_pt_lim_id x)) IH2) IH1) as D.
    replace (chebS x (S (S p))) with
      ((0 * id x + fct_cte 2 x * 1) * chebT x (S p) +
       (fct_cte 2 * id)%F x * chebS x (S p) - chebS x p).
    + exact D.
    + rewrite chebS_step. unfold fct_cte, id, mult_fct.
      cbn [fmul fadd fsub of_Z Arith_R]. ring.
Qed.

Lemma sum_derivative (w w' : Z -> R -> R) (l : list Z) (x : R) :
  (forall p, In p l -> derivable_pt_lim (w p) x (w' p x)) ->
  forall (a : R -> R) (a' : R),
    derivable_pt_lim a x a' ->
    derivable_pt_lim (fun y => fold_left (fun acc p => acc + w p y) l (a y)) x
                     (fold_left (fun acc p => acc + w' p x) l a').
Proof.
  induction l as [|p l IH]; intros Hw a a' Ha; cbn [fold_left].
  - exact Ha.
  - apply (IH (fun q Hq => Hw q (or_intror Hq)) (fun y => a y + w p y) (a' + w' p x)).
    apply (derivable_pt_lim_plus a (w p) x a' (w' p x) Ha). apply Hw. now left.
Qed.

Lemma affine_derivative (a c x : R) :
  derivable_pt_lim (fun s => a * s + c) x a.
Proof.
  intros eps Heps. exists (mkposreal 1 Rlt_0_1). intros h Hh _.
  replace ((a * (x + h) + c - (a * x + c)) / h - a) with 0 by (field; exact Hh).
  rewrite Rabs_R0. exact Heps.
Qed.

Lemma sum_scaled (w : Z -> R) (c : R) (l : list Z) :
  forall a : R,
    fold_left (fun acc p => acc + w p * c) l (a * c) =
    fold_left (fun acc p => acc + w p) l a * c.
Proof.
  induction l as [|p l IH]; intros a; cbn [fold_left]; [reflexivity|].
  rewrite <- IH. f_equal. ring.
Qed.

Lemma idx_map_zrange {F : Type} `{Arith F} (f : Z -> F) (n m : Z) :
  (0 <= m < n)%Z -> idx (map f (zrange n)) (Z.to_nat m) = f m.
Proof.
  intros Hm. unfold idx, zrange. rewrite map_map.
  rewrite (nth_indep _ _ (f (Z.of_nat 0))) by (rewrite length_map, length_seq; lia).
  rewrite (map_nth (fun k => f (Z.of_nat k))), seq_nth by lia.
  f_equal. lia.
Qed.

(** In exact arithmetic a time inside sub-interval [b] is converted to
    [b] and rescaled linearly. *)
Lemma exact_subinterval (s : R) (niv b : Z) :
  IZR b <= s * IZR niv < IZR b + 1 ->
  (0 <= b <= INT_MAX)%Z ->
  to_int (fmul s (of_Z niv)) = Some b /\
  cheb_x niv s = 2 * (s * IZR niv - IZR b) - 1.
Proof.
  intros Hs Hb. set (t := s * IZR niv) in *.
  assert (Hpart : Int_part t = b).
  { symmetry. apply Int_part_spec. lra. }
  assert (Hb0 : 0 <= IZR b) by (apply IZR_le; lia).
  assert (Hnot : Exact.ltb t 0 = false).
  { unfold Exact.ltb. destruct (Rlt_dec t 0); [lra | reflexivity]. }
  split.
  - unfold to_int, trunc. cbn [fmul of_Z flt ffloor fceil Arith_R]. fold t.
    rewrite Hnot. unfold Exact.floor. rewrite Hpart.
    assert (E : ((INT_MIN <=? b) && (b <=? INT_MAX))%bool = true).
    { unfold INT_MIN, INT_MAX in *. apply andb_true_iff. split; apply Z.leb_le; lia. }
    now rewrite E.
  - unfold cheb_x. cbn [fmul fsub of_Z fmod Arith_R]. fold t.
    unfold Exact.fmod, Exact.quot.
    replace (t / 1) with t by (unfold Rdiv; rewrite Rinv_1; ring).
    destruct (Rlt_dec t 0); [lra|]. rewrite Hpart. ring.
Qed.

(** Inside a sub-interval the two components are the sums at the
    rescaled time. *)
Lemma work_inside (P : Z -> R) (ncm ncf niv : Z) (t1 : R) (m b : Z) (s : R) :
  (2 <= ncf <= 24)%Z -> (0 <= m < ncm)%Z -> (0 <= b <= INT_MAX)%Z ->
  work_fits ncm ncf niv b ->
  IZR b <= s * IZR niv < IZR b + 1 ->
  work_pos P ncm ncf niv t1 m s =
    cheb_pos P ncm ncf (2 * IZR niv * s + (- 2 * IZR b - 1)) b m /\
  work_vel P ncm ncf niv t1 m s =
    cheb_vel P ncm ncf (2 * IZR niv * s + (- 2 * IZR b - 1)) (cheb_c niv t1) b m.
Proof.
  intros Hncf Hm Hb Hfit Hs. destruct (exact_subinterval s niv b Hs Hb) as [Hint Hx].
  unfold work_pos, work_vel. rewrite (jpl_work_sums P ncm ncf niv s t1 b Hncf Hint Hfit).
  rewrite !idx_map_zrange by exact Hm. rewrite Hx.
  replace (2 * (s * IZR niv - IZR b) - 1) with (2 * IZR niv * s + (- 2 * IZR b - 1)) by ring.
  split; reflexivity.
Qed.

Lemma cheb_pos_derivative (P : Z -> R) (ncm ncf : Z) (b m : Z) (x : R) :
  derivable_pt_lim (fun y => cheb_pos P ncm ncf y b m) x
                   (sum_upto ncf (fun p => chebS x (Z.to_nat p) * P (ncf * (m + b * ncm) + p)%Z)).
Proof.
  unfold cheb_pos, sum_upto. cbn [fadd fmul of_Z Arith_R].
  apply (sum_derivative
           (fun p y => chebT y (Z.to_nat p) * P (ncf * (m + b * ncm) + p)%Z)
           (fun p y => chebS y (Z.to_nat p) * P (ncf * (m + b * ncm) + p)%Z)
           (zrange ncf) x).
  - intros p _.
    pose proof (derivable_pt_lim_mult _ _ x _ _
                  (proj1 (cheb_derivative (Z.to_nat p) x))
                  (derivable_pt_lim_const (P (ncf * (m + b * ncm) + p)%Z) x)) as D.
    replace (chebS x (Z.to_nat p) * P (ncf * (m + b * ncm) + p)%Z) with
      (chebS x (Z.to_nat p) * fct_cte (P (ncf * (m + b * ncm) + p)%Z) x +
       chebT x (Z.to_nat p) * 0) by (unfold fct_cte; ring).
    exact D.
  - exact (derivable_pt_lim_const 0 x).
Qed.

(** X1.  In exact arithmetic the velocity [jpl_work] returns is the
    time derivative of the position it returns: at a time [t0] strictly
    inside sub-interval [b] (the product [t0 * niv] lies strictly between
    [b] and [b + 1]), component [m] of the position, as a function of
    [t0], has the derivative [v[m] * (t1 * 86400)], for [2 <= ncf <= 24],
    [t1 <> 0] and counts whose [int] arithmetic does not overflow
    ([1 <= niv < 2^30], so that [niv * 2] fits, and
    [ncf * ncm * (b + 1) <= INT_MAX]).  So [v] is the change of [u] per
    second when [t1] is the length of the record in days. *)
Theorem jpl_work_velocity_is_derivative
        (P : Z -> R) (ncm ncf niv : Z) (t0 t1 : R) (m b : Z) :
  (2 <= ncf <= 24)%Z -> (0 <= m < ncm)%Z -> (0 <= b)%Z -> (1 <= niv < 2 ^ 30)%Z ->
  (ncf * (ncm * (b + 1)) <= INT_MAX)%Z ->
  IZR b < t0 * IZR niv < IZR b + 1 ->
  t1 <> 0 ->
  derivable_pt_lim (work_pos P ncm ncf niv t1 m) t0
                   (work_vel P ncm ncf niv t1 m t0 * (t1 * 86400)).
Proof.
  intros Hncf Hm Hb0 Hniv Hidx Ht0 Ht1.
  assert (Hfit : work_fits ncm ncf niv b).
  { unfold work_fits, INT_MIN, INT_MAX in *. repeat split; lia. }
  assert (Hb : (0 <= b <= INT_MAX)%Z).
  { unfold INT_MAX in *. split; [exact Hb0|].
    assert (H1 : (b + 1 <= ncm * (b + 1))%Z) by nia.
    assert (H2 : (ncm * (b + 1) <= ncf * (ncm * (b + 1)))%Z) by nia.
    lia. }
  assert (Hn : 1 <= IZR niv) by (apply IZR_le; lia).
  set (g := fun s => cheb_pos P ncm ncf (2 * IZR niv * s + (- 2 * IZR b - 1)) b m).
  set (x0 := 2 * IZR niv * t0 + (- 2 * IZR b - 1)).
  set (d := sum_upto ncf (fun p => chebS x0 (Z.to_nat p) * P (ncf * (m + b * ncm) + p)%Z)).
  assert (Dg : derivable_pt_lim g t0 (d * (2 * IZR niv))).
  { exact (derivable_pt_lim_comp (fun s => 2 * IZR niv * s + (- 2 * IZR b - 1))
             (fun y => cheb_pos P ncm ncf y b m) t0 _ _
             (affine_derivative (2 * IZR niv) (- 2 * IZR b - 1) t0)
             (cheb_pos_derivative P ncm ncf b m x0)). }
  assert (Hvel : work_vel P ncm ncf niv t1 m t0 * (t1 * 86400) = d * (2 * IZR niv)).
  { destruct (work_inside P ncm ncf niv t1 m b t0 Hncf Hm Hb Hfit ltac:(lra)) as [_ ->].
    fold x0. unfold cheb_vel, sum_upto, d, sum_upto. cbn [fadd fmul of_Z Arith_R].
    replace 0 with (0 * cheb_c niv t1) at 1 by ring.
    rewrite (sum_scaled (fun p => chebS x0 (Z.to_nat p) * P (ncf * (m + b * ncm) + p)%Z)).
    unfold cheb_c. cbn [fdiv of_Z Arith_R]. rewrite mult_IZR. field. exact Ht1. }
  rewrite Hvel.
  set (gap := Rmin (t0 * IZR niv - IZR b) (IZR b + 1 - t0 * IZR niv)).
  assert (Hgap : 0 < gap) by (unfold gap; apply Rmin_pos; lra).
  assert (Hd0 : 0 < gap / IZR niv) by (apply Rdiv_lt_0_compat; lra).
  intros eps Heps. destruct (Dg eps Heps) as [d1 H1].
  assert (Hmin : 0 < Rmin d1 (gap / IZR niv)) by (apply Rmin_pos; [apply cond_pos | exact Hd0]).
  exists (mkposreal _ Hmin). intros h Hh0 Hh. cbn [pos] in Hh.
  assert (Hh1 : Rabs h < d1) by (eapply Rlt_le_trans; [exact Hh | apply Rmin_l]).
  assert (Hh2 : Rabs h < gap / IZR niv) by (eapply Rlt_le_trans; [exact Hh | apply Rmin_r]).
  assert (Hin : IZR b <= (t0 + h) * IZR niv < IZR b + 1).
  { assert (Hhn : Rabs h * IZR niv < gap).
    { apply (Rmult_lt_compat_r (IZR niv)) in Hh2; [|lra].
      unfold Rdiv in Hh2. rewrite Rmult_assoc, Rinv_l, Rmult_1_r in Hh2 by lra. exact Hh2. }
    assert (Habs : - Rabs h <= h <= Rabs h).
    { split; [pose proof (Rle_abs (- h)) as Q; rewrite Rabs_Ropp in Q; lra | apply Rle_abs]. }
    assert (G1 : gap <= t0 * IZR niv - IZR b) by apply Rmin_l.
    assert (G2 : gap <= IZR b + 1 - t0 * IZR niv) by apply Rmin_r.
    split; nra. }
  destruct (work_inside P ncm ncf niv t1 m b (t0 + h) Hncf Hm Hb Hfit Hin) as [-> _].
  destruct (work_inside P ncm ncf niv t1 m b t0 Hncf Hm Hb Hfit ltac:(lra)) as [-> _].
  exact (H1 h Hh0 Hh1).
Qed.
End Derivative.

Lemma jpl_work_velocity_is_derivative_witness :
  let P := fun k : Z => IZR (k + 1) in
  derivable_pt_lim (work_pos P 3 4 2 32%R 1) (3 / 4)%R
                   (work_vel P 3 4 2 32%R 1 (3 / 4)%R * (32 * 86400))%R.
Proof.
  intros P.
  apply (jpl_work_velocity_is_derivative P 3 4 2 (3 / 4)%R 32%R 1 1);
    try (unfold INT_MAX; lia); try lra.
Defined.

Section ReadsBlock.
Context {F : Type} `{Arith F}.
Local Open Scope num_scope.

Lemma int_result_some (z r : Z) : int_result z = Some r -> r = z.
Proof.
  unfold int_result. destruct ((INT_MIN <=? z) && (z <=? INT_MAX))%bool; congruence.
Qed.

Lemma jpl_first_some (ncm ncf b m n : Z) :
  jpl_first ncm ncf b m = Some n -> n = (ncf * (m + b * ncm))%Z.
Proof.
  unfold jpl_first.
  destruct (int_result (b * ncm)) as [bn|] eqn:E1; [|discriminate].
  destruct (int_result (m + bn)) as [k|] eqn:E2; [|discriminate].
  intros E3. apply int_result_some in E1, E2, E3. subst. reflexivity.
Qed.

Lemma jpl_component_ext (P P' : Z -> F) (Ts Ss : list F) (c : F) (n : Z) (l : list Z) :
  (forall p, In p l -> P (n + p)%Z = P' (n + p)%Z) ->
  forall acc : option (F * F),
    fold_left
      (fun acc p =>
         match acc, int_result (n + p) with
         | Some uv, Some k =>
             Some (fst uv + idx Ts (Z.to_nat p) * P k,
                   snd uv + idx Ss (Z.to_nat p) * P k * c)
         | _, _ => None
         end) l acc =
    fold_left
      (fun acc p =>
         match acc, int_result (n + p) with
         | Some uv, Some k =>
             Some (fst uv + idx Ts (Z.to_nat p) * P' k,
                   snd uv + idx Ss (Z.to_nat p) * P' k * c)
         | _, _ => None
         end) l acc.
Proof.
  induction l as [|p l IH]; intros HP acc; cbn [fold_left]; [reflexivity|].
  assert (E : match acc, int_result (n + p) with
              | Some uv, Some k =>
                  Some (fst uv + idx Ts (Z.to_nat p) * P k,
                        snd uv + idx Ss (Z.to_nat p) * P k * c)
              | _, _ => None
              end =
              match acc, int_result (n + p) with
              | Some uv, Some k =>
                  Some (fst uv + idx Ts (Z.to_nat p) * P' k,
                        snd uv + idx Ss (Z.to_nat p) * P' k * c)
              | _, _ => None
              end).
  { destruct acc as [uv|]; [|reflexivity].
    destruct (int_result (n + p)) as [k|] eqn:E; [|reflexivity].
    apply int_result_some in E. subst k. now rewrite (HP p (or_introl eq_refl)). }
  rewrite E. apply IH. intros q Hq. apply HP. now right.
Qed.

(** [jpl_work] reads the coefficients of one sub-interval only: the
    [ncf * ncm] doubles from [P[ncf * b * ncm]] on. *)
Lemma jpl_work_block (P P' : Z -> F) (ncm ncf niv : Z) (t0 t1 : F) (b : Z) :
  to_int (t0 * #niv) = Some b ->
  (forall k, (ncf * (b * ncm) <= k < ncf * (b * ncm) + ncf * ncm)%Z -> P k = P' k) ->
  jpl_work P ncm ncf niv t0 t1 = jpl_work P' ncm ncf niv t0 t1.
Proof.
  intros Hb HP. unfold jpl_work.
  destruct (int_result (niv * 2)) as [niv2|]; [|reflexivity]. rewrite Hb.
  destruct (24 <? ncf)%Z; [reflexivity|].
  destruct (cheb_loop _ _ _ _) as [Ts Ss].
  f_equal. f_equal. apply map_ext_in. intros m Hm. apply in_zrange in Hm.
  destruct (jpl_first ncm ncf b m) as [n|] eqn:En; [|reflexivity].
  apply jpl_first_some in En. subst n.
  unfold jpl_component. apply jpl_component_ext. intros p Hp. apply in_zrange in Hp.
  apply HP. nia.
Qed.
End ReadsBlock.

(** X2.  [jpl_work] reads the coefficients of one sub-interval only.
    When its index arithmetic stays in [int] ([b = (int)(t0 * niv)] is
    not negative and [ncf * ncm * (b + 1) <= INT_MAX], for [ncf >= 1]),
    two coefficient arrays that agree on the [ncf * ncm] entries from
    [P[ncf * b * ncm]] on give the same result, whatever they hold
    elsewhere.  In exact arithmetic, for [t0] in [[0, 1)], [niv >= 1]
    and [ncf * ncm * niv <= INT_MAX], these entries are among the first
    [ncf * ncm * niv]: the call does not read past the body's block. *)
Theorem jpl_work_reads_block :
  (forall (F : Type) (A : Arith F) (P P' : Z -> F) (ncm ncf niv : Z) (t0 t1 : F) (b : Z),
      to_int (fmul t0 (of_Z niv)) = Some b ->
      1 <= ncf -> 0 <= b -> ncf * (ncm * (b + 1)) <= INT_MAX ->
      (forall k, ncf * (b * ncm) <= k < ncf * (b * ncm) + ncf * ncm -> P k = P' k) ->
      jpl_work P ncm ncf niv t0 t1 = jpl_work P' ncm ncf niv t0 t1) /\
  (forall (P P' : Z -> R) (ncm ncf niv : Z) (t0 t1 : R),
      (0 <= t0 < 1)%R -> 1 <= niv <= INT_MAX -> 0 <= ncm -> 1 <= ncf ->
      ncf * ncm * niv <= INT_MAX ->
      (forall k, 0 <= k < ncf * ncm * niv -> P k = P' k) ->
      jpl_work P ncm ncf niv t0 t1 = jpl_work P' ncm ncf niv t0 t1).
Proof.
  split.
  - intros F A P P' ncm ncf niv t0 t1 b Hb _ _ _ HP. now apply jpl_work_block with (b := b).
  - intros P P' ncm ncf niv t0 t1 Ht0 Hniv Hncm Hncf Hfit HP.
    destruct (exact_rescale t0 niv Ht0 Hniv) as (b & Hb & Hrange & _).
    apply jpl_work_block with (b := b); [exact Hb|].
    intros k Hk. apply HP. nia.
Qed.

(** ** jpl_init: the header *)

Example double_of_bytes_examples :
  [double_of_bytes [x00; x00; x00; x00; x00; x00; xf0; x3f];
   double_of_bytes [x00; x00; x00; x00; x00; x00; x40; xc0];
   double_of_bytes [x9a; x99; x99; x99; x99; x99; xb9; x3f];
   double_of_bytes [x01; x00; x00; x00; x00; x00; x00; x00];
   double_of_bytes [x00; x00; x00; x00; x00; x00; xf0; xff];
   double_of_bytes [x00; x00; x00; x40; x28; x73; x41; x41]] =
  [1; -32; 0.1; 0x1p-1074; neg_infinity; 2287184.5]%float /\
  [int32_of_bytes [xff; xff; xff; xff]; int32_of_bytes [x90; x01; x00; x00];
   int32_of_bytes [x00; x00; x00; x80]] = [-1; 400; INT_MIN].
Proof. split; vm_compute; reflexivity. Qed.

Section RecordLength.

Lemma size_mul_mod (a n : Z) : size_mul a n = (a * n) mod 2 ^ 64.
Proof. unfold size_mul. now rewrite Z.mul_mod_idemp_r. Qed.

Lemma fold_mod_sum (h g : jpl_index -> Z) (l : list jpl_index) :
  (forall B, h B mod 2 ^ 64 = g B mod 2 ^ 64) ->
  forall a : Z,
    fold_left (fun rec B => (rec + h B) mod 2 ^ 64) l (a mod 2 ^ 64) =
    (a + fold_right Z.add 0 (map g l)) mod 2 ^ 64.
Proof.
  intros Hh. induction l as [|B l IH]; intros a; cbn [fold_left map fold_right].
  - now rewrite Z.add_0_r.
  - rewrite Z.add_mod_idemp_l by lia.
    rewrite (Z.add_mod a (h B)), Hh, <- Z.add_mod by lia.
    rewrite IH. f_equal. lia.
Qed.

Lemma init_rec_sum (ncf niv : jpl_index -> Z) :
  init_rec ncf niv =
  (16 + sum_bodies (fun B => 8 * (ncf B * niv B * init_ncm B))) mod 2 ^ 64.
Proof.
  unfold init_rec, sum_bodies.
  change (8 * 2) with (16 mod 2 ^ 64).
  apply (fold_mod_sum
           (fun B => size_mul (size_mul (size_mul 8 (ncf B)) (niv B)) (init_ncm B))).
  intros B. rewrite !size_mul_mod, Z.mod_mod by lia.
  rewrite Z.mul_mod_idemp_l by lia.
  rewrite <- Z.mul_assoc, Z.mul_mod_idemp_l by lia. f_equal. ring.
Qed.
End RecordLength.

Section InitFacts.

(** What every handle that [jpl_init] returns has, mapped or not. *)
Lemma jpl_init_handle (o : host) (jpl : _jpl_s float) :
  jpl_init o = Some (init_handle jpl) \/ jpl_init o = Some (init_map_failed jpl) ->
  exists f : list byte,
    host_open o = Some f /\
    jpl_ncm jpl = init_ncm /\
    jpl_rec jpl = init_rec (jpl_ncf jpl) (jpl_niv jpl) /\
    jpl_len jpl = Z.of_nat (List.length f).
Proof.
  unfold jpl_init. destruct (host_open o) as [f|]; [|intros [H|H]; discriminate].
  destruct (host_fstat o); [|intros [H|H]; discriminate].
  destruct (host_lseek o); [|intros [H|H]; discriminate].
  cbn [negb].
  repeat match goal with
         | |- context [let '(_, _) := ?r in _] => destruct r
         end.
  destruct (int_result _); [|intros [H|H]; discriminate].
  destruct (int_result _); [|intros [H|H]; discriminate].
  destruct (_ <? 0); [intros [H|H]; discriminate|].
  repeat match goal with
         | |- context [let '(_, _) := ?r in _] => destruct r
         end.
  destruct (adjust _); [|intros [H|H]; discriminate].
  destruct (host_mmap o && _); intros [H|H]; try discriminate;
    injection H as <-; exists f; repeat split; reflexivity.
Qed.

(** A handle is returned with a mapping exactly when [mmap] is granted
    on a file that is not empty. *)
Lemma jpl_init_mapping (o : host) (jpl : _jpl_s float) :
  (jpl_init o = Some (init_handle jpl) ->
   exists f : list byte,
     host_open o = Some f /\ host_mmap o = true /\ f <> [] /\
     jpl_map jpl = Some (mapped f)) /\
  (jpl_init o = Some (init_map_failed jpl) ->
   exists f : list byte,
     host_open o = Some f /\ (host_mmap o = false \/ f = [])).
Proof.
  unfold jpl_init. destruct (host_open o) as [f|]; [|split; discriminate].
  destruct (host_fstat o); [|split; discriminate].
  destruct (host_lseek o); [|split; discriminate].
  cbn [negb].
  repeat match goal with
         | |- context [let '(_, _) := ?r in _] => destruct r
         end.
  destruct (int_result _); [|split; discriminate].
  destruct (int_result _); [|split; discriminate].
  destruct (_ <? 0); [split; discriminate|].
  repeat match goal with
         | |- context [let '(_, _) := ?r in _] => destruct r
         end.
  destruct (adjust _); [|split; discriminate].
  destruct (host_mmap o) eqn:Em; cbn [andb].
  - destruct (0 <? Z.of_nat (List.length f)) eqn:El; split; try discriminate.
    + intros [= <-]. exists f. repeat split; try reflexivity.
      intros ->. discriminate.
    + intros _. exists f. split; [reflexivity|]. right.
      apply Z.ltb_ge in El. destruct f; [reflexivity | cbn in El; lia].
  - split; [discriminate|]. intros _. exists f. split; [reflexivity | now left].
Qed.
End InitFacts.

(** X4.  Every handle [jpl_init] returns, with the file mapped or with a
    failed mapping, has [ncm] equal to 3 for each body but the nutations
    (2) and TT-TDB (1), and a record length [rec] of 16 bytes plus 8
    bytes for each of the [ncf * niv * ncm] coefficients of the fifteen
    bodies, taken modulo [2^64] as [size_t] arithmetic does; with counts
    in [[0, 2^20)] nothing wraps and the equality is exact. *)
Theorem jpl_init_record_length :
  forall (o : host) (jpl : _jpl_s float),
    jpl_init o = Some (init_handle jpl) \/ jpl_init o = Some (init_map_failed jpl) ->
    (forall B, jpl_ncm jpl B = match B with JPL_NUT => 2 | JPL_TDB => 1 | _ => 3 end) /\
    jpl_rec jpl =
    (16 + sum_bodies (fun B => 8 * (jpl_ncf jpl B * jpl_niv jpl B * jpl_ncm jpl B))) mod 2 ^ 64 /\
    ((forall B, 0 <= jpl_ncf jpl B < 2 ^ 20 /\ 0 <= jpl_niv jpl B < 2 ^ 20) ->
     jpl_rec jpl =
     16 + sum_bodies (fun B => 8 * (jpl_ncf jpl B * jpl_niv jpl B * jpl_ncm jpl B))).
Proof.
  intros o jpl Hinit.
  destruct (jpl_init_handle o jpl Hinit) as (f & _ & Hncm & Hrec & _).
  assert (Hsum : jpl_rec jpl =
                 (16 + sum_bodies (fun B => 8 * (jpl_ncf jpl B * jpl_niv jpl B * jpl_ncm jpl B)))
                 mod 2 ^ 64).
  { rewrite Hrec, init_rec_sum, Hncm. reflexivity. }
  split; [intros B; now rewrite Hncm|]. split; [exact Hsum|].
  intros Hb. rewrite Hsum. apply Z.mod_small.
  unfold sum_bodies, jpl_indices. cbn [map fold_right]. rewrite Hncm. cbn [init_ncm].
  pose proof (Hb JPL_MER); pose proof (Hb JPL_VEN); pose proof (Hb JPL_EMB);
  pose proof (Hb JPL_MAR); pose proof (Hb JPL_JUP); pose proof (Hb JPL_SAT);
  pose proof (Hb JPL_URA); pose proof (Hb JPL_NEP); pose proof (Hb JPL_PLU);
  pose proof (Hb JPL_LUN); pose proof (Hb JPL_SUN); pose proof (Hb JPL_NUT);
  pose proof (Hb JPL_LIB); pose proof (Hb JPL_MAN); pose proof (Hb JPL_TDB).
  assert (P : forall a b, 0 <= a < 2 ^ 20 -> 0 <= b < 2 ^ 20 -> 0 <= a * b < 2 ^ 40).
  { intros a b Ha Hb'. change (2 ^ 40) with (2 ^ 20 * 2 ^ 20). nia. }
  repeat match goal with
         | H : 0 <= ?a < 2 ^ 20 /\ 0 <= ?b < 2 ^ 20 |- _ =>
             destruct H as [Ha' Hb']; pose proof (P a b Ha' Hb'); clear Ha' Hb'
         end.
  change (2 ^ 40) with 1099511627776 in *. change (2 ^ 64) with 18446744073709551616.
  lia.
Qed.

Section ShortFiles.

Lemma read_eof (f : list byte) (pos : Z) (n : nat) :
  Z.of_nat (List.length f) <= pos -> read f pos n = [].
Proof.
  intros Hpos. unfold read. rewrite skipn_all2 by lia. now destruct n.
Qed.

Lemma read_double_eof (f : list byte) (pos : Z) :
  Z.of_nat (List.length f) <= pos -> read_double f pos = (0%float, pos).
Proof.
  intros Hpos. unfold read_double. rewrite (read_eof f pos 8 Hpos).
  cbn [List.length]. now rewrite Z.add_0_r.
Qed.

Lemma read_int32_eof (f : list byte) (pos : Z) :
  Z.of_nat (List.length f) <= pos -> read_int32 f pos = (0, pos).
Proof.
  intros Hpos. unfold read_int32. rewrite (read_eof f pos 4 Hpos).
  cbn [List.length]. now rewrite Z.add_0_r.
Qed.

Lemma read_triples_eof (f : list byte) (n : nat) (pos : Z) :
  Z.of_nat (List.length f) <= pos -> read_triples f n pos = (repeat (0, 0, 0) n, pos).
Proof.
  intros Hpos. induction n as [|n IH]; [reflexivity|].
  cbn [read_triples]. unfold read_triple. rewrite !(read_int32_eof f pos Hpos).
  now rewrite IH.
Qed.

(** The fields a file of at most 252 bytes leaves in the handle. *)
Lemma jpl_init_short (o : host) (f : list byte) :
  host_open o = Some f -> host_fstat o = true -> host_lseek o = true -> host_mmap o = true ->
  (List.length f <= 252)%nat ->
  let fields := mkjpl 0%float 0%float 0%float 0%float 0%float 0 0
                      (fun B => fst (fst (triple_of (repeat (-1, 0, 0) 15) B)))
                      (fun B => snd (fst (triple_of (repeat (-1, 0, 0) 15) B)))
                      (fun B => snd (triple_of (repeat (-1, 0, 0) 15) B))
                      init_ncm (Z.of_nat (List.length f)) 16 in
  jpl_init o =
  Some (if (List.length f =? 0)%nat then init_map_failed (fields None)
        else init_handle (fields (Some (mapped f)))).
Proof.
  intros Hopen Hfstat Hlseek Hmmap Hlen fields. unfold jpl_init.
  rewrite Hopen, Hfstat, Hlseek, Hmmap. cbn [negb andb].
  repeat (first [ rewrite (read_double_eof f 0x0A5C) by lia
                | rewrite (read_int32_eof f 0x0A5C) by lia
                | rewrite (read_triples_eof f 12 0x0A5C) by lia
                | unfold read_triple at 1 ];
          cbv beta iota zeta).
  change (int_result (0 - 400)) with (Some (-400)). cbv beta iota.
  change (int_result (6 * -400)) with (Some (-2400)). cbv beta iota.
  change (0x0A5C + -2400) with 252. change (252 <? 0) with false. cbv beta iota.
  rewrite (read_triples_eof f 2 252) by lia.
  destruct f as [|b f']; reflexivity.
Qed.
End ShortFiles.

(** X5.  [jpl_init] does not look at what [read] returns, so a file
    that is too short is not refused: for a file of at most 252 bytes
    (an empty one included) whose system calls are granted, every read
    finds the end of the file (the seek by [6 * (0 - 400)] bytes from
    byte 0x0A5C lands on byte 252), and a handle is returned with [beg =
    end = inc = cau = cem = 0.0], [num = 0], every [off] equal to -1,
    every [ncf] and [niv] equal to 0, and [rec = 16]; the handle holds a
    mapping unless the file is empty, when [mmap] has failed. *)
Theorem jpl_init_truncated_file :
  forall (o : host) (f : list byte),
    host_open o = Some f -> host_fstat o = true -> host_lseek o = true -> host_mmap o = true ->
    (List.length f <= 252)%nat ->
    exists jpl : _jpl_s float,
      jpl_init o =
      Some (if (List.length f =? 0)%nat then init_map_failed jpl else init_handle jpl) /\
      jpl_beg jpl = 0%float /\ jpl_end jpl = 0%float /\ jpl_inc jpl = 0%float /\
      jpl_cau jpl = 0%float /\ jpl_cem jpl = 0%float /\ jpl_num jpl = 0 /\
      (forall B, jpl_off jpl B = -1 /\ jpl_ncf jpl B = 0 /\ jpl_niv jpl B = 0) /\
      jpl_rec jpl = 16 /\
      jpl_len jpl = Z.of_nat (List.length f).
Proof.
  intros o f Hopen Hfstat Hlseek Hmmap Hlen.
  rewrite (jpl_init_short o f Hopen Hfstat Hlseek Hmmap Hlen).
  destruct (List.length f =? 0)%nat; eexists; (split; [reflexivity|]);
    cbn [jpl_beg jpl_end jpl_inc jpl_cau jpl_cem jpl_num jpl_off jpl_ncf jpl_niv
         jpl_rec jpl_len];
    repeat split; try reflexivity; now destruct B.
Qed.

Section Layout.

Lemma read_length (f : list byte) (pos : Z) (n : nat) :
  0 <= pos -> pos + Z.of_nat n <= Z.of_nat (List.length f) ->
  List.length (read f pos n) = n.
Proof.
  intros Hpos Hlen. unfold read. rewrite length_firstn, length_skipn. lia.
Qed.

Lemma filled_full (n : nat) (got : list byte) : List.length got = n -> filled n got = got.
Proof.
  intros <-. unfold filled. rewrite Nat.sub_diag. apply app_nil_r.
Qed.

Lemma read_double_full (f : list byte) (pos : Z) :
  0 <= pos -> pos + 8 <= Z.of_nat (List.length f) ->
  read_double f pos = (double_at f pos, pos + 8).
Proof.
  intros Hpos Hlen. unfold read_double, double_at.
  pose proof (read_length f pos 8 Hpos ltac:(lia)) as L.
  now rewrite (filled_full 8 _ L), L.
Qed.

Lemma read_int32_full (f : list byte) (pos : Z) :
  0 <= pos -> pos + 4 <= Z.of_nat (List.length f) ->
  read_int32 f pos = (int32_at f pos, pos + 4).
Proof.
  intros Hpos Hlen. unfold read_int32, int32_at.
  pose proof (read_length f pos 4 Hpos ltac:(lia)) as L.
  now rewrite (filled_full 4 _ L), L.
Qed.

(** The triple stored at an offset. *)
Lemma read_triple_full (f : list byte) (pos : Z) :
  0 <= pos -> pos + 12 <= Z.of_nat (List.length f) ->
  read_triple f pos = ((int32_at f pos, int32_at f (pos + 4), int32_at f (pos + 8)), pos + 12).
Proof.
  intros Hpos Hlen. unfold read_triple.
  rewrite (read_int32_full f pos) by lia.
  rewrite (read_int32_full f (pos + 4)) by lia.
  rewrite (read_int32_full f (pos + 4 + 4)) by lia.
  replace (pos + 4 + 4) with (pos + 8) by lia.
  now replace (pos + 8 + 4) with (pos + 12) by lia.
Qed.

Lemma read_triples_full (f : list byte) (n : nat) :
  forall pos : Z,
    0 <= pos -> pos + 12 * Z.of_nat n <= Z.of_nat (List.length f) ->
    read_triples f n pos =
    (map (fun k => (int32_at f (pos + 12 * Z.of_nat k),
                    int32_at f (pos + 12 * Z.of_nat k + 4),
                    int32_at f (pos + 12 * Z.of_nat k + 8))) (seq 0 n),
     pos + 12 * Z.of_nat n).
Proof.
  induction n as [|n IH]; intros pos Hpos Hlen.
  - cbn. now rewrite Z.add_0_r.
  - cbn [read_triples]. rewrite (read_triple_full f pos) by lia.
    rewrite (IH (pos + 12)) by lia. cbn [seq map]. f_equal.
    + f_equal.
      * now rewrite Z.add_0_r.
      * rewrite <- seq_shift, map_map. apply map_ext. intros k.
        now replace (pos + 12 + 12 * Z.of_nat k) with (pos + 12 * Z.of_nat (S k)) by lia.
    + lia.
Qed.

Lemma le_value_bound (bs : list byte) : 0 <= le_value bs < 256 ^ Z.of_nat (List.length bs).
Proof.
  induction bs as [|b bs IH]; [cbn; lia|].
  cbn [le_value fold_right List.length]. fold (le_value bs).
  rewrite Nat2Z.inj_succ, Z.pow_succ_r by lia.
  pose proof (Byte.to_N_bounded b) as Hb. lia.
Qed.

Lemma int32_at_range (f : list byte) (pos : Z) :
  INT_MIN <= int32_at f pos <= INT_MAX.
Proof.
  unfold int32_at, int32_of_bytes, INT_MIN, INT_MAX.
  pose proof (le_value_bound (read f pos 4)) as Hb.
  assert (Hl : (List.length (read f pos 4) <= 4)%nat) by (unfold read; apply firstn_le_length).
  assert (Hp : 256 ^ Z.of_nat (List.length (read f pos 4)) <= 256 ^ 4)
    by (apply Z.pow_le_mono_r; lia).
  change (256 ^ 4) with (2 ^ 32) in Hp.
  destruct (le_value (read f pos 4) <? 2 ^ 31) eqn:E;
    [apply Z.ltb_lt in E | apply Z.ltb_ge in E]; lia.
Qed.

Lemma adjust_all (ts : list (Z * Z * Z)) :
  Forall (fun t => INT_MIN < fst (fst t) <= INT_MAX) ts ->
  adjust ts = Some (map (fun t => (fst (fst t) - 1, snd (fst t), snd t)) ts).
Proof.
  induction 1 as [|[[off ncf] niv] ts Ht Hts IH]; [reflexivity|].
  cbn [adjust map fst snd]. rewrite IH. unfold int_result.
  cbn [fst] in Ht.
  replace ((INT_MIN <=? off - 1) && (off - 1 <=? INT_MAX)) with true; [reflexivity|].
  symmetry. apply andb_true_iff. split; apply Z.leb_le; lia.
Qed.
End Layout.

(** X3.  The layout of the header that [jpl_init] reads.  When every
    system call succeeds and the file holds the whole header, [jpl_init]
    returns a handle with [beg], [end], [inc] the doubles at bytes 0, 8
    and 16 from byte 0x0A5C, [num] the [int32_t] at byte 24, [cau] and
    [cem] the doubles at bytes 28 and 36, the triples [off, ncf, niv] of
    the first twelve bodies from byte 44 on, the version at byte 188, the
    thirteenth triple at byte 192, and the last two triples [6 * (num -
    400)] bytes after byte 204; every [off] is the stored value minus
    one, and [len] is the size of the file. *)
Theorem jpl_init_header_layout :
  forall (o : host) (f : list byte) (num : Z),
    host_open o = Some f -> host_fstat o = true -> host_lseek o = true -> host_mmap o = true ->
    num = int32_at f (0x0A5C + 24) ->
    Z.of_nat (List.length f) <= INT_MAX ->
    0x0A5C + 204 <= Z.of_nat (List.length f) ->
    0 <= 0x0A5C + 204 + 6 * (num - 400) ->
    0x0A5C + 204 + 6 * (num - 400) + 24 <= Z.of_nat (List.length f) ->
    (forall B, int32_at f (triple_offset num B) <> INT_MIN) ->
    exists jpl : _jpl_s float,
      jpl_init o = Some (init_handle jpl) /\
      jpl_beg jpl = double_at f 0x0A5C /\
      jpl_end jpl = double_at f (0x0A5C + 8) /\
      jpl_inc jpl = double_at f (0x0A5C + 16) /\
      jpl_num jpl = num /\
      jpl_cau jpl = double_at f (0x0A5C + 28) /\
      jpl_cem jpl = double_at f (0x0A5C + 36) /\
      jpl_ver jpl = int32_at f (0x0A5C + 188) /\
      (forall B,
          jpl_off jpl B = int32_at f (triple_offset num B) - 1 /\
          jpl_ncf jpl B = int32_at f (triple_offset num B + 4) /\
          jpl_niv jpl B = int32_at f (triple_offset num B + 8)) /\
      jpl_len jpl = Z.of_nat (List.length f).
Proof.
  intros o f num Hopen Hfstat Hlseek Hmmap Hnum Hmax Hhead Hskip Htail Hne.
  pose proof (int32_at_range f (0x0A5C + 24)) as Hrange. rewrite <- Hnum in Hrange.
  unfold INT_MAX, INT_MIN in Hmax, Hrange.
  unfold jpl_init. rewrite Hopen, Hfstat, Hlseek, Hmmap. cbn [negb andb].
  replace (0 <? Z.of_nat (List.length f)) with true by (symmetry; apply Z.ltb_lt; lia).
  rewrite (read_double_full f 0x0A5C) by lia. cbv beta iota zeta.
  rewrite (read_double_full f (0x0A5C + 8)) by lia. cbv beta iota zeta.
  rewrite (read_double_full f (0x0A5C + 8 + 8)) by lia. cbv beta iota zeta.
  rewrite (read_int32_full f (0x0A5C + 8 + 8 + 8)) by lia. cbv beta iota zeta.
  rewrite (read_double_full f (0x0A5C + 8 + 8 + 8 + 4)) by lia. cbv beta iota zeta.
  rewrite (read_double_full f (0x0A5C + 8 + 8 + 8 + 4 + 8)) by lia. cbv beta iota zeta.
  rewrite (read_triples_full f 12 (0x0A5C + 8 + 8 + 8 + 4 + 8 + 8)) by lia.
  cbv beta iota zeta.
  change (0x0A5C + 8 + 8 + 8 + 4 + 8 + 8 + 12 * Z.of_nat 12) with (0x0A5C + 188).
  rewrite (read_int32_full f (0x0A5C + 188)) by lia. cbv beta iota zeta.
  rewrite (read_triple_full f (0x0A5C + 188 + 4)) by lia. cbv beta iota zeta.
  change (0x0A5C + 8 + 8 + 8) with (0x0A5C + 24). rewrite <- Hnum.
  change (0x0A5C + 188 + 4 + 12) with (0x0A5C + 204).
  assert (E1 : int_result (num - 400) = Some (num - 400)).
  { unfold int_result, INT_MIN, INT_MAX.
    replace ((- 2 ^ 31 <=? num - 400) && (num - 400 <=? 2 ^ 31 - 1)) with true; [reflexivity|].
    symmetry. apply andb_true_iff. split; apply Z.leb_le; lia. }
  assert (E2 : int_result (6 * (num - 400)) = Some (6 * (num - 400))).
  { unfold int_result, INT_MIN, INT_MAX.
    replace ((- 2 ^ 31 <=? 6 * (num - 400)) && (6 * (num - 400) <=? 2 ^ 31 - 1)) with true;
      [reflexivity|].
    symmetry. apply andb_true_iff. split; apply Z.leb_le; lia. }
  rewrite E1, E2.
  replace (0x0A5C + 204 + 6 * (num - 400) <? 0) with false by (symmetry; apply Z.ltb_ge; lia).
  rewrite (read_triples_full f 2 (0x0A5C + 204 + 6 * (num - 400))) by lia.
  cbn [seq map app].
  rewrite adjust_all.
  - eexists. split; [reflexivity|].
    cbn [jpl_beg jpl_end jpl_inc jpl_cau jpl_cem jpl_num jpl_ver jpl_off jpl_ncf jpl_niv
         jpl_len map fst snd].
    repeat split; try reflexivity;
      destruct B; cbn [triple_of jpl_index_pos nth fst snd triple_offset];
      f_equal; try f_equal; lia.
  - repeat apply Forall_cons; try apply Forall_nil; cbn [fst];
      match goal with
      | |- INT_MIN < int32_at f ?x <= INT_MAX =>
          pose proof (int32_at_range f x);
          assert (int32_at f x <> INT_MIN);
          [ first [ replace x with (triple_offset num JPL_MER) by (cbn; lia)
                  | replace x with (triple_offset num JPL_VEN) by (cbn; lia)
                  | replace x with (triple_offset num JPL_EMB) by (cbn; lia)
                  | replace x with (triple_offset num JPL_MAR) by (cbn; lia)
                  | replace x with (triple_offset num JPL_JUP) by (cbn; lia)
                  | replace x with (triple_offset num JPL_SAT) by (cbn; lia)
                  | replace x with (triple_offset num JPL_URA) by (cbn; lia)
                  | replace x with (triple_offset num JPL_NEP) by (cbn; lia)
                  | replace x with (triple_offset num JPL_PLU) by (cbn; lia)
                  | replace x with (triple_offset num JPL_LUN) by (cbn; lia)
                  | replace x with (triple_offset num JPL_SUN) by (cbn; lia)
                  | replace x with (triple_offset num JPL_NUT) by (cbn; lia)
                  | replace x with (triple_offset num JPL_LIB) by (cbn; lia)
                  | replace x with (triple_offset num JPL_MAN) by (cbn; lia)
                  | replace x with (triple_offset num JPL_TDB) by (cbn; lia) ];
            apply Hne
          | lia ]
      end.
Qed.

(** ** jpl_calc: edges of the lookup *)

Section DoubleDifferences.
Import Binary64.

(** Subtracting [+0] changes no double, not even [-0] or NaN. *)
Lemma double_sub_zero (x : float) : (x - 0)%float = x.
Proof.
  apply Prim2SF_inj. rewrite sub_spec. change (Prim2SF 0) with (S754_zero false).
  destruct (Prim2SF x) as [[|]|[|]| |s m e]; reflexivity.
Qed.

(** A finite double minus itself is [+0]. *)
Lemma double_sub_self (x : float) : finite x = true -> (x - x)%float = 0%float.
Proof.
  unfold finite. intros Hx. apply Prim2SF_inj. rewrite sub_spec.
  change (Prim2SF 0) with (S754_zero false).
  destruct (Prim2SF x) as [[|]|[|]| |s m e]; try discriminate; try reflexivity.
  unfold SF64sub. cbn [SFsub]. change IntDef.Z.sub with Z.sub.
  rewrite Z.sub_diag. reflexivity.
Qed.
End DoubleDifferences.

Section LookupEdges.
Context {F : Type} `{Arith F}.
Local Open Scope num_scope.

Lemma _help_outside (n : Z) : (n < 0 \/ 12 < n)%Z -> @_help F _ n = None.
Proof.
  intros Hn. destruct n as [|p|p]; [lia| |reflexivity].
  do 4 (destruct p as [p|p|]; try reflexivity; try lia).
Qed.

Lemma jpl_calc_no_handle (pl : option (_jpl_s F)) (now : option (mpos_s F)) (jde : F) (n m : Z) :
  pl = None \/ now = None \/ (exists p, pl = Some p /\ jpl_map p = None) ->
  jpl_calc pl now jde n m = Some ((-1)%Z, now).
Proof.
  intros [-> | [-> | (p & -> & Hmap)]]; unfold jpl_calc.
  - reflexivity.
  - now destruct pl.
  - destruct now as [now0|]; [|reflexivity]. rewrite Hmap.
    now destruct ((jde <? jpl_beg p) || (jpl_end p <? jde)).
Qed.

Lemma jpl_calc_bad_code (pl : _jpl_s F) (mem : Z -> F) (now0 : mpos_s F) (jde : F) (n m k : Z) :
  covers pl jde k ->
  jpl_map pl = Some mem ->
  (n < 0 \/ 12 < n \/ m < 0 \/ 12 < m)%Z ->
  jpl_calc (Some pl) (Some now0) jde n m = None.
Proof.
  intros (Hbeg & Hend & Hq & Hk & Hk32 & Hrec & Hsz) Hmap Hcode.
  unfold jpl_calc. rewrite Hbeg, Hend, Hmap. cbn [orb].
  rewrite (to_u32_floor _ k Hq Hk) by lia.
  destruct (Z_lt_dec n 0) as [Hn|Hn]; [rewrite (_help_outside n) by lia; reflexivity|].
  destruct (Z_lt_dec 12 n) as [Hn'|Hn']; [rewrite (_help_outside n) by lia; reflexivity|].
  rewrite (_help_outside m) by lia. now destruct (_help n).
Qed.

(** With an arithmetic in which [x - 0] is [x], the state relative to
    the barycentre is the helper's state itself. *)
Lemma jpl_calc_to_bar (Hsub : forall x : F, x - #0 = x)
      (pl : _jpl_s F) (mem : Z -> F) (now0 : mpos_s F) (jde : F) (n k : Z)
      (help_n : _jpl_s F -> (Z -> F) -> F -> option (vec3 F * vec3 F))
      (pos_u pos_v : vec3 F) :
  covers pl jde k ->
  jpl_map pl = Some mem ->
  _help n = Some help_n ->
  help_n pl (record_at mem ((k + 2) * jpl_rec pl)%Z)
         (fmod (jde - jpl_beg pl) (jpl_inc pl) / jpl_inc pl) = Some (pos_u, pos_v) ->
  jpl_calc (Some pl) (Some now0) jde n PLAN_BAR = Some (0%Z, Some (mkmpos pos_u pos_v jde)).
Proof.
  intros Hcov Hmap Hn Hpos.
  rewrite (jpl_calc_inside pl mem now0 jde n PLAN_BAR k help_n _bar pos_u pos_v
                           vecpos_nul vecpos_nul Hcov Hmap Hn eq_refl Hpos eq_refl).
  cbn [vecpos_nul c0 c1 c2]. rewrite !Hsub. now destruct pos_u, pos_v.
Qed.

(** With an arithmetic in which [x - x] is [0] on the helper's state, a
    body relative to itself is at rest at the origin. *)
Lemma jpl_calc_to_self
      (pl : _jpl_s F) (mem : Z -> F) (now0 : mpos_s F) (jde : F) (n k : Z)
      (help_n : _jpl_s F -> (Z -> F) -> F -> option (vec3 F * vec3 F))
      (pos_u pos_v : vec3 F) (zero : F) :
  covers pl jde k ->
  jpl_map pl = Some mem ->
  _help n = Some help_n ->
  help_n pl (record_at mem ((k + 2) * jpl_rec pl)%Z)
         (fmod (jde - jpl_beg pl) (jpl_inc pl) / jpl_inc pl) = Some (pos_u, pos_v) ->
  c0 pos_u - c0 pos_u = zero -> c1 pos_u - c1 pos_u = zero -> c2 pos_u - c2 pos_u = zero ->
  c0 pos_v - c0 pos_v = zero -> c1 pos_v - c1 pos_v = zero -> c2 pos_v - c2 pos_v = zero ->
  jpl_calc (Some pl) (Some now0) jde n n =
  Some (0%Z, Some (mkmpos (mkvec zero zero zero) (mkvec zero zero zero) jde)).
Proof.
  intros Hcov Hmap Hn Hpos H0 H1 H2 H3 H4 H5.
  rewrite (jpl_calc_inside pl mem now0 jde n n k help_n help_n pos_u pos_v
                           pos_u pos_v Hcov Hmap Hn Hn Hpos Hpos).
  now rewrite H0, H1, H2, H3, H4, H5.
Qed.
End LookupEdges.

(** X6.  [jpl_calc] returns -1 and leaves [*now] untouched when the
    handle is NULL, when [now] is NULL, or when the handle's mapping is
    NULL, whatever the epoch and the two body codes. *)
Theorem jpl_calc_null (F : Type) (A : Arith F)
        (pl : option (_jpl_s F)) (now : option (mpos_s F)) (jde : F) (n m : Z) :
  pl = None \/ now = None \/ (exists p, pl = Some p /\ jpl_map p = None) ->
  jpl_calc pl now jde n m = Some (-1, now).
Proof. apply jpl_calc_no_handle. Qed.

Lemma jpl_calc_null_witness :
  jpl_calc (@None (_jpl_s float)) (Some (uninit_now Demo.demo_env)) 16%float 99 (-3) =
  Some (-1, Some (uninit_now Demo.demo_env)).
Proof.
  apply (jpl_calc_null float _ None (Some (uninit_now Demo.demo_env)) 16%float 99 (-3)).
  left. reflexivity.
Defined.

(** X7.  [jpl_calc] does not check its body codes: for an epoch the
    file covers and a mapped file, a code [n] or [m] outside [0 .. 12]
    indexes past the thirteen entries of [_help], and the call has no
    defined result. *)
Theorem jpl_calc_unchecked_code (F : Type) (A : Arith F)
        (pl : _jpl_s F) (mem : Z -> F) (now0 : mpos_s F) (jde : F) (n m k : Z) :
  covers pl jde k ->
  jpl_map pl = Some mem ->
  n < 0 \/ 12 < n \/ m < 0 \/ 12 < m ->
  jpl_calc (Some pl) (Some now0) jde n m = None.
Proof. apply jpl_calc_bad_code. Qed.

Lemma jpl_calc_unchecked_code_witness :
  jpl_calc (Some Demo.demo_jpl) (Some (uninit_now Demo.demo_env)) 16%float 13 PLAN_BAR = None.
Proof.
  apply (jpl_calc_unchecked_code float _ Demo.demo_jpl (fun _ => 1%float)
           (uninit_now Demo.demo_env) 16%float 13 PLAN_BAR 0 demo_covers eq_refl).
  right. left. lia.
Defined.

(** X9.  Relative to the barycentre ([m = PLAN_BAR]), [jpl_calc]
    reports the state of the helper of [n] itself: on the doubles bit for
    bit, since [x - 0.0] is [x] for every double, and in exact
    arithmetic. *)
Theorem jpl_calc_barycentric :
  (forall (pl : _jpl_s float) (mem : Z -> float) (now0 : mpos_s float) (jde : float) (n k : Z)
          (help_n : _jpl_s float -> (Z -> float) -> float -> option (vec3 float * vec3 float))
          (pos_u pos_v : vec3 float),
      covers pl jde k ->
      jpl_map pl = Some mem ->
      _help n = Some help_n ->
      help_n pl (record_at mem ((k + 2) * jpl_rec pl))
             (fmod (jde - jpl_beg pl) (jpl_inc pl) / jpl_inc pl)%num = Some (pos_u, pos_v) ->
      jpl_calc (Some pl) (Some now0) jde n PLAN_BAR = Some (0, Some (mkmpos pos_u pos_v jde))) /\
  (forall (pl : _jpl_s R) (mem : Z -> R) (now0 : mpos_s R) (jde : R) (n k : Z)
          (help_n : _jpl_s R -> (Z -> R) -> R -> option (vec3 R * vec3 R))
          (pos_u pos_v : vec3 R),
      covers pl jde k ->
      jpl_map pl = Some mem ->
      _help n = Some help_n ->
      help_n pl (record_at mem ((k + 2) * jpl_rec pl))
             (fmod (jde - jpl_beg pl) (jpl_inc pl) / jpl_inc pl)%num = Some (pos_u, pos_v) ->
      jpl_calc (Some pl) (Some now0) jde n PLAN_BAR = Some (0, Some (mkmpos pos_u pos_v jde))).
Proof.
  split.
  - intros pl mem now0 jde n k help_n pos_u pos_v. apply jpl_calc_to_bar.
    exact double_sub_zero.
  - intros pl mem now0 jde n k help_n pos_u pos_v. apply jpl_calc_to_bar.
    intros x. cbn [fsub of_Z Arith_R]. ring.
Qed.

(** X10.  A body relative to itself: with [m = n], [jpl_calc] reports
    the zero position and velocity, in exact arithmetic always and on the
    doubles whenever the six components of the helper's state are
    finite. *)
Theorem jpl_calc_same_body :
  (forall (pl : _jpl_s float) (mem : Z -> float) (now0 : mpos_s float) (jde : float) (n k : Z)
          (help_n : _jpl_s float -> (Z -> float) -> float -> option (vec3 float * vec3 float))
          (pos_u pos_v : vec3 float),
      covers pl jde k ->
      jpl_map pl = Some mem ->
      _help n = Some help_n ->
      help_n pl (record_at mem ((k + 2) * jpl_rec pl))
             (fmod (jde - jpl_beg pl) (jpl_inc pl) / jpl_inc pl)%num = Some (pos_u, pos_v) ->
      finite_state pos_u pos_v = true ->
      jpl_calc (Some pl) (Some now0) jde n n =
      Some (0, Some (mkmpos (mkvec 0 0 0) (mkvec 0 0 0) jde)%float)) /\
  (forall (pl : _jpl_s R) (mem : Z -> R) (now0 : mpos_s R) (jde : R) (n k : Z)
          (help_n : _jpl_s R -> (Z -> R) -> R -> option (vec3 R * vec3 R))
          (pos_u pos_v : vec3 R),
      covers pl jde k ->
      jpl_map pl = Some mem ->
      _help n = Some help_n ->
      help_n pl (record_at mem ((k + 2) * jpl_rec pl))
             (fmod (jde - jpl_beg pl) (jpl_inc pl) / jpl_inc pl)%num = Some (pos_u, pos_v) ->
      jpl_calc (Some pl) (Some now0) jde n n =
      Some (0, Some (mkmpos (mkvec 0 0 0) (mkvec 0 0 0) jde)%R)).
Proof.
  split.
  - intros pl mem now0 jde n k help_n pos_u pos_v Hcov Hmap Hn Hpos Hfin.
    unfold finite_state in Hfin. repeat (apply andb_true_iff in Hfin; destruct Hfin as [Hfin ?]).
    apply (jpl_calc_to_self pl mem now0 jde n k help_n pos_u pos_v 0%float Hcov Hmap Hn Hpos);
      now apply double_sub_self.
  - intros pl mem now0 jde n k help_n pos_u pos_v Hcov Hmap Hn Hpos.
    apply (jpl_calc_to_self pl mem now0 jde n k help_n pos_u pos_v 0%R Hcov Hmap Hn Hpos);
      cbn [fsub Arith_R]; ring.
Qed.

Lemma jpl_calc_barycentric_witness :
  let c := (2 / 32 / 86400)%float in
  jpl_calc (Some Demo.demo_jpl) (Some (uninit_now Demo.demo_env)) 16%float PLAN_SOL PLAN_BAR =
  Some (0, Some (mkmpos (mkvec 1 1 1) (mkvec c c c) 16)%float).
Proof.
  intros c.
  exact (proj1 jpl_calc_barycentric Demo.demo_jpl (fun _ => 1%float)
               (uninit_now Demo.demo_env) 16%float PLAN_SOL 0 _sun
               (mkvec 1 1 1)%float (mkvec c c c) demo_covers eq_refl eq_refl eq_refl).
Defined.

Lemma jpl_calc_same_body_witness :
  jpl_calc (Some Demo.demo_jpl) (Some (uninit_now Demo.demo_env)) 16%float PLAN_SOL PLAN_SOL =
  Some (0, Some (mkmpos (mkvec 0 0 0) (mkvec 0 0 0) 16)%float).
Proof.
  exact (proj1 jpl_calc_same_body Demo.demo_jpl (fun _ => 1%float)
               (uninit_now Demo.demo_env) 16%float PLAN_SOL 0 _sun
               (mkvec 1 1 1)%float
               (mkvec (2 / 32 / 86400) (2 / 32 / 86400) (2 / 32 / 86400))%float
               demo_covers eq_refl eq_refl eq_refl eq_refl).
Defined.

Section ExactLookup.
Local Open Scope R_scope.

(** In exact arithmetic an epoch inside record [k] is covered, and its
    fractional time is the quotient less [k]. *)
Lemma covers_record (pl : _jpl_s R) (jde : R) (k : Z) :
  0 < jpl_inc pl ->
  jpl_beg pl + IZR k * jpl_inc pl <= jde < jpl_beg pl + (IZR k + 1) * jpl_inc pl ->
  jde <= jpl_end pl ->
  (0 <= k <= UINT32_MAX - 2)%Z ->
  (0 <= jpl_rec pl)%Z ->
  ((k + 2) * jpl_rec pl <= SIZE_MAX)%Z ->
  covers pl jde k /\
  fdiv (fmod (fsub jde (jpl_beg pl)) (jpl_inc pl)) (jpl_inc pl) =
  (jde - jpl_beg pl) / jpl_inc pl - IZR k.
Proof.
  intros Hinc Hjde Hend Hk Hrec Hsz.
  assert (Hk0 : 0 <= IZR k) by (apply IZR_le; lia).
  set (q := (jde - jpl_beg pl) / jpl_inc pl).
  assert (Hq : IZR k <= q < IZR k + 1).
  { unfold q. split.
    - apply Rmult_le_reg_r with (jpl_inc pl); [exact Hinc|].
      unfold Rdiv. rewrite Rmult_assoc, Rinv_l by lra. lra.
    - apply Rmult_lt_reg_r with (jpl_inc pl); [exact Hinc|].
      unfold Rdiv. rewrite Rmult_assoc, Rinv_l by lra. lra. }
  assert (Hpart : Int_part q = k).
  { symmetry. apply Int_part_spec. lra. }
  split.
  - unfold covers. cbn [flt fsub fdiv of_Z ffloor Arith_R]. fold q.
    unfold Exact.ltb, Exact.floor. rewrite Hpart.
    destruct (Rlt_dec jde (jpl_beg pl)); [nra|].
    destruct (Rlt_dec (jpl_end pl) jde); [lra|].
    destruct (Rlt_dec q 0); [lra|].
    repeat split; try reflexivity; lia.
  - cbn [fsub fdiv fmod Arith_R]. unfold Exact.fmod, Exact.quot. fold q. rewrite Hpart.
    destruct (Rlt_dec q 0); [lra|]. unfold q. field. lra.
Qed.

(** Day 16 of the demo file is the middle of its first record. *)
Lemma demo_exact_day16 :
  covers Demo.demo_jpl_exact 16 0 /\
  fdiv (fmod (fsub 16 (jpl_beg Demo.demo_jpl_exact)) (jpl_inc Demo.demo_jpl_exact))
       (jpl_inc Demo.demo_jpl_exact) = 1 / 2.
Proof.
  destruct (covers_record Demo.demo_jpl_exact 16 0) as [Hcov Ht];
    try (cbn; unfold UINT32_MAX, SIZE_MAX; lia); try (cbn; lra).
  split; [exact Hcov|]. rewrite Ht. cbn. lra.
Qed.

(** The entries of the demo file on day 16: every coefficient is 1, so
    each position component is [T0 + T1 = 1 + x] at [x = 0]. *)
Lemma demo_exact_entry (B : jpl_index) :
  Demo.demo_ncm B = 3%Z ->
  exists u v : vec3 R,
    jpl_work_at Demo.demo_jpl_exact
                (record_at (fun _ => 1) ((0 + 2) * jpl_rec Demo.demo_jpl_exact)) (1 / 2) B =
    Some (u, v) /\
    u = mkvec 1 1 1 /\
    v = mkvec (cheb_c 1 32) (cheb_c 1 32) (cheb_c 1 32).
Proof.
  intros Hncm.
  destruct (exact_rescale (1 / 2) 1) as (b & Hb & Hrange & _ & Hx & _);
    [lra | unfold INT_MAX; lia |].
  assert (b = 0%Z) by lia. subst b.
  pose proof (jpl_work_at_sums Demo.demo_jpl_exact
                (record_at (fun _ => 1) ((0 + 2) * jpl_rec Demo.demo_jpl_exact)) (1 / 2)
                B 0 Hncm ltac:(simpl; lia) Hb
                ltac:(unfold work_fits, INT_MIN, INT_MAX; simpl; lia)) as Hw.
  cbv zeta in Hw. eexists _, _. split; [exact Hw|].
  cbn [jpl_niv jpl_ncf jpl_inc Demo.demo_jpl_exact].
  assert (Hx0 : cheb_x 1 (1 / 2) = 0) by (rewrite Hx; simpl; lra).
  rewrite Hx0.
  unfold cheb_pos, cheb_vel, sum_upto, zrange, record_at.
  cbn [Z.to_nat Pos.to_nat Pos.iter_op seq map fold_left Nat.add chebT chebS
       fadd fmul of_Z Arith_R Z.of_nat].
  split; f_equal; simpl; try lra.
Qed.

(** The last epoch of a file of [n] records is in record [n], at the
    fractional time 0. *)
Lemma covers_end (pl : _jpl_s R) (n : Z) :
  0 < jpl_inc pl ->
  jpl_end pl = jpl_beg pl + IZR n * jpl_inc pl ->
  (0 <= n <= UINT32_MAX - 2)%Z ->
  (0 <= jpl_rec pl)%Z ->
  ((n + 2) * jpl_rec pl <= SIZE_MAX)%Z ->
  covers pl (jpl_end pl) n /\
  fdiv (fmod (fsub (jpl_end pl) (jpl_beg pl)) (jpl_inc pl)) (jpl_inc pl) = 0.
Proof.
  intros Hinc Hend Hn Hrec Hsz.
  destruct (covers_record pl (jpl_end pl) n Hinc) as [Hcov Ht]; try assumption; try lra.
  split; [exact Hcov|]. rewrite Ht, Hend. field. lra.
Qed.

(** At the start of a record a helper's call of [jpl_work] reads the
    entries from [z[off]] on, none before [z[0]] when [off >= 0]. *)
Lemma jpl_work_at_start (pl : _jpl_s R) (z z' : Z -> R) (B : jpl_index) :
  (0 <= jpl_off pl B)%Z ->
  (forall k, (0 <= k)%Z -> z k = z' k) ->
  jpl_work_at pl z 0 B = jpl_work_at pl z' 0 B.
Proof.
  intros Hoff Hz. unfold jpl_work_at.
  assert (Hb : to_int (fmul 0 (of_Z (jpl_niv pl B))) = Some 0%Z).
  { apply (exact_subinterval 0 (jpl_niv pl B) 0); [simpl; lra | unfold INT_MAX; lia]. }
  rewrite (jpl_work_block (fun k => z (jpl_off pl B + k)%Z) (fun k => z' (jpl_off pl B + k)%Z)
             (jpl_ncm pl B) (jpl_ncf pl B) (jpl_niv pl B) 0 (jpl_inc pl) 0 Hb); [reflexivity|].
  intros k Hk. apply Hz. lia.
Qed.

Lemma help_at_start (pl : _jpl_s R) (z z' : Z -> R) (n : Z)
      (h : _jpl_s R -> (Z -> R) -> R -> option (vec3 R * vec3 R)) :
  _help n = Some h ->
  (forall B, (0 <= jpl_off pl B)%Z) ->
  (forall k, (0 <= k)%Z -> z k = z' k) ->
  h pl z 0 = h pl z' 0.
Proof.
  intros Hn Hoff Hz.
  assert (W : forall B, jpl_work_at pl z 0 B = jpl_work_at pl z' 0 B)
    by (intros B; apply jpl_work_at_start; [apply Hoff | exact Hz]).
  unfold _help in Hn.
  destruct n as [|p|p]; try discriminate;
    [|do 4 (try destruct p as [p|p|]); try discriminate];
    injection Hn as <-;
    unfold _bar, _sun, _ear, _emb, _lun, _mer, _ven, _mar, _jup, _sat, _ura, _nep, _plu;
    rewrite ?W; reflexivity.
Qed.

Lemma help_with_map (pl : _jpl_s R) (m : option (Z -> R)) (z : Z -> R) (t : R) (n : Z)
      (h : _jpl_s R -> (Z -> R) -> R -> option (vec3 R * vec3 R)) :
  _help n = Some h -> h (with_map pl m) z t = h pl z t.
Proof.
  intros Hn. unfold _help in Hn.
  destruct n as [|p|p]; try discriminate;
    [|do 4 (try destruct p as [p|p|]); try discriminate];
    injection Hn as <-; reflexivity.
Qed.

(** The entries of the demo header over a record whose doubles all hold
    [v]: with two coefficients, the position is [T0 v + T1 v] and the
    velocity [S1 v c]. *)
Lemma demo_exact_constant (mem : Z -> R) (base : Z) (v t : R) (B : jpl_index) :
  Demo.demo_ncm B = 3%Z ->
  (forall j, (0 <= j)%Z -> mem (base + 8 * j)%Z = v) ->
  0 <= t < 1 ->
  let x := 2 * t - 1 in
  let c := cheb_c 1 32 in
  jpl_work_at (with_map Demo.demo_jpl_exact (Some mem)) (record_at mem base) t B =
  Some (mkvec (v + x * v) (v + x * v) (v + x * v), mkvec (v * c) (v * c) (v * c)).
Proof.
  intros Hncm Hmem Ht x c.
  destruct (exact_rescale t 1) as (b & Hb & Hrange & _ & Hx & _);
    [lra | unfold INT_MAX; lia |].
  assert (b = 0%Z) by lia. subst b.
  pose proof (jpl_work_at_sums (with_map Demo.demo_jpl_exact (Some mem))
                (record_at mem base) t
                B 0 Hncm ltac:(simpl; lia) Hb
                ltac:(unfold work_fits, INT_MIN, INT_MAX; simpl; lia)) as Hw.
  cbv zeta in Hw. rewrite Hw. clear Hw.
  cbn [jpl_niv jpl_ncf jpl_inc jpl_off with_map Demo.demo_jpl_exact].
  assert (Hx0 : cheb_x 1 t = x) by (rewrite Hx; unfold x; simpl; lra).
  rewrite Hx0. fold c.
  unfold cheb_pos, cheb_vel, sum_upto, zrange, record_at.
  cbn [Z.to_nat Pos.to_nat Pos.iter_op seq map fold_left Nat.add chebT chebS
       fadd fmul of_Z Arith_R Z.of_nat].
  change (PosDef.Pos.to_nat 2) with 2%nat. cbn [seq map fold_left Z.of_nat].
  rewrite !Hmem by (destruct B; cbn; lia).
  f_equal; f_equal; simpl; f_equal; ring.
Qed.

(** The last epoch of the demo file, over a mapping that holds 1.0
    inside the file and 5.0 past it: the Sun relative to the Earth is at
    rest position 0 with the velocity [c], computed from the 5.0s. *)
Lemma demo_exact_last_epoch :
  let mem := fun byte : Z => if (byte <? 4 * 688)%Z then 1%R else 5%R in
  let now0 := (mkmpos (mkvec 0 0 0) (mkvec 0 0 0) 0)%R in
  jpl_calc (Some (with_map Demo.demo_jpl_exact (Some mem))) (Some now0) 64%R
           PLAN_SOL PLAN_EAR =
  Some (0%Z, Some (mkmpos (mkvec 0 0 0) (mkvec (cheb_c 1 32) (cheb_c 1 32) (cheb_c 1 32)) 64)).
Proof.
  intros mem now0.
  destruct (covers_end Demo.demo_jpl_exact 2) as [Hcov Ht];
    try (cbn; unfold UINT32_MAX, SIZE_MAX; lia); try (cbn; lra).
  assert (Hmem : forall j, (0 <= j)%Z -> mem (4 * 688 + 8 * j)%Z = 5).
  { intros j Hj. unfold mem.
    destruct (4 * 688 + 8 * j <? 4 * 688)%Z eqn:E; [apply Z.ltb_lt in E; lia | reflexivity]. }
  set (PL := with_map Demo.demo_jpl_exact (Some mem)) in *.
  remember (fdiv (fmod (fsub 64 (jpl_beg PL)) (jpl_inc PL)) (jpl_inc PL)) as T eqn:ET.
  assert (HT : T = 0) by (rewrite ET; exact Ht).
  assert (HT1 : 0 <= T < 1) by lra.
  pose proof (demo_exact_constant mem (4 * 688) 5 T JPL_EMB eq_refl Hmem HT1) as Hemb.
  pose proof (demo_exact_constant mem (4 * 688) 5 T JPL_LUN eq_refl Hmem HT1) as Hlun.
  pose proof (demo_exact_constant mem (4 * 688) 5 T JPL_SUN eq_refl Hmem HT1) as Hsun.
  cbv zeta in Hemb, Hlun, Hsun. fold PL in Hemb, Hlun, Hsun.
  destruct (ear_lun_of_entries _ _ _ _ _ _ _ Hemb Hlun) as [Hear _].
  change (4 * 688)%Z with ((2 + 2) * jpl_rec PL)%Z in Hear, Hsun.
  assert (Hcov' : covers PL 64 2) by exact Hcov.
  pose proof (fun pu pv ru rv (H1 : _sun PL (record_at mem ((2 + 2) * jpl_rec PL)) T = Some (pu, pv))
                  (H2 : _ear PL (record_at mem ((2 + 2) * jpl_rec PL)) T = Some (ru, rv)) =>
                jpl_calc_inside PL mem now0 64 PLAN_SOL PLAN_EAR 2 _sun _ear pu pv ru rv
                                Hcov' eq_refl eq_refl eq_refl
                                (eq_ind T (fun t => _sun PL _ t = _) H1 _ ET)
                                (eq_ind T (fun t => _ear PL _ t = _) H2 _ ET)) as Hcalc.
  rewrite (Hcalc _ _ _ _ Hsun Hear). rewrite HT.
  cbn [c0 c1 c2 vecpos_off fadd fsub fmul fdiv fopp of_Z Arith_R jpl_cem with_map PL
       Demo.demo_jpl_exact].
  repeat f_equal; field.
Qed.
End ExactLookup.

Section AtEnd.
Local Open Scope R_scope.

(** X11.  The last epoch of the file is accepted, and its record lies
    past the file.  In exact arithmetic, for a file of [n] records
    ([end = beg + n * inc], [inc > 0]) that holds them after its two
    header records ([len = (n + 2) * rec]): at [jde = end] the range
    check passes, the record number is [n] and the record addressed
    starts at byte [len], where the file ends; with the two codes
    [PLAN_BAR], whose helper reads nothing, [jpl_calc] returns 0; and
    with any two codes the result does not depend on any byte of the
    file: two mappings that agree from byte [len] on give the same
    result, for offsets [off] that are not negative. *)
Theorem jpl_calc_at_end
        (pl : _jpl_s R) (mem mem' : Z -> R) (now0 : mpos_s R) (a b n : Z) :
  (0 < jpl_inc pl)%R ->
  jpl_end pl = (jpl_beg pl + IZR n * jpl_inc pl)%R ->
  (0 <= n <= UINT32_MAX - 2)%Z ->
  (0 <= jpl_rec pl)%Z ->
  jpl_len pl = ((n + 2) * jpl_rec pl)%Z ->
  (jpl_len pl <= SIZE_MAX)%Z ->
  (forall B, (0 <= jpl_off pl B)%Z) ->
  (forall byte, (jpl_len pl <= byte)%Z -> mem byte = mem' byte) ->
  (covers pl (jpl_end pl) n /\ record_offset n (jpl_rec pl) = jpl_len pl) /\
  jpl_calc (Some (with_map pl (Some mem))) (Some now0) (jpl_end pl) PLAN_BAR PLAN_BAR =
    Some (0%Z, Some (mkmpos (mkvec (0 - 0) (0 - 0) (0 - 0)) (mkvec (0 - 0) (0 - 0) (0 - 0))
                            (jpl_end pl))) /\
  jpl_calc (Some (with_map pl (Some mem))) (Some now0) (jpl_end pl) a b =
  jpl_calc (Some (with_map pl (Some mem'))) (Some now0) (jpl_end pl) a b.
Proof.
  intros Hinc Hend Hn Hrec Hlen Hsz Hoff Hmem.
  destruct (covers_end pl n Hinc Hend Hn Hrec ltac:(lia)) as [Hcov Ht].
  assert (Hro : record_offset n (jpl_rec pl) = jpl_len pl).
  { rewrite Hlen. apply record_offset_exact; lia. }
  assert (Hcovm : forall m, covers (with_map pl m) (jpl_end pl) n) by (intros m; exact Hcov).
  split; [split; assumption|]. split.
  - apply (jpl_calc_inside (with_map pl (Some mem)) mem now0 (jpl_end pl) PLAN_BAR PLAN_BAR n
                           _bar _bar (mkvec 0 0 0) (mkvec 0 0 0) (mkvec 0 0 0) (mkvec 0 0 0)
                           (Hcovm _) eq_refl eq_refl eq_refl eq_refl eq_refl).
  - unfold jpl_calc. cbn [with_map jpl_beg jpl_end jpl_inc jpl_rec jpl_map].
    destruct Hcov as (Hbeg & Hend' & Hq & Hk & Hk32 & Hrec' & Hsz').
    rewrite Hbeg, Hend'. cbn [orb].
    rewrite (to_u32_floor _ n Hq Hk) by lia. rewrite Hro, Ht.
    destruct (_help a) as [ha|] eqn:Ea; [|reflexivity].
    destruct (_help b) as [hb|] eqn:Eb; [|reflexivity].
    rewrite !(help_with_map pl _ _ _ a ha Ea), !(help_with_map pl _ _ _ b hb Eb).
    rewrite (help_at_start pl (record_at mem (jpl_len pl)) (record_at mem' (jpl_len pl)) a ha Ea Hoff),
            (help_at_start pl (record_at mem (jpl_len pl)) (record_at mem' (jpl_len pl)) b hb Eb Hoff);
      [reflexivity | |]; intros k Hk0; unfold record_at; apply Hmem; lia.
Qed.
End AtEnd.

Lemma jpl_calc_at_end_witness :
  let mem := fun byte : Z => if (byte <? 4 * 688)%Z then 1%R else 5%R in
  let mem' := fun byte : Z => if (byte <? 4 * 688)%Z then 7%R else 5%R in
  let now0 := (mkmpos (mkvec 0 0 0) (mkvec 0 0 0) 0)%R in
  (covers Demo.demo_jpl_exact 64%R 2 /\ record_offset 2 688 = (4 * 688)%Z) /\
  jpl_calc (Some (with_map Demo.demo_jpl_exact (Some mem))) (Some now0) 64%R PLAN_BAR PLAN_BAR =
    Some (0%Z, Some (mkmpos (mkvec (0 - 0) (0 - 0) (0 - 0)) (mkvec (0 - 0) (0 - 0) (0 - 0))
                            64)%R) /\
  jpl_calc (Some (with_map Demo.demo_jpl_exact (Some mem))) (Some now0) 64%R PLAN_SOL PLAN_EAR =
  jpl_calc (Some (with_map Demo.demo_jpl_exact (Some mem'))) (Some now0) 64%R PLAN_SOL PLAN_EAR /\
  jpl_calc (Some (with_map Demo.demo_jpl_exact (Some mem))) (Some now0) 64%R PLAN_SOL PLAN_EAR =
  Some (0%Z, Some (mkmpos (mkvec 0 0 0)
                          (mkvec (cheb_c 1 32%R) (cheb_c 1 32%R) (cheb_c 1 32%R)) 64)%R).
Proof.
  intros mem mem' now0.
  destruct (jpl_calc_at_end Demo.demo_jpl_exact mem mem' now0 PLAN_SOL PLAN_EAR 2)
    as (Hrec & Hbar & Hsame);
    try (cbn; lra); try (cbn; unfold UINT32_MAX, SIZE_MAX; lia).
  - intros B. destruct B; cbn; lia.
  - intros byte Hb. cbn in Hb. unfold mem, mem'.
    destruct (byte <? 4 * 688)%Z eqn:E; [apply Z.ltb_lt in E; lia | reflexivity].
  - split; [exact Hrec|]. split; [exact Hbar|]. split; [exact Hsame|].
    exact demo_exact_last_epoch.
Defined.

(** X12.  In exact arithmetic the Moon relative to the Earth, as
    [jpl_calc] computes it from [_lun] and [_ear], is the geocentric
    lunar entry of the file itself, in position and in velocity, whatever
    the Earth/Moon mass ratio [cem] with [1 + cem <> 0]. *)
Theorem moon_relative_to_earth
        (pl : _jpl_s R) (mem : Z -> R) (now0 : mpos_s R) (jde : R) (k : Z)
        (emb_u emb_v lun_u lun_v : vec3 R) :
  covers pl jde k ->
  jpl_map pl = Some mem ->
  (1 + jpl_cem pl <> 0)%R ->
  jpl_work_at pl (record_at mem ((k + 2) * jpl_rec pl))
              (fmod (jde - jpl_beg pl) (jpl_inc pl) / jpl_inc pl)%num JPL_EMB
    = Some (emb_u, emb_v) ->
  jpl_work_at pl (record_at mem ((k + 2) * jpl_rec pl))
              (fmod (jde - jpl_beg pl) (jpl_inc pl) / jpl_inc pl)%num JPL_LUN
    = Some (lun_u, lun_v) ->
  jpl_calc (Some pl) (Some now0) jde PLAN_LUN PLAN_EAR = Some (0, Some (mkmpos lun_u lun_v jde)).
Proof.
  intros Hcov Hmap Hcem Hemb Hlun.
  destruct (ear_lun_of_entries pl _ _ emb_u emb_v lun_u lun_v Hemb Hlun) as [Hear Hmoon].
  rewrite (jpl_calc_inside pl mem now0 jde PLAN_LUN PLAN_EAR k _lun _ear _ _ _ _
                           Hcov Hmap eq_refl eq_refl Hmoon Hear).
  unfold moon_of, vecpos_off. cbn [c0 c1 c2 fadd fsub fmul fdiv fopp of_Z Arith_R].
  destruct lun_u as [a0 a1 a2], lun_v as [b0 b1 b2]. cbn [c0 c1 c2].
  repeat f_equal; field; exact Hcem.
Qed.

(** On day 16 of the demo file the geocentric lunar entry is [(1, 1, 1)]. *)
Lemma moon_relative_to_earth_witness :
  let c := cheb_c 1 32%R in
  jpl_calc (Some Demo.demo_jpl_exact) (Some (mkmpos (mkvec 0 0 0) (mkvec 0 0 0) 0)%R)
           16%R PLAN_LUN PLAN_EAR =
  Some (0, Some (mkmpos (mkvec 1 1 1)%R (mkvec c c c) 16%R)).
Proof.
  intros c.
  destruct demo_exact_day16 as [Hcov Ht].
  destruct (demo_exact_entry JPL_EMB eq_refl) as (eu & ev & Hemb & _ & _).
  destruct (demo_exact_entry JPL_LUN eq_refl) as (lu & lv & Hlun & -> & ->).
  rewrite <- Ht in Hemb, Hlun.
  exact (moon_relative_to_earth Demo.demo_jpl_exact (fun _ => 1%R) _ 16%R 0 _ _ _ _
           Hcov eq_refl ltac:(cbn; lra) Hemb Hlun).
Defined.

Section DoubleNaN.
Import Binary64.

Lemma nan_quotient (x b d : float) :
  not_a_number x = true -> not_a_number ((x - b) / d) = true.
Proof.
  unfold not_a_number. rewrite div_spec, sub_spec.
  destruct (Prim2SF x) as [sx|sx| |sx mx ex]; try discriminate. intros _.
  now destruct (Prim2SF b), (Prim2SF d).
Qed.

Lemma nan_not_below (x y : float) :
  not_a_number x = true -> (x <? y)%float = false /\ (y <? x)%float = false.
Proof.
  unfold not_a_number. rewrite !ltb_spec.
  destruct (Prim2SF x) as [sx|sx| |sx mx ex]; try discriminate. intros _.
  split; [reflexivity|]. now destruct (Prim2SF y) as [[|]|[|]| |[|] my ey].
Qed.

Lemma nan_to_u32 (x : float) : not_a_number x = true -> to_u32 x = None.
Proof.
  intros Hx. unfold to_u32, trunc. cbn [flt ffloor fceil Arith_float].
  destruct (nan_not_below x (#0)%num Hx) as [-> _].
  unfold not_a_number in Hx. unfold floor.
  now destruct (Prim2SF x).
Qed.
End DoubleNaN.

(** X8.  On the doubles a NaN epoch passes the range check of
    [jpl_calc] (it is neither below [beg] nor above [end]); the record
    number is then the conversion of NaN to [u_int32_t], and the call has
    no defined result, whatever the handle with a mapped file. *)
Theorem jpl_calc_nan_epoch :
  forall (pl : _jpl_s float) (mem : Z -> float) (now0 : mpos_s float) (jde : float) (n m : Z),
    jpl_map pl = Some mem ->
    Binary64.not_a_number jde = true ->
    jpl_calc (Some pl) (Some now0) jde n m = None.
Proof.
  intros pl mem now0 jde n m Hmap Hjde. unfold jpl_calc.
  destruct (nan_not_below jde (jpl_beg pl) Hjde) as [H1 _].
  destruct (nan_not_below jde (jpl_end pl) Hjde) as [_ H2].
  cbn [flt fsub fdiv Arith_float]. rewrite H1, H2, Hmap. cbn [orb].
  now rewrite (nan_to_u32 _ (nan_quotient jde (jpl_beg pl) (jpl_inc pl) Hjde)).
Qed.

Lemma jpl_calc_nan_epoch_witness :
  jpl_calc (Some Demo.demo_jpl) (Some (uninit_now Demo.demo_env)) nan PLAN_SOL PLAN_BAR = None.
Proof.
  exact (jpl_calc_nan_epoch Demo.demo_jpl (fun _ => 1%float) (uninit_now Demo.demo_env)
                            nan PLAN_SOL PLAN_BAR eq_refl eq_refl).
Defined.

Section Chasles.
Local Open Scope R_scope.

(** X27.  In exact arithmetic the relative states [jpl_calc] reports at
    one epoch add up: the state of [a] relative to [c] is the state of
    [a] relative to [b] plus the state of [b] relative to [c], in every
    component of position and velocity, whatever the three body codes
    with a helper that returns. *)
Theorem jpl_calc_chasles :
  forall (pl : _jpl_s R) (mem : Z -> R) (now0 : mpos_s R) (jde : R) (a b c k : Z)
         (help_a help_b help_c : _jpl_s R -> (Z -> R) -> R -> option (vec3 R * vec3 R))
         (sa sb sc : vec3 R * vec3 R),
    covers pl jde k ->
    jpl_map pl = Some mem ->
    _help a = Some help_a -> _help b = Some help_b -> _help c = Some help_c ->
    help_a pl (record_at mem ((k + 2) * jpl_rec pl))
           (fdiv (fmod (fsub jde (jpl_beg pl)) (jpl_inc pl)) (jpl_inc pl)) = Some sa ->
    help_b pl (record_at mem ((k + 2) * jpl_rec pl))
           (fdiv (fmod (fsub jde (jpl_beg pl)) (jpl_inc pl)) (jpl_inc pl)) = Some sb ->
    help_c pl (record_at mem ((k + 2) * jpl_rec pl))
           (fdiv (fmod (fsub jde (jpl_beg pl)) (jpl_inc pl)) (jpl_inc pl)) = Some sc ->
    exists ab bc ac : mpos_s R,
      jpl_calc (Some pl) (Some now0) jde a b = Some (0%Z, Some ab) /\
      jpl_calc (Some pl) (Some now0) jde b c = Some (0%Z, Some bc) /\
      jpl_calc (Some pl) (Some now0) jde a c = Some (0%Z, Some ac) /\
      c0 (mpos_u ac) = c0 (mpos_u ab) + c0 (mpos_u bc) /\
      c1 (mpos_u ac) = c1 (mpos_u ab) + c1 (mpos_u bc) /\
      c2 (mpos_u ac) = c2 (mpos_u ab) + c2 (mpos_u bc) /\
      c0 (mpos_v ac) = c0 (mpos_v ab) + c0 (mpos_v bc) /\
      c1 (mpos_v ac) = c1 (mpos_v ab) + c1 (mpos_v bc) /\
      c2 (mpos_v ac) = c2 (mpos_v ab) + c2 (mpos_v bc).
Proof.
  intros pl mem now0 jde a b c k help_a help_b help_c [ua va] [ub vb] [uc vc]
         Hcov Hmap Ha Hb Hc Hsa Hsb Hsc.
  eexists _, _, _.
  rewrite (jpl_calc_inside pl mem now0 jde a b k help_a help_b _ _ _ _ Hcov Hmap Ha Hb Hsa Hsb).
  rewrite (jpl_calc_inside pl mem now0 jde b c k help_b help_c _ _ _ _ Hcov Hmap Hb Hc Hsb Hsc).
  rewrite (jpl_calc_inside pl mem now0 jde a c k help_a help_c _ _ _ _ Hcov Hmap Ha Hc Hsa Hsc).
  split; [reflexivity|]. split; [reflexivity|]. split; [reflexivity|].
  cbn [mpos_u mpos_v c0 c1 c2 fsub Arith_R]. repeat split; ring.
Qed.
End Chasles.

(** Moon, Earth and Sun of the demo file on day 16: the Moon is at 9/5
    on each axis, the Earth at 4/5 and the Sun at 1. *)
Lemma jpl_calc_chasles_witness :
  let now0 := (mkmpos (mkvec 0 0 0) (mkvec 0 0 0) 0)%R in
  exists ab bc ac : mpos_s R,
    jpl_calc (Some Demo.demo_jpl_exact) (Some now0) 16%R PLAN_LUN PLAN_EAR = Some (0, Some ab) /\
    jpl_calc (Some Demo.demo_jpl_exact) (Some now0) 16%R PLAN_EAR PLAN_SOL = Some (0, Some bc) /\
    jpl_calc (Some Demo.demo_jpl_exact) (Some now0) 16%R PLAN_LUN PLAN_SOL = Some (0, Some ac) /\
    (c0 (mpos_u ab) = 1 /\ c0 (mpos_u bc) = - (1 / 5) /\ c0 (mpos_u ac) = 4 / 5)%R /\
    c0 (mpos_u ac) = (c0 (mpos_u ab) + c0 (mpos_u bc))%R /\
    c1 (mpos_u ac) = (c1 (mpos_u ab) + c1 (mpos_u bc))%R /\
    c2 (mpos_u ac) = (c2 (mpos_u ab) + c2 (mpos_u bc))%R /\
    c0 (mpos_v ac) = (c0 (mpos_v ab) + c0 (mpos_v bc))%R /\
    c1 (mpos_v ac) = (c1 (mpos_v ab) + c1 (mpos_v bc))%R /\
    c2 (mpos_v ac) = (c2 (mpos_v ab) + c2 (mpos_v bc))%R.
Proof.
  intros now0.
  destruct demo_exact_day16 as [Hcov Ht].
  destruct (demo_exact_entry JPL_EMB eq_refl) as (eu & ev & Hemb & -> & ->).
  destruct (demo_exact_entry JPL_LUN eq_refl) as (lu & lv & Hlun & -> & ->).
  destruct (demo_exact_entry JPL_SUN eq_refl) as (su & sv & Hsun & -> & ->).
  destruct (ear_lun_of_entries _ _ _ _ _ _ _ Hemb Hlun) as [Hear Hmoon].
  rewrite <- Ht in Hear, Hmoon, Hsun.
  destruct (jpl_calc_chasles Demo.demo_jpl_exact (fun _ => 1%R) now0 16%R
              PLAN_LUN PLAN_EAR PLAN_SOL 0 _lun _ear _sun _ _ _
              Hcov eq_refl eq_refl eq_refl eq_refl Hmoon Hear Hsun)
    as (ab & bc & ac & Hab & Hbc & Hac & Hsum).
  exists ab, bc, ac. split; [exact Hab|]. split; [exact Hbc|]. split; [exact Hac|].
  split; [|exact Hsum].
  rewrite (jpl_calc_inside _ _ now0 16%R PLAN_LUN PLAN_EAR 0 _lun _ear _ _ _ _
                           Hcov eq_refl eq_refl eq_refl Hmoon Hear) in Hab.
  rewrite (jpl_calc_inside _ _ now0 16%R PLAN_EAR PLAN_SOL 0 _ear _sun _ _ _ _
                           Hcov eq_refl eq_refl eq_refl Hear Hsun) in Hbc.
  rewrite (jpl_calc_inside _ _ now0 16%R PLAN_LUN PLAN_SOL 0 _lun _sun _ _ _ _
                           Hcov eq_refl eq_refl eq_refl Hmoon Hsun) in Hac.
  injection Hab as <-. injection Hbc as <-. injection Hac as <-.
  cbn [mpos_u c0 moon_of vecpos_off fadd fsub fmul fdiv fopp of_Z Arith_R jpl_cem
       Demo.demo_jpl_exact].
  repeat split; lra.
Defined.

(** ** A handle from a file that is too short *)

Section TruncatedLookup.
Import Binary64.

(** A double that is neither below nor above zero is a zero or NaN, and
    its quotient by zero is NaN. *)
Lemma around_zero_quotient (x : float) :
  (x <? 0)%float = false -> (0 <? x)%float = false ->
  not_a_number ((x - 0) / 0) = true.
Proof.
  unfold not_a_number. rewrite !ltb_spec, div_spec, sub_spec.
  change (Prim2SF 0) with (S754_zero false).
  destruct (Prim2SF x) as [[|]|[|]| |[|] m e]; try discriminate; reflexivity.
Qed.

Lemma jpl_calc_on_zero_handle (jpl : _jpl_s float) (mem : Z -> float) (now0 : mpos_s float)
      (jde : float) (n m : Z) :
  jpl_beg jpl = 0%float -> jpl_end jpl = 0%float -> jpl_inc jpl = 0%float ->
  jpl_map jpl = Some mem ->
  jpl_calc (Some jpl) (Some now0) jde n m =
  if ((jde <? 0) || (0 <? jde))%float then Some (-1, Some now0) else None.
Proof.
  intros Hbeg Hend Hinc Hmap. unfold jpl_calc. rewrite Hbeg, Hend, Hinc, Hmap.
  cbn [flt fsub fdiv Arith_float].
  destruct (jde <? 0)%float eqn:E1; [reflexivity|].
  destruct (0 <? jde)%float eqn:E2; [reflexivity|].
  cbn [orb]. now rewrite (nan_to_u32 _ (around_zero_quotient jde E1 E2)).
Qed.
End TruncatedLookup.

(** X28.  The handle that [jpl_init] returns for a file of 1 to 252
    bytes, mapped, answers no epoch: [beg], [end] and [inc] are zero, so
    [jpl_calc] on it returns -1 and leaves [*now] as it was for every
    epoch below or above zero, and for the other epochs, the zeros and
    NaN, it converts the NaN quotient by [inc = 0.0] to [u_int32_t],
    which has no defined result. *)
Theorem jpl_init_truncated_lookup :
  forall (o : host) (f : list byte) (now0 : mpos_s float) (jde : float) (n m : Z),
    host_open o = Some f -> host_fstat o = true -> host_lseek o = true -> host_mmap o = true ->
    (1 <= List.length f <= 252)%nat ->
    exists jpl : _jpl_s float,
      jpl_init o = Some (init_handle jpl) /\
      jpl_calc (Some jpl) (Some now0) jde n m =
      if ((jde <? 0) || (0 <? jde))%float then Some (-1, Some now0) else None.
Proof.
  intros o f now0 jde n m Hopen Hfstat Hlseek Hmmap Hlen.
  rewrite (jpl_init_short o f Hopen Hfstat Hlseek Hmmap ltac:(lia)).
  destruct (Nat.eqb_spec (List.length f) 0) as [E|_]; [lia|].
  eexists. split; [reflexivity|].
  now apply (jpl_calc_on_zero_handle _ (mapped f)).
Qed.

Lemma jpl_init_truncated_lookup_witness :
  (exists jpl : _jpl_s float,
      jpl_init Edge.short_host = Some (init_handle jpl) /\
      jpl_calc (Some jpl) (Some (uninit_now Demo.demo_env)) 16%float PLAN_SOL PLAN_BAR =
      Some (-1, Some (uninit_now Demo.demo_env))) /\
  (exists jpl : _jpl_s float,
      jpl_init Edge.short_host = Some (init_handle jpl) /\
      jpl_calc (Some jpl) (Some (uninit_now Demo.demo_env)) (-16)%float PLAN_SOL PLAN_BAR =
      Some (-1, Some (uninit_now Demo.demo_env))) /\
  (exists jpl : _jpl_s float,
      jpl_init Edge.short_host = Some (init_handle jpl) /\
      jpl_calc (Some jpl) (Some (uninit_now Demo.demo_env)) 0%float PLAN_SOL PLAN_BAR = None) /\
  (exists jpl : _jpl_s float,
      jpl_init Edge.short_host = Some (init_handle jpl) /\
      jpl_calc (Some jpl) (Some (uninit_now Demo.demo_env)) nan PLAN_SOL PLAN_BAR = None).
Proof.
  repeat split.
  - exact (jpl_init_truncated_lookup Edge.short_host Edge.short_file
             (uninit_now Demo.demo_env) 16%float PLAN_SOL PLAN_BAR
             eq_refl eq_refl eq_refl eq_refl ltac:(simpl; lia)).
  - exact (jpl_init_truncated_lookup Edge.short_host Edge.short_file
             (uninit_now Demo.demo_env) (-16)%float PLAN_SOL PLAN_BAR
             eq_refl eq_refl eq_refl eq_refl ltac:(simpl; lia)).
  - exact (jpl_init_truncated_lookup Edge.short_host Edge.short_file
             (uninit_now Demo.demo_env) 0%float PLAN_SOL PLAN_BAR
             eq_refl eq_refl eq_refl eq_refl ltac:(simpl; lia)).
  - exact (jpl_init_truncated_lookup Edge.short_host Edge.short_file
             (uninit_now Demo.demo_env) nan PLAN_SOL PLAN_BAR
             eq_refl eq_refl eq_refl eq_refl ltac:(simpl; lia)).
Defined.

(** ** ephem and ast_ephem: first calls and uncovered epochs *)

Section QueryEdges.
Context {F : Type} `{Arith F}.
Local Open Scope num_scope.

Lemma ephem_without_de430 (G : F) (i : Z) (t : F) (o : ephem_out F) (e : env F) :
  ephem_initialized e = false ->
  de430 e = None ->
  ephem G i t o e =
  Exit (put_stderr "could not load DE430 file, fool!\n"
                   (set_ephem_static false None (ephem_spl e) e)).
Proof.
  intros Hi Hd. unfold ephem, bind, ephem_init. now rewrite Hi, Hd.
Qed.

Lemma ephem_without_sb431 (G : F) (i : Z) (t : F) (o : ephem_out F) (e : env F)
      (pl : _jpl_s F) :
  ephem_initialized e = false ->
  de430 e = Some pl ->
  sb431 e = None ->
  ephem G i t o e =
  Exit (put_stderr "could not load sb431-n16 file, fool!\n"
                   (set_ephem_static false (Some pl) None e)).
Proof.
  intros Hi Hd Hs. unfold ephem, bind, ephem_init. now rewrite Hi, Hd, Hs.
Qed.

(** A call that returns leaves the state of a finished first-call
    block. *)
Lemma ephem_returns_started (G : F) (i : Z) (t : F) (o o1 : ephem_out F) (e e1 : env F) :
  ephem G i t o e = Ret o1 e1 ->
  e1 = ephem_started e /\ ephem_initialized e1 = true.
Proof.
  unfold ephem, bind, ephem_init, ephem_started.
  destruct (ephem_initialized e) eqn:Ei.
  - destruct (ephem_code i); [destruct (ephem_pl e) as [pl|]; [|discriminate]|].
    + unfold defined. destruct (ephem_block _ _ _ _ _ _); [|discriminate].
      intros [= _ <-]. now split.
    + intros [= _ <-]. now split.
  - destruct (de430 e) as [pl|]; [|discriminate].
    destruct (sb431 e) as [spl|]; [|discriminate].
    cbn [ephem_pl set_ephem_static].
    destruct (ephem_code i).
    + unfold defined. destruct (ephem_block _ _ _ _ _ _); [|discriminate].
      intros [= _ <-]. now split.
    + intros [= _ <-]. now split.
Qed.

(** Once initialized, a call changes nothing of the process state and
    does not end the process. *)
Lemma ephem_when_initialized (G : F) (i : Z) (t : F) (o : ephem_out F) (e : env F) :
  ephem_initialized e = true ->
  final_state (ephem G i t o e) = e /\
  forall s, ephem G i t o e <> Exit s.
Proof.
  intros Hi. unfold ephem, bind, ephem_init. rewrite Hi.
  destruct (ephem_code i); [destruct (ephem_pl e) as [pl|]|].
  - unfold defined. destruct (ephem_block _ _ _ _ _ _); split; try reflexivity; discriminate.
  - split; [reflexivity | discriminate].
  - split; [reflexivity | discriminate].
Qed.

(** An epoch the file does not cover: [jpl_calc] returns -1, which
    [ephem] does not look at, and the state is computed from what the
    local [now] held. *)
Lemma ephem_uncovered (G : F) (i : Z) (t : F) (o : ephem_out F) (e : env F) (pl : _jpl_s F) :
  (0 <= i <= 10)%Z ->
  ephem_handle e = Some pl ->
  (t <? jpl_beg pl) = true \/ (jpl_end pl <? t) = true ->
  ephem G i t o e =
  Ret (mkout (idx ephem_M (Z.to_nat i) / G)
             (c0 (mpos_u (uninit_now e)) / jpl_cau pl)
             (c1 (mpos_u (uninit_now e)) / jpl_cau pl)
             (c2 (mpos_u (uninit_now e)) / jpl_cau pl)
             (c0 (mpos_v (uninit_now e)) / (jpl_cau pl / #86400))
             (c1 (mpos_v (uninit_now e)) / (jpl_cau pl / #86400))
             (c2 (mpos_v (uninit_now e)) / (jpl_cau pl / #86400)))
      (ephem_started e).
Proof.
  intros Hi Hpl Hout.
  destruct (ephem_init_started e pl Hpl) as (Hinit & Hpl' & Hnow & _).
  unfold ephem, bind. rewrite Hinit.
  destruct (ephem_code i) as [code|] eqn:Hcode.
  - rewrite Hpl'. unfold ephem_block.
    rewrite (jpl_calc_outside pl _ t code PLAN_BAR Hout).
    rewrite (scaled_ephem_M G i Hi), Hnow. reflexivity.
  - exfalso. unfold ephem_code in Hcode.
    assert (Hcases : (i = 0 \/ i = 1 \/ i = 2 \/ i = 3 \/ i = 4 \/ i = 5 \/
                      i = 6 \/ i = 7 \/ i = 8 \/ i = 9 \/ i = 10)%Z) by lia.
    repeat (destruct Hcases as [-> | Hcases]); try discriminate. subst i. discriminate.
Qed.

Lemma scaled_ast_M (G : F) (i : Z) :
  (0 <= i <= 15)%Z ->
  idx (scaled ast_M G) (Z.to_nat i) = idx ast_M (Z.to_nat i) / G.
Proof.
  intros Hi. assert (Hn : (Z.to_nat i < 16)%nat) by lia.
  revert Hn. generalize (Z.to_nat i) as n. intros n Hn.
  do 16 (destruct n as [|n]; [reflexivity|]). lia.
Qed.

Lemma ast_ephem_inside (G : F) (i : Z) (t : F) (e : env F) (spl : spk_s F) :
  (0 <= i <= 15)%Z ->
  ast_handle e = Some spl ->
  ast_ephem G i t e =
  Ret (idx ast_M (Z.to_nat i) / G,
       c0 (mpos_u (spl i t)), c1 (mpos_u (spl i t)), c2 (mpos_u (spl i t)))
      (ast_started e).
Proof.
  intros Hi Hspl. unfold ast_ephem.
  replace ((i <? 0)%Z || (15 <? i)%Z) with false
    by (symmetry; apply orb_false_iff; split; apply Z.ltb_ge; lia).
  unfold bind, ast_handle, ast_started in *.
  destruct (ast_initialized e) eqn:Ei.
  - rewrite Hspl, (scaled_ast_M G i Hi). reflexivity.
  - rewrite Hspl. cbn [ast_spl set_ast_static]. rewrite (scaled_ast_M G i Hi). reflexivity.
Qed.

Lemma ast_ephem_without_sb431 (G : F) (i : Z) (t : F) (e : env F) :
  (0 <= i <= 15)%Z ->
  ast_initialized e = false ->
  sb431 e = None ->
  ast_ephem G i t e =
  Exit (put_stderr "could not load sb431-n16 file, fool!\n" (set_ast_static false None e)).
Proof.
  intros Hi Hinit Hs. unfold ast_ephem.
  replace ((i <? 0)%Z || (15 <? i)%Z) with false
    by (symmetry; apply orb_false_iff; split; apply Z.ltb_ge; lia).
  unfold bind. now rewrite Hinit, Hs.
Qed.
End QueryEdges.

(** X13.  On its first call [ephem] ends the process when a file is
    missing, whatever the body index (one outside the table included) and
    the epoch: without the DE430 file it writes "could not load DE430
    file, fool!" to [stderr] and exits; with it but without the asteroid
    kernel it writes "could not load sb431-n16 file, fool!" and exits. *)
Theorem ephem_missing_files :
  forall (F : Type) (A : Arith F) (G : F) (i : Z) (t : F) (o : ephem_out F) (e : env F),
    ephem_initialized e = false ->
    (de430 e = None ->
     ephem G i t o e =
     Exit (put_stderr "could not load DE430 file, fool!\n"
                      (set_ephem_static false None (ephem_spl e) e))) /\
    (forall pl : _jpl_s F,
        de430 e = Some pl ->
        sb431 e = None ->
        ephem G i t o e =
        Exit (put_stderr "could not load sb431-n16 file, fool!\n"
                         (set_ephem_static false (Some pl) None e))).
Proof.
  intros F A G i t o e Hi. split.
  - intros Hd. now apply ephem_without_de430.
  - intros pl Hd Hs. now apply ephem_without_sb431.
Qed.

(** X14.  [ephem] initializes once.  After a call that returned, the
    process state is that of a finished first-call block, and every
    later call, whatever its arguments, leaves the process state as it
    is (nothing more is printed, no file is opened again) and does not
    end the process. *)
Theorem ephem_initialized_once :
  forall (F : Type) (A : Arith F) (G : F) (i : Z) (t : F) (o o1 : ephem_out F) (e e1 : env F),
    ephem G i t o e = Ret o1 e1 ->
    e1 = ephem_started e /\
    forall (G' : F) (i' : Z) (t' : F) (o' : ephem_out F),
      final_state (ephem G' i' t' o' e1) = e1 /\
      forall s, ephem G' i' t' o' e1 <> Exit s.
Proof.
  intros F A G i t o o1 e e1 Hrun.
  destruct (ephem_returns_started G i t o o1 e e1 Hrun) as [He Hi].
  split; [exact He|]. intros G' i' t' o'. now apply ephem_when_initialized.
Qed.

(** X15.  An epoch the file does not cover is not reported by [ephem]:
    [jpl_calc] returns -1 without writing [now], [ephem] does not look at
    the return value, and for a body index [0 .. 10] it returns the mass
    [M[i] / G] with the position and velocity computed from whatever the
    local [now] held, divided by [cau] and by [cau / 86400]; nothing is
    written to [stderr]. *)
Theorem ephem_epoch_outside :
  forall (F : Type) (A : Arith F) (G : F) (i : Z) (t : F) (o : ephem_out F) (e : env F)
         (pl : _jpl_s F),
    0 <= i <= 10 ->
    ephem_handle e = Some pl ->
    flt t (jpl_beg pl) = true \/ flt (jpl_end pl) t = true ->
    ephem G i t o e =
    Ret (mkout (idx ephem_M (Z.to_nat i) / G)
               (c0 (mpos_u (uninit_now e)) / jpl_cau pl)
               (c1 (mpos_u (uninit_now e)) / jpl_cau pl)
               (c2 (mpos_u (uninit_now e)) / jpl_cau pl)
               (c0 (mpos_v (uninit_now e)) / (jpl_cau pl / #86400))
               (c1 (mpos_v (uninit_now e)) / (jpl_cau pl / #86400))
               (c2 (mpos_v (uninit_now e)) / (jpl_cau pl / #86400)))%num
        (ephem_started e) /\
    stderr (ephem_started e) = stderr e /\
    messages (ephem_started e) = messages e.
Proof.
  intros F A G i t o e pl Hi Hpl Hout.
  destruct (ephem_init_started e pl Hpl) as (_ & _ & _ & Herr & Hmsg).
  split; [now apply ephem_uncovered | split; assumption].
Qed.

(** X16.  For an asteroid index [0 .. 15], [ast_ephem] returns the
    catalog value [M[i]] divided by [G] and the position the kernel
    reports for [i] at [t], unscaled, once the kernel is loaded (or can
    be, on a first call, which prints "asteroid initialization
    complete"); on a first call without the kernel it writes "could not
    load sb431-n16 file, fool!" to [stderr] and ends the process. *)
Theorem ast_ephem_query :
  forall (F : Type) (A : Arith F) (G : F) (i : Z) (t : F) (e : env F),
    0 <= i <= 15 ->
    (forall spl : spk_s F,
        ast_handle e = Some spl ->
        ast_ephem G i t e =
        Ret (idx ast_M (Z.to_nat i) / G,
             c0 (mpos_u (spl i t)), c1 (mpos_u (spl i t)), c2 (mpos_u (spl i t)))%num
            (ast_started e)) /\
    (ast_initialized e = false ->
     sb431 e = None ->
     ast_ephem G i t e =
     Exit (put_stderr "could not load sb431-n16 file, fool!\n" (set_ast_static false None e))).
Proof.
  intros F A G i t e Hi. split.
  - intros spl Hspl. now apply ast_ephem_inside.
  - intros Hinit Hs. now apply ast_ephem_without_sb431.
Qed.

(** ** The asteroid loop and what the routine leaves alone *)

Section AsteroidFacts.
Context {F : Type} `{Arith F}.
Variable ast_query : F -> Z -> F -> M (env F) (F * F * F * F).

Lemma kick_is_pull (G : F) (b : ephem_out F) (p : reb_particle F) :
  kick G (o_m b) (o_x b) (o_y b) (o_z b) p = newton_pull G b p.
Proof. reflexivity. Qed.

Lemma asteroid_loop_spec (G t : F) (N : Z) (xs ys zs : F) (n : nat) :
  forall (i : Z) (e : env F) (ps : list (reb_particle F))
         (bodies : list (ephem_out F)) (e' : env F),
    (Z.to_nat N <= List.length ps)%nat ->
    ast_trace ast_query G t xs ys zs n i e = Ret bodies e' ->
    exists ps',
      asteroid_loop ast_query G t N xs ys zs n i (e, ps) = Ret tt (e', ps') /\
      List.length ps' = List.length ps /\
      List.length bodies = n /\
      forall j,
        nth_error ps' j =
        if (j <? Z.to_nat N)%nat
        then option_map (pulled G bodies) (nth_error ps j)
        else nth_error ps j.
Proof.
  induction n as [|n IH]; intros i e ps bodies e' HN Htrace.
  - cbn in Htrace. injection Htrace as <- <-.
    exists ps. repeat split. intros j.
    destruct (j <? Z.to_nat N)%nat; [|reflexivity].
    destruct (nth_error ps j); reflexivity.
  - cbn [ast_trace] in Htrace. unfold bind in Htrace.
    destruct (ast_query G i t e) as [r e1|e1|e1] eqn:Eq; try discriminate.
    destruct (ast_trace ast_query G t xs ys zs n (i + 1) e1) as [bs e2|e2|e2] eqn:Et;
      try discriminate.
    cbn in Htrace. injection Htrace as <- <-.
    destruct r as [[[m x] y] z].
    destruct (kick_loop_spec G m (fadd x xs) (fadd y ys) (fadd z zs) (Z.to_nat N) 0 ps)
      as (ps1 & Hk & Hl1 & Hn1); [lia|].
    destruct (IH (i + 1) e1 ps1 bs e2) as (ps' & Hrun & Hl & Hb & Hnth);
      [lia | exact Et |].
    exists ps'. split; [|split; [lia | split; [simpl; lia|]]].
    + cbn [asteroid_loop]. unfold bind, lift, on_particles. cbn [fst snd].
      rewrite Eq. cbn [fst snd]. rewrite Hk. exact Hrun.
    + intros j. rewrite Hnth, Hn1. cbn [Nat.leb andb].
      replace (j <? 0 + Z.to_nat N)%nat with (j <? Z.to_nat N)%nat by reflexivity.
      destruct (j <? Z.to_nat N)%nat; [|reflexivity].
      destruct (nth_error ps j); reflexivity.
Qed.
End AsteroidFacts.

Section AsteroidQueries.
Context {F : Type} `{Arith F}.

Lemma ast_started_handle (e : env F) (spl : spk_s F) :
  ast_handle e = Some spl ->
  ast_handle (ast_started e) = Some spl /\ ast_started (ast_started e) = ast_started e.
Proof.
  unfold ast_handle, ast_started. destruct (ast_initialized e) eqn:Ei.
  - rewrite Ei. now split.
  - intros Hs. cbn [ast_initialized set_ast_static ast_spl]. now split.
Qed.

(** With the kernel at hand, the queries for the asteroids [i .. i+n-1]
    of the catalog all return. *)
Lemma ast_trace_catalog (G t xs ys zs : F) (spl : spk_s F) (n : nat) :
  forall (i : Z) (e : env F),
    (0 <= i)%Z -> (i + Z.of_nat n <= 16)%Z ->
    ast_handle e = Some spl ->
    ast_trace ast_ephem G t xs ys zs n i e =
    Ret (map (fun k => ast_body xs ys zs
                         (fdiv (idx ast_M (Z.to_nat k)) G,
                          c0 (mpos_u (spl k t)), c1 (mpos_u (spl k t)), c2 (mpos_u (spl k t))))
             (map (fun k => (i + Z.of_nat k)%Z) (seq 0 n)))
        (match n with O => e | S _ => ast_started e end).
Proof.
  induction n as [|n IH]; intros i e Hi Hn Hspl; [reflexivity|].
  cbn [ast_trace]. unfold bind.
  rewrite (ast_ephem_inside G i t e spl) by (assumption || lia).
  destruct (ast_started_handle e spl Hspl) as [Hspl' Hidem].
  rewrite (IH (i + 1)%Z (ast_started e)) by (assumption || lia).
  unfold ret. f_equal.
  - cbn [seq map]. rewrite Z.add_0_r. f_equal.
    rewrite <- seq_shift, !map_map. apply map_ext. intros k. 
    now replace (i + 1 + Z.of_nat k)%Z with (i + Z.of_nat (S k))%Z by lia.
  - destruct n; [reflexivity | exact Hidem].
Qed.

Lemma ast_trace_bodies (G t xs ys zs : F) (spl : spk_s F) (n : nat) (e : env F) :
  (n <= 16)%nat ->
  ast_handle e = Some spl ->
  ast_trace ast_ephem G t xs ys zs n 0 e =
  Ret (map (fun k => mkout (fdiv (idx ast_M (Z.to_nat k)) G)
                           (fadd (c0 (mpos_u (spl k t))) xs)
                           (fadd (c1 (mpos_u (spl k t))) ys)
                           (fadd (c2 (mpos_u (spl k t))) zs) (of_Z 0) (of_Z 0) (of_Z 0))
           (zrange (Z.of_nat n)))
      (match n with O => e | S _ => ast_started e end).
Proof.
  intros Hn Hspl.
  rewrite (ast_trace_catalog G t xs ys zs spl n 0 e) by (assumption || lia).
  unfold zrange. rewrite Nat2Z.id. f_equal.
Qed.
End AsteroidQueries.

(** X17.  The loop over the asteroids.  Whatever the asteroid query:
    when the queries for the asteroids [0 .. n-1] return, the loop
    returns, and each particle [j < N] has had [-G m dr / |dr|^3] added
    to its acceleration once for each asteroid, in this order, where the
    asteroid's position is the queried one plus the Sun's [(xs, ys, zs)];
    the other particles are untouched.  With [ast_ephem] and the kernel
    at hand, the queries for [n <= 16] asteroids return, with the masses
    [M[k] / G] and the kernel's positions. *)
Theorem asteroid_accumulation :
  (forall (F : Type) (A : Arith F)
          (ast_query : F -> Z -> F -> M (env F) (F * F * F * F))
          (G t : F) (N : Z) (xs ys zs : F) (n : nat) (e : env F)
          (ps : list (reb_particle F)) (bodies : list (ephem_out F)) (e' : env F),
      (Z.to_nat N <= List.length ps)%nat ->
      ast_trace ast_query G t xs ys zs n 0 e = Ret bodies e' ->
      exists ps' : list (reb_particle F),
        asteroid_loop ast_query G t N xs ys zs n 0 (e, ps) = Ret tt (e', ps') /\
        List.length ps' = List.length ps /\
        List.length bodies = n /\
        forall j : nat,
          nth_error ps' j =
          if (j <? Z.to_nat N)%nat
          then option_map (pulled G bodies) (nth_error ps j)
          else nth_error ps j) /\
  (forall (F : Type) (A : Arith F) (G t xs ys zs : F) (spl : spk_s F) (n : nat) (e : env F),
      (n <= 16)%nat ->
      ast_handle e = Some spl ->
      ast_trace ast_ephem G t xs ys zs n 0 e =
      Ret (map (fun k => mkout (idx ast_M (Z.to_nat k) / G)
                               (c0 (mpos_u (spl k t)) + xs)
                               (c1 (mpos_u (spl k t)) + ys)
                               (c2 (mpos_u (spl k t)) + zs) #0 #0 #0)%num
               (zrange (Z.of_nat n)))
          (match n with O => e | S _ => ast_started e end)).
Proof.
  split.
  - intros F A ast_query G t N xs ys zs n e ps bodies e' HN Htrace.
    exact (asteroid_loop_spec ast_query G t N xs ys zs n 0 e ps bodies e' HN Htrace).
  - intros F A G t xs ys zs spl n e Hn Hspl. now apply ast_trace_bodies.
Qed.

(** ** What the routine never touches *)

Section FrameFacts.
Context {F : Type} `{Arith F}.

Lemma keeps_ret {A : Type} (a : A) : keeps_frame F (ret a).
Proof. intros s. reflexivity. Qed.

Lemma keeps_fault {A : Type} : keeps_frame F (@fault (machine F) A).
Proof. intros s. reflexivity. Qed.

Lemma keeps_defined {A : Type} (o : option A) : keeps_frame F (defined o).
Proof. destruct o; [apply keeps_ret | apply keeps_fault]. Qed.

Lemma keeps_lift {A : Type} (c : M (env F) A) : keeps_frame F (lift c).
Proof. intros s. unfold lift. now destruct (c (fst s)). Qed.

Lemma keeps_bind {A B : Type} (c : M (machine F) A) (k : A -> M (machine F) B) :
  keeps_frame F c -> (forall a, keeps_frame F (k a)) -> keeps_frame F (bind c k).
Proof.
  intros Hc Hk s. unfold bind. specialize (Hc s).
  destruct (c s) as [a s'|s'|s']; cbn [final_state] in *; try exact Hc.
  now rewrite (Hk a s').
Qed.

Lemma frame_store (ps : list (reb_particle F)) (j : nat) (p p' : reb_particle F) :
  nth_error ps j = Some p -> frame p' = frame p ->
  map frame (store ps j p') = map frame ps.
Proof.
  revert j. induction ps as [|q ps IH]; intros [|j] Hnth Hf; cbn in *; try discriminate.
  - injection Hnth as ->. now rewrite Hf.
  - now rewrite (IH j Hnth Hf).
Qed.

Lemma frame_kick_loop (G m x y z : F) (n : nat) :
  forall (j : nat) (ps ps' : list (reb_particle F)),
    kick_loop G m x y z n j ps = Some ps' -> map frame ps' = map frame ps.
Proof.
  induction n as [|n IH]; intros j ps ps' Hrun; cbn [kick_loop] in Hrun.
  - now injection Hrun as <-.
  - destruct (nth_error ps j) as [p|] eqn:Ep; [|discriminate].
    rewrite (IH _ _ _ Hrun). now apply frame_store with (p := p).
Qed.

Lemma keeps_on_particles (f : list (reb_particle F) -> option (list (reb_particle F))) :
  (forall ps ps', f ps = Some ps' -> map frame ps' = map frame ps) ->
  keeps_frame F (on_particles f).
Proof.
  intros Hf s. unfold on_particles. destruct (f (snd s)) as [ps'|] eqn:E; [|reflexivity].
  cbn. now apply Hf.
Qed.

Lemma keeps_gr_particles (mu C2 : F) (n : nat) :
  forall i : nat, keeps_frame F (gr_particles mu C2 n i).
Proof.
  induction n as [|n IH]; intros i; [apply keeps_ret|].
  intros s. cbn [gr_particles].
  destruct (nth_error (snd s) i) as [p|] eqn:Ep; [|reflexivity].
  unfold bind, lift. rewrite gr_particle_run.
  unfold on_particles. cbn [fst snd]. rewrite (IH (S i)). cbn [snd].
  now apply frame_store with (p := p).
Qed.

Variable query : F -> Z -> F -> ephem_out F -> M (env F) (ephem_out F).
Variable ast_query : F -> Z -> F -> M (env F) (F * F * F * F).

Lemma keeps_major_loop (G t : F) (N : Z) (n : nat) :
  forall (i : Z) (o : ephem_out F), keeps_frame F (major_loop query G t N n i o).
Proof.
  induction n as [|n IH]; intros i o; cbn [major_loop]; [apply keeps_ret|].
  apply keeps_bind; [apply keeps_lift|]. intros o'.
  apply keeps_bind; [|intros _; apply IH].
  apply keeps_on_particles. intros ps ps'. apply frame_kick_loop.
Qed.

Lemma keeps_asteroid_loop (G t : F) (N : Z) (xs ys zs : F) (n : nat) :
  forall i : Z, keeps_frame F (asteroid_loop ast_query G t N xs ys zs n i).
Proof.
  induction n as [|n IH]; intros i; cbn [asteroid_loop]; [apply keeps_ret|].
  apply keeps_bind; [apply keeps_lift|]. intros [[[m x] y] z].
  apply keeps_bind; [|intros _; apply IH].
  apply keeps_on_particles. intros ps ps'. apply frame_kick_loop.
Qed.

Lemma keeps_ephemeris_forces (sim : reb_simulation F) (force : rebx_force F) (N : Z) :
  keeps_frame F (ephemeris_forces query ast_query sim force N).
Proof.
  unfold ephemeris_forces.
  destruct (rebx_get_param (ap force) "N_ephem"); [|apply keeps_lift].
  destruct (rebx_get_param (ap force) "c"); [|apply keeps_lift].
  apply keeps_bind; [apply keeps_defined|]. intros c_val.
  apply keeps_bind; [intros s; reflexivity|]. intros locals.
  apply keeps_bind; [apply keeps_lift|]. intros oe.
  apply keeps_bind; [apply keeps_defined|]. intros n_ephem.
  apply keeps_bind; [apply keeps_major_loop|]. intros o.
  apply keeps_bind; [apply keeps_lift|]. intros os.
  apply keeps_bind; [apply keeps_defined|]. intros n_ast.
  apply keeps_bind; [apply keeps_asteroid_loop|]. intros _.
  apply keeps_gr_particles.
Qed.
End FrameFacts.

(** X20.  However [rebx_ephemeris_forces] ends (it returns, the process
    exits in a query, or an access is undefined), the particle array has
    the length it had, and every particle has the position, the velocity
    and the mass it had: only accelerations change. *)
Theorem forces_keep_frame :
  forall (F : Type) (A : Arith F) (sim : reb_simulation F) (force : rebx_force F) (N : Z)
         (e : env F) (ps : list (reb_particle F)),
    List.length (snd (final_state (rebx_ephemeris_forces sim force N (e, ps)))) =
    List.length ps /\
    forall (j : nat) (p : reb_particle F),
      nth_error ps j = Some p ->
      exists p' : reb_particle F,
        nth_error (snd (final_state (rebx_ephemeris_forces sim force N (e, ps)))) j = Some p' /\
        p_x p' = p_x p /\ p_y p' = p_y p /\ p_z p' = p_z p /\
        p_vx p' = p_vx p /\ p_vy p' = p_vy p /\ p_vz p' = p_vz p /\
        p_m p' = p_m p.
Proof.
  intros F A sim force N e ps.
  pose proof (keeps_ephemeris_forces ephem ast_ephem sim force N (e, ps)) as K.
  cbn [snd] in K. fold (rebx_ephemeris_forces sim force N) in K.
  set (ps' := snd (final_state (rebx_ephemeris_forces sim force N (e, ps)))) in *.
  split.
  - rewrite <- (length_map frame ps'), K. apply length_map.
  - intros j p Hj.
    pose proof (map_nth_error frame j ps Hj) as E. rewrite <- K in E.
    rewrite nth_error_map in E.
    destruct (nth_error ps' j) as [p'|]; [|discriminate].
    exists p'. split; [reflexivity|]. cbn in E. unfold frame in E.
    injection E as -> -> -> -> -> -> ->. repeat split; reflexivity.
Qed.

(** X21.  With [N_ephem] and [c] set, a first call of
    [rebx_ephemeris_forces] in a process that cannot open the DE430 file
    ends the process in its first query, the one for the Earth, with the
    message of [ephem] on [stderr] and every particle as it was,
    whatever [N] and the particles (none included). *)
Theorem forces_without_ephemeris_file :
  forall (F : Type) (A : Arith F) (sim : reb_simulation F) (force : rebx_force F) (N : Z)
         (e : env F) (ps : list (reb_particle F)) (v : rebx_value F) (cv : F),
    rebx_get_param (ap force) "N_ephem" = Some v ->
    rebx_get_param (ap force) "c" = Some (REBX_DOUBLE cv) ->
    ephem_initialized e = false ->
    de430 e = None ->
    rebx_ephemeris_forces sim force N (e, ps) =
    Exit (put_stderr "could not load DE430 file, fool!\n"
                     (set_ephem_static false None (ephem_spl e) e), ps).
Proof.
  intros F A sim force N e ps v cv HN Hc Hi Hd.
  unfold rebx_ephemeris_forces, ephemeris_forces. rewrite HN, Hc.
  unfold bind at 1. cbn [defined deref_double ret].
  unfold bind at 1. unfold bind at 1. unfold lift. cbn [fst snd].
  now rewrite (ephem_without_de430 _ _ _ _ e Hi Hd).
Qed.

(** ** Pulls and iterations at the edges *)

Section ZeroOrNaN.
Import Binary64.

Lemma zn_div (x d : float) : zero_or_nan x = true -> zero_or_nan (x / d) = true.
Proof.
  unfold zero_or_nan, zero, not_a_number. rewrite div_spec.
  destruct (Prim2SF x) as [sx|sx| |sx mx ex], (Prim2SF d) as [sd|sd| |sd md ed];
    try discriminate; reflexivity.
Qed.

Lemma zn_mul (x y : float) :
  zero_or_nan x = true -> zero_or_nan y = true -> zero_or_nan (x * y) = true.
Proof.
  unfold zero_or_nan, zero, not_a_number. rewrite mul_spec.
  destruct (Prim2SF x) as [sx|sx| |sx mx ex], (Prim2SF y) as [sy|sy| |sy my ey];
    try discriminate; reflexivity.
Qed.

Lemma zn_add (x y : float) :
  zero_or_nan x = true -> zero_or_nan y = true -> zero_or_nan (x + y) = true.
Proof.
  unfold zero_or_nan, zero, not_a_number. rewrite add_spec.
  destruct (Prim2SF x) as [sx|sx| |sx mx ex], (Prim2SF y) as [sy|sy| |sy my ey];
    try discriminate; try reflexivity.
  intros _ _. now destruct sx, sy.
Qed.

Lemma zn_sub (x y : float) :
  zero_or_nan x = true -> zero_or_nan y = true -> zero_or_nan (x - y) = true.
Proof.
  unfold zero_or_nan, zero, not_a_number. rewrite sub_spec.
  destruct (Prim2SF x) as [sx|sx| |sx mx ex], (Prim2SF y) as [sy|sy| |sy my ey];
    try discriminate; try reflexivity.
  intros _ _. now destruct sx, sy.
Qed.

(** A zero or NaN over a zero or NaN is NaN, and NaN is below nothing. *)
Lemma zn_ratio_not_below (x y w : float) :
  zero_or_nan x = true -> zero_or_nan y = true -> (x / y <? w)%float = false.
Proof.
  unfold zero_or_nan, zero, not_a_number. rewrite ltb_spec, div_spec.
  destruct (Prim2SF x) as [sx|sx| |sx mx ex], (Prim2SF y) as [sy|sy| |sy my ey];
    try discriminate; reflexivity.
Qed.

Lemma zero_zn (x : float) : zero x = true -> zero_or_nan x = true.
Proof. unfold zero_or_nan. now intros ->. Qed.
End ZeroOrNaN.

Section GrAtRest.
Import Binary64.

Lemma gr_update_at_rest (p : reb_particle float) (mu ri C2 : float) (s : gr_state) :
  at_rest p = true ->
  let s' := gr_update p mu ri C2 s in
  zero_or_nan (c0 (gr_vi s')) = true /\ zero_or_nan (c1 (gr_vi s')) = true /\
  zero_or_nan (c2 (gr_vi s')) = true /\ zero_or_nan (gr_vi2 s') = true.
Proof.
  unfold at_rest. intros Hp.
  apply andb_true_iff in Hp. destruct Hp as [Hp Hz].
  apply andb_true_iff in Hp. destruct Hp as [Hx Hy].
  apply zero_zn in Hx, Hy, Hz.
  cbn [gr_update gr_vi gr_vi2 c0 c1 c2 fadd fmul fdiv fsub Arith_float].
  pose proof (zn_div _ (1 - gr_A s)%float Hx) as Vx.
  pose proof (zn_div _ (1 - gr_A s)%float Hy) as Vy.
  pose proof (zn_div _ (1 - gr_A s)%float Hz) as Vz.
  repeat split; [exact Vx | exact Vy | exact Vz |].
  repeat apply zn_add; apply zn_mul; first [exact Vx | exact Vy | exact Vz].
Qed.

Lemma gr_not_converged_at_rest (p : reb_particle float) (mu ri C2 : float) (s : gr_state) :
  at_rest p = true ->
  zero_or_nan (c0 (gr_vi s)) = true -> zero_or_nan (c1 (gr_vi s)) = true ->
  zero_or_nan (c2 (gr_vi s)) = true ->
  gr_converged s (gr_update p mu ri C2 s) = false.
Proof.
  intros Hp H0 H1 H2.
  destruct (gr_update_at_rest p mu ri C2 s Hp) as (V0 & V1 & V2 & V).
  unfold gr_converged. cbn [fadd fmul fdiv fsub flt Arith_float].
  apply zn_ratio_not_below; [|exact V].
  repeat apply zn_add; apply zn_mul; now apply zn_sub.
Qed.

Lemma gr_loop_at_rest (p : reb_particle float) (mu ri C2 : float) (n : nat) :
  at_rest p = true ->
  forall (q : Z) (s : gr_state),
    zero_or_nan (c0 (gr_vi s)) = true -> zero_or_nan (c1 (gr_vi s)) = true ->
    zero_or_nan (c2 (gr_vi s)) = true ->
    fst (gr_loop p mu ri C2 n q s) = q + Z.of_nat n.
Proof.
  intros Hp. induction n as [|n IH]; intros q s H0 H1 H2; cbn [gr_loop].
  - cbn. lia.
  - rewrite (gr_not_converged_at_rest p mu ri C2 s Hp H0 H1 H2).
    destruct (gr_update_at_rest p mu ri C2 s Hp) as (V0 & V1 & V2 & _).
    rewrite (IH (q + 1) _ V0 V1 V2). lia.
Qed.
End GrAtRest.

(** X26.  On the doubles the relativistic iteration never converges
    for a particle at rest: with the three velocity components zero the
    test divides a zero or NaN by a zero or NaN, which is NaN and below
    nothing, so the loop runs its ten passes and the warning is reported,
    whatever the position, [mu] and [C2]. *)
Theorem gr_at_rest_never_converges :
  forall (p : reb_particle float) (mu C2 : float) (e : env float),
    at_rest p = true ->
    fst (gr_solve p mu C2) = 10 /\
    gr_particle mu C2 p e =
    Ret (gr_corrected p mu C2 (snd (gr_solve p mu C2))) (put_message gr_warning e).
Proof.
  intros p mu C2 e Hp.
  assert (Hq : fst (gr_solve p mu C2) = 10).
  { unfold gr_solve. rewrite gr_loop_at_rest; [reflexivity | exact Hp | | |];
      unfold at_rest in Hp; cbn [gr_start gr_vi c0 c1 c2];
      repeat (apply andb_true_iff in Hp; destruct Hp as [Hp ?]);
      now apply zero_zn. }
  split; [exact Hq|]. rewrite gr_particle_run, Hq. reflexivity.
Qed.

Section KickEdges.
Import Binary64.

(** Whatever [w] is, [w / 0 * 0] is NaN: the quotient is an infinity or
    NaN. *)
Lemma over_zero_times_zero (w : float) : not_a_number (w / 0 * 0) = true.
Proof.
  unfold not_a_number. rewrite mul_spec, div_spec.
  change (Prim2SF 0) with (S754_zero false).
  destruct (Prim2SF w) as [sw|sw| |sw mw ew]; reflexivity.
Qed.

Lemma sub_nan (a y : float) : not_a_number y = true -> not_a_number (a - y) = true.
Proof.
  unfold not_a_number. rewrite sub_spec.
  destruct (Prim2SF y) as [sy|sy| |sy my ey]; try discriminate.
  intros _. now destruct (Prim2SF a).
Qed.

Lemma kick_at_body (G m : float) (p : reb_particle float) :
  finite (p_x p) = true -> finite (p_y p) = true -> finite (p_z p) = true ->
  let p' := kick G m (p_x p) (p_y p) (p_z p) p in
  not_a_number (p_ax p') = true /\ not_a_number (p_ay p') = true /\
  not_a_number (p_az p') = true.
Proof.
  intros Hx Hy Hz. unfold kick. cbn [fadd fsub fmul fdiv fsqrt Arith_float].
  rewrite (double_sub_self _ Hx), (double_sub_self _ Hy), (double_sub_self _ Hz).
  change (PrimFloat.sqrt (0 * 0 + 0 * 0 + 0 * 0))%float with 0%float.
  change (0 * 0 * 0)%float with 0%float.
  cbn [set_acc p_ax p_ay p_az].
  repeat split; apply sub_nan, over_zero_times_zero.
Qed.
End KickEdges.

(** X24.  On the doubles a particle at the very position of a body
    (finite coordinates) gets a NaN acceleration on all three axes,
    whatever [G], the mass and the acceleration it had: the separation
    is zero, [G m / 0] is an infinity or NaN, and its product with zero
    is NaN. *)
Theorem kick_coincident_is_nan :
  forall (G m : float) (p : reb_particle float),
    Binary64.finite (p_x p) = true ->
    Binary64.finite (p_y p) = true ->
    Binary64.finite (p_z p) = true ->
    Binary64.not_a_number (p_ax (kick G m (p_x p) (p_y p) (p_z p) p)) = true /\
    Binary64.not_a_number (p_ay (kick G m (p_x p) (p_y p) (p_z p) p)) = true /\
    Binary64.not_a_number (p_az (kick G m (p_x p) (p_y p) (p_z p) p)) = true.
Proof. intros G m p Hx Hy Hz. now apply kick_at_body. Qed.

Section KickExact.
Local Open Scope R_scope.

(** X23.  In exact arithmetic the pull of a body on a particle at a
    distance [d > 0] is the inverse-square law: the change of the
    acceleration has the squared length [(G m)^2 / d^4], and its scalar
    product with the separation [dr] is [-G m / d], so it points from
    the particle to the body when [G m > 0]. *)
Theorem kick_inverse_square :
  forall (G m x y z : R) (p : reb_particle R),
    let dx := p_x p - x in
    let dy := p_y p - y in
    let dz := p_z p - z in
    let d2 := dx * dx + dy * dy + dz * dz in
    let p' := kick G m x y z p in
    0 < d2 ->
    (p_ax p' - p_ax p) * (p_ax p' - p_ax p) + (p_ay p' - p_ay p) * (p_ay p' - p_ay p) +
    (p_az p' - p_az p) * (p_az p' - p_az p) = (G * m) * (G * m) / (d2 * d2) /\
    (p_ax p' - p_ax p) * dx + (p_ay p' - p_ay p) * dy + (p_az p' - p_az p) * dz =
    - (G * m) / sqrt d2.
Proof.
  intros G m x y z p dx dy dz d2 p' Hd.
  assert (Hs : 0 < sqrt d2) by now apply sqrt_lt_R0.
  assert (Hss : sqrt d2 * sqrt d2 = d2) by (apply sqrt_sqrt; lra).
  unfold p', kick. cbn [fadd fsub fmul fdiv fsqrt Arith_R set_acc p_ax p_ay p_az].
  fold dx dy dz. fold d2. set (r := sqrt d2) in *.
  assert (E : dx * dx + dy * dy + dz * dz = r * r) by (rewrite Hss; reflexivity).
  clearbody r. replace d2 with (r * r) by exact Hss. clear Hss Hd.
  assert (Hr : r <> 0) by lra.
  split.
  - transitivity ((G * m) * (G * m) / (r * r * r * r * r * r) *
                  (dx * dx + dy * dy + dz * dz)); [field; exact Hr|].
    rewrite E. field. exact Hr.
  - transitivity (- (G * m) / (r * r * r) * (dx * dx + dy * dy + dz * dz));
      [field; exact Hr|].
    rewrite E. field. exact Hr.
Qed.
End KickExact.

(** ** Counts beyond the catalogs *)

Section BeyondTheCatalog.
Context {F : Type} `{Arith F}.

Lemma ephem_started_handle (e : env F) (pl : _jpl_s F) :
  ephem_handle e = Some pl ->
  ephem_handle (ephem_started e) = Some pl /\
  ephem_started (ephem_started e) = ephem_started e.
Proof.
  unfold ephem_handle, ephem_started. destruct (ephem_initialized e) eqn:Ei.
  - rewrite Ei. now split.
  - destruct (de430 e), (sb431 e); try discriminate.
    intros Hs. cbn [ephem_initialized set_ephem_static ephem_pl]. now split.
Qed.

(** Past the table of [ephem] every query returns the variables as they
    are. *)
Lemma query_trace_beyond (G t : F) (pl : _jpl_s F) (n : nat) :
  forall (i : Z) (o : ephem_out F) (e : env F),
    (10 < i)%Z ->
    ephem_handle e = Some pl ->
    query_trace ephem G t n i o e =
    Ret (repeat o n, o) (match n with O => e | S _ => ephem_started e end).
Proof.
  induction n as [|n IH]; intros i o e Hi Hpl; [reflexivity|].
  cbn [query_trace]. unfold bind.
  rewrite (ephem_outside G i t o e pl) by (assumption || lia).
  destruct (ephem_started_handle e pl Hpl) as [Hpl' Hidem].
  rewrite (IH (i + 1)%Z o (ephem_started e)) by (assumption || lia).
  unfold ret. cbn [fst snd repeat]. f_equal.
  destruct n; [reflexivity | exact Hidem].
Qed.

(** The asteroid loop up to a query that ends the process: the bodies
    before it have pulled, and the process ends in the state of that
    query. *)
Lemma asteroid_loop_exit (ast_query : F -> Z -> F -> M (env F) (F * F * F * F))
      (G t : F) (N : Z) (xs ys zs : F) (n : nat) :
  forall (k : nat) (i : Z) (e : env F) (ps : list (reb_particle F))
         (bodies : list (ephem_out F)) (e' e'' : env F),
    (Z.to_nat N <= List.length ps)%nat ->
    ast_trace ast_query G t xs ys zs n i e = Ret bodies e' ->
    ast_query G (i + Z.of_nat n) t e' = Exit e'' ->
    exists ps',
      asteroid_loop ast_query G t N xs ys zs (n + S k) i (e, ps) = Exit (e'', ps') /\
      forall j,
        nth_error ps' j =
        if (j <? Z.to_nat N)%nat
        then option_map (pulled G bodies) (nth_error ps j)
        else nth_error ps j.
Proof.
  induction n as [|n IH]; intros k i e ps bodies e' e'' HN Htrace Hexit.
  - cbn in Htrace. injection Htrace as <- <-. rewrite Z.add_0_r in Hexit.
    exists ps. split.
    + cbn [Nat.add asteroid_loop]. unfold bind, lift. cbn [fst snd]. now rewrite Hexit.
    + intros j. destruct (j <? Z.to_nat N)%nat; [|reflexivity].
      destruct (nth_error ps j); reflexivity.
  - cbn [ast_trace] in Htrace. unfold bind in Htrace.
    destruct (ast_query G i t e) as [r e1|e1|e1] eqn:Eq; try discriminate.
    destruct (ast_trace ast_query G t xs ys zs n (i + 1) e1) as [bs e2|e2|e2] eqn:Et;
      try discriminate.
    cbn in Htrace. injection Htrace as <- <-.
    destruct r as [[[m x] y] z].
    destruct (kick_loop_spec G m (fadd x xs) (fadd y ys) (fadd z zs) (Z.to_nat N) 0 ps)
      as (ps1 & Hk & Hl1 & Hn1); [lia|].
    destruct (IH k (i + 1) e1 ps1 bs e2 e'') as (ps' & Hrun & Hnth);
      [lia | exact Et | now replace (i + 1 + Z.of_nat n) with (i + Z.of_nat (S n)) by lia |].
    exists ps'. split.
    + cbn [Nat.add asteroid_loop]. unfold bind, lift, on_particles. cbn [fst snd].
      rewrite Eq. cbn [fst snd]. rewrite Hk. exact Hrun.
    + intros j. rewrite Hnth, Hn1. cbn [Nat.leb andb].
      replace (j <? 0 + Z.to_nat N)%nat with (j <? Z.to_nat N)%nat by reflexivity.
      destruct (j <? Z.to_nat N)%nat; [|reflexivity].
      destruct (nth_error ps j); reflexivity.
Qed.
End BeyondTheCatalog.

(** X18.  A count of major bodies above eleven.  For an index above 10
    [ephem] writes nothing, so each pass of the loop over the major
    bodies with such an index pulls every particle [j < N] once more
    towards the body the variables [m, x, y, z] still hold. *)
Theorem bodies_beyond_catalog :
  forall (F : Type) (A : Arith F) (G t : F) (N : Z) (n : nat) (i : Z) (o : ephem_out F)
         (e : env F) (ps : list (reb_particle F)) (pl : _jpl_s F),
    10 < i ->
    ephem_handle e = Some pl ->
    (Z.to_nat N <= List.length ps)%nat ->
    exists ps' : list (reb_particle F),
      major_loop ephem G t N n i o (e, ps) =
      Ret o (match n with O => e | S _ => ephem_started e end, ps') /\
      forall j : nat,
        nth_error ps' j =
        if (j <? Z.to_nat N)%nat
        then option_map (pulled G (repeat o n)) (nth_error ps j)
        else nth_error ps j.
Proof.
  intros F A G t N n i o e ps pl Hi Hpl HN.
  destruct (major_loop_spec ephem G t N n i o e ps (repeat o n) o _ HN
                            (query_trace_beyond G t pl n i o e Hi Hpl))
    as (ps' & Hrun & _ & _ & Hnth).
  exists ps'. split; assumption.
Qed.

(** X19.  A count of asteroids above sixteen.  With the kernel at hand
    the loop over [16 + k + 1] asteroids applies the pull of the sixteen
    catalog asteroids to every particle [j < N] and then, at index 16,
    writes "asteroid out of range" to [stderr] and ends the process,
    with the accelerations so changed. *)
Theorem asteroids_beyond_catalog :
  forall (F : Type) (A : Arith F) (G t xs ys zs : F) (N : Z) (k : nat) (e : env F)
         (ps : list (reb_particle F)) (spl : spk_s F),
    ast_handle e = Some spl ->
    (Z.to_nat N <= List.length ps)%nat ->
    exists ps' : list (reb_particle F),
      asteroid_loop ast_ephem G t N xs ys zs (16 + S k) 0 (e, ps) =
      Exit (put_stderr "asteroid out of range\n" (ast_started e), ps') /\
      forall j : nat,
        nth_error ps' j =
        if (j <? Z.to_nat N)%nat
        then option_map
               (pulled G (map (fun a => mkout (idx ast_M (Z.to_nat a) / G)
                                              (c0 (mpos_u (spl a t)) + xs)
                                              (c1 (mpos_u (spl a t)) + ys)
                                              (c2 (mpos_u (spl a t)) + zs) #0 #0 #0)%num
                              (zrange 16)))
               (nth_error ps j)
        else nth_error ps j.
Proof.
  intros F A G t xs ys zs N k e ps spl Hspl HN.
  apply (asteroid_loop_exit ast_ephem G t N xs ys zs 16 k 0 e ps _ (ast_started e) _ HN).
  - exact (ast_trace_bodies G t xs ys zs spl 16%nat e (le_n 16) Hspl).
  - apply ast_ephem_outside. cbn. lia.
Qed.

(** ** The routine as a whole *)

Section GrPassFacts.
Context {F : Type} `{Arith F}.

Lemma put_messages_app (ms ms' : list string) (e : env F) :
  put_messages (ms ++ ms') e = put_messages ms' (put_messages ms e).
Proof. unfold put_messages. apply fold_left_app. Qed.

(** The relativistic loop over [i, i+n): it returns, each of these
    particles has its term added, and the warnings are reported in
    order. *)
Lemma gr_particles_spec (mu C2 : F) (n : nat) :
  forall (i : nat) (e : env F) (ps : list (reb_particle F)),
    (i + n <= List.length ps)%nat ->
    exists ps',
      gr_particles mu C2 n i (e, ps) =
      Ret tt (put_messages (gr_reports mu C2 (firstn n (skipn i ps))) e, ps') /\
      List.length ps' = List.length ps /\
      forall j,
        nth_error ps' j =
        if ((i <=? j)%nat && (j <? i + n)%nat)%bool
        then option_map (gr_fixed mu C2) (nth_error ps j)
        else nth_error ps j.
Proof.
  induction n as [|n IH]; intros i e ps Hlen.
  - exists ps. repeat split. intros j.
    destruct (i <=? j)%nat eqn:E1, (j <? i + 0)%nat eqn:E2; cbn; try reflexivity.
    apply Nat.leb_le in E1. apply Nat.ltb_lt in E2. lia.
  - cbn [gr_particles snd].
    destruct (nth_error ps i) as [p|] eqn:Ep; [|apply nth_error_None in Ep; lia].
    unfold bind at 1, lift. cbn [fst snd]. rewrite gr_particle_run.
    unfold bind at 1, on_particles. cbn [fst snd].
    destruct (IH (S i) (if (fst (gr_solve p mu C2) =? default_max_iterations)%Z
                        then put_message gr_warning e else e)
                 (store ps i (gr_corrected p mu C2 (snd (gr_solve p mu C2)))))
      as (ps' & Hrun & Hl & Hnth).
    { rewrite length_store. lia. }
    exists ps'. split; [|split].
    + rewrite Hrun. f_equal. f_equal.
      assert (Hskip : skipn i ps = p :: skipn (S i) ps).
      { clear -Ep. revert i Ep. induction ps as [|q ps IHps]; intros [|i] Ep; cbn in *;
          try discriminate; [now injection Ep as -> | now apply IHps]. }
      assert (Hsame : skipn (S i) (store ps i (gr_corrected p mu C2 (snd (gr_solve p mu C2))))
                      = skipn (S i) ps).
      { clear. revert i. induction ps as [|q ps IHps]; intros [|i]; cbn; try reflexivity.
        apply IHps. }
      rewrite Hsame, Hskip. cbn [firstn gr_reports flat_map].
      rewrite put_messages_app. fold (gr_reports mu C2 (firstn n (skipn (S i) ps))).
      now destruct (fst (gr_solve p mu C2) =? default_max_iterations)%Z.
    + now rewrite Hl, length_store.
    + intros j. rewrite Hnth.
      rewrite nth_error_store by (apply nth_error_Some; congruence).
      destruct (Nat.eq_dec j i) as [->|Hne].
      * rewrite Nat.eqb_refl, Ep.
        replace (S i <=? i)%nat with false by (symmetry; apply Nat.leb_gt; lia).
        replace (i <=? i)%nat with true by (symmetry; apply Nat.leb_le; lia).
        replace (i <? i + S n)%nat with true by (symmetry; apply Nat.ltb_lt; lia).
        reflexivity.
      * replace (j =? i)%nat with false by (symmetry; apply Nat.eqb_neq; exact Hne).
        destruct (S i <=? j)%nat eqn:E1, (j <? S i + n)%nat eqn:E2,
                 (i <=? j)%nat eqn:E3, (j <? i + S n)%nat eqn:E4; simpl; try reflexivity;
          repeat match goal with
                 | E : (_ <=? _)%nat = true |- _ => apply Nat.leb_le in E
                 | E : (_ <=? _)%nat = false |- _ => apply Nat.leb_gt in E
                 | E : (_ <? _)%nat = true |- _ => apply Nat.ltb_lt in E
                 | E : (_ <? _)%nat = false |- _ => apply Nat.ltb_ge in E
                 end; lia.
Qed.
End GrPassFacts.

Section WholeRoutine.
Context {F : Type} `{Arith F}.

Lemma nth_error_on_first {A : Type} (n : nat) (g : A -> A) (l : list A) (j : nat) :
  (n <= List.length l)%nat ->
  nth_error (on_first n g l) j =
  if (j <? n)%nat then option_map g (nth_error l j) else nth_error l j.
Proof.
  intros Hn. unfold on_first.
  destruct (j <? n)%nat eqn:E; [apply Nat.ltb_lt in E | apply Nat.ltb_ge in E].
  - rewrite nth_error_app1 by (rewrite length_map, length_firstn; lia).
    rewrite nth_error_map, nth_error_firstn.
    now replace (j <? n)%nat with true by (symmetry; apply Nat.ltb_lt; lia).
  - rewrite nth_error_app2 by (rewrite length_map, length_firstn; lia).
    rewrite length_map, length_firstn, Nat.min_l by lia.
    rewrite nth_error_skipn. f_equal. lia.
Qed.

Lemma nth_error_same {A : Type} (l l' : list A) :
  (forall j, nth_error l j = nth_error l' j) -> l = l'.
Proof.
  revert l'. induction l as [|a l IH]; intros [|a' l'] Hnth.
  - reflexivity.
  - specialize (Hnth 0%nat). discriminate.
  - specialize (Hnth 0%nat). discriminate.
  - f_equal; [specialize (Hnth 0%nat); now injection Hnth|].
    apply IH. intros j. exact (Hnth (S j)).
Qed.

Lemma is_on_first {A : Type} (n : nat) (g : A -> A) (l l' : list A) :
  (n <= List.length l)%nat ->
  (forall j, nth_error l' j =
             if (j <? n)%nat then option_map g (nth_error l j) else nth_error l j) ->
  l' = on_first n g l.
Proof.
  intros Hn Hnth. apply nth_error_same. intros j.
  now rewrite Hnth, nth_error_on_first.
Qed.

Lemma length_on_first {A : Type} (n : nat) (g : A -> A) (l : list A) :
  List.length (on_first n g l) = List.length l.
Proof.
  unfold on_first. rewrite length_app, length_map, <- length_app, firstn_skipn. reflexivity.
Qed.

Lemma firstn_on_first {A : Type} (n : nat) (g : A -> A) (l : list A) :
  (n <= List.length l)%nat -> firstn n (on_first n g l) = map g (firstn n l).
Proof.
  intros Hn. unfold on_first.
  rewrite firstn_app, length_map, length_firstn, Nat.min_l, Nat.sub_diag by lia.
  cbn [firstn]. rewrite app_nil_r. apply firstn_all2.
  rewrite length_map, length_firstn. lia.
Qed.

Lemma on_first_twice {A : Type} (n : nat) (g h : A -> A) (l : list A) :
  (n <= List.length l)%nat ->
  on_first n g (on_first n h l) = on_first n (fun a => g (h a)) l.
Proof.
  intros Hn. apply is_on_first; [exact Hn|]. intros j.
  rewrite !nth_error_on_first by (rewrite ?length_on_first; lia).
  destruct (j <? n)%nat; [|reflexivity]. now destruct (nth_error l j).
Qed.

Variable query : F -> Z -> F -> ephem_out F -> M (env F) (ephem_out F).
Variable ast_query : F -> Z -> F -> M (env F) (F * F * F * F).

Lemma ephemeris_forces_run (sim : reb_simulation F) (force : rebx_force F) (N : Z)
      (e e1 e2 e3 e4 : env F) (ps : list (reb_particle F)) (ne na : Z) (cv : F)
      (oe o os : ephem_out F) (bodies asts : list (ephem_out F)) :
  rebx_get_param (ap force) "N_ephem" = Some (REBX_INT ne) ->
  rebx_get_param (ap force) "N_ast" = Some (REBX_INT na) ->
  rebx_get_param (ap force) "c" = Some (REBX_DOUBLE cv) ->
  (Z.to_nat N <= List.length ps)%nat ->
  let G := sim_G sim in
  let t := sim_t sim in
  let l := uninit_out e in
  query G 3 t l e = Ret oe e1 ->
  query_trace query G t (Z.to_nat ne) 0
              (mkout (o_m oe) (o_x l) (o_y l) (o_z l) (o_vx l) (o_vy l) (o_vz l)) e1 =
    Ret (bodies, o) e2 ->
  query G 0 t (mkout (o_m o) (o_x l) (o_y l) (o_z l) (o_vx l) (o_vy l) (o_vz l)) e2 =
    Ret os e3 ->
  ast_trace ast_query G t (o_x os) (o_y os) (o_z os) (Z.to_nat na) 0 e3 = Ret asts e4 ->
  let mu := fmul G (of_Z 1) in
  let C2 := fmul cv cv in
  let newton := fun p => pulled G asts (pulled G bodies p) in
  ephemeris_forces query ast_query sim force N (e, ps) =
  Ret tt (put_messages (gr_reports mu C2 (map newton (firstn (Z.to_nat N) ps))) e4,
          on_first (Z.to_nat N) (fun p => gr_fixed mu C2 (newton p)) ps).
Proof.
  intros Hne Hna Hc HN G t l Hearth Hmaj Hsun Hast mu C2 newton.
  unfold ephemeris_forces. rewrite Hne, Hna, Hc.
  fold G t. cbn [defined deref_double deref_int].
  unfold bind at 1. unfold ret at 1.
  unfold bind at 1. cbn [fst]. fold l.
  unfold bind at 1. unfold lift at 1. cbn [fst snd]. rewrite Hearth.
  unfold bind at 1. unfold ret at 1.
  destruct (major_loop_spec query G t N (Z.to_nat ne) 0 _ e1 ps bodies o e2 HN Hmaj)
    as (ps1 & Hrun1 & Hl1 & _ & Hnth1).
  unfold bind at 1. rewrite Hrun1.
  unfold bind at 1. unfold lift at 1. cbn [fst snd]. rewrite Hsun.
  unfold bind at 1. unfold ret at 1.
  destruct (asteroid_loop_spec ast_query G t N (o_x os) (o_y os) (o_z os) (Z.to_nat na) 0
                               e3 ps1 asts e4 ltac:(lia) Hast)
    as (ps2 & Hrun2 & Hl2 & _ & Hnth2).
  unfold bind at 1. rewrite Hrun2.
  destruct (gr_particles_spec mu C2 (Z.to_nat N) 0 e4 ps2 ltac:(lia))
    as (ps3 & Hrun3 & Hl3 & Hnth3).
  fold mu C2. rewrite Hrun3.
  apply is_on_first in Hnth1; [|exact HN].
  apply is_on_first in Hnth2; [|lia].
  assert (Hnth3' : ps3 = on_first (Z.to_nat N) (gr_fixed mu C2) ps2).
  { apply is_on_first; [lia|]. intros j. rewrite Hnth3. cbn [Nat.leb andb].
    reflexivity. }
  subst ps1 ps2 ps3. cbn [skipn].
  rewrite !on_first_twice by (rewrite ?length_on_first; lia).
  rewrite firstn_on_first by (rewrite ?length_on_first; lia).
  reflexivity.
Qed.
End WholeRoutine.

(** ** Concrete runs *)

Lemma jpl_work_reads_block_witness :
  jpl_work (fun k => Binary64.of_Z (k + 1)) 3 2 2 0.75%float 32%float =
  jpl_work (fun k => if (6 <=? k) && (k <? 12) then Binary64.of_Z (k + 1) else 0%float)
           3 2 2 0.75%float 32%float.
Proof.
  apply (proj1 jpl_work_reads_block float _ (fun k => Binary64.of_Z (k + 1))
               (fun k => if (6 <=? k) && (k <? 12) then Binary64.of_Z (k + 1) else 0%float)
               3 2 2 0.75%float 32%float 1).
  - vm_compute. reflexivity.
  - lia.
  - lia.
  - unfold INT_MAX. lia.
  - intros k Hk.
    replace (6 <=? k) with true by (symmetry; apply Z.leb_le; lia).
    replace (k <? 12) with true by (symmetry; apply Z.ltb_lt; lia). reflexivity.
Defined.

Lemma ephem_missing_files_witness :
  ephem 1%float 0 16%float (uninit_out Edge.no_files) Edge.no_files =
  Exit (put_stderr "could not load DE430 file, fool!\n"
                   (set_ephem_static false None (ephem_spl Edge.no_files) Edge.no_files)).
Proof.
  exact (proj1 (ephem_missing_files float _ 1%float 0 16%float (uninit_out Edge.no_files)
                                    Edge.no_files eq_refl) eq_refl).
Defined.

Lemma ephem_initialized_once_witness :
  ephem_started Demo.demo_env = ephem_started Demo.demo_env /\
  final_state (ephem 1%float 0 16%float (uninit_out Demo.demo_env)
                     (ephem_started Demo.demo_env)) = ephem_started Demo.demo_env.
Proof.
  assert (Hrun : ephem 1%float 11 16%float (uninit_out Demo.demo_env) Demo.demo_env =
                 Ret (uninit_out Demo.demo_env) (ephem_started Demo.demo_env))
    by reflexivity.
  destruct (ephem_initialized_once float _ 1%float 11 16%float _ _ _ _ Hrun) as [He Hnext].
  split; [exact He|].
  exact (proj1 (Hnext 1%float 0 16%float (uninit_out Demo.demo_env))).
Defined.

Lemma ephem_epoch_outside_witness :
  ephem 1%float 0 100%float (uninit_out Demo.demo_env) Demo.demo_env =
  Ret (mkout (idx ephem_M 0 / 1) (0 / 2) (0 / 2) (0 / 2)
             (0 / (2 / 86400)) (0 / (2 / 86400)) (0 / (2 / 86400)))%float
      (ephem_started Demo.demo_env) /\
  stderr (ephem_started Demo.demo_env) = stderr Demo.demo_env /\
  messages (ephem_started Demo.demo_env) = messages Demo.demo_env.
Proof.
  exact (ephem_epoch_outside float _ 1%float 0 100%float (uninit_out Demo.demo_env)
                             Demo.demo_env Demo.demo_jpl ltac:(lia) eq_refl
                             (or_intror eq_refl)).
Defined.

Lemma ast_ephem_query_witness :
  ast_ephem 1%float 0 16%float Demo.demo_env =
  Ret (idx ast_M 0 / 1, 0, 0, 0)%float (ast_started Demo.demo_env).
Proof.
  exact (proj1 (ast_ephem_query float _ 1%float 0 16%float Demo.demo_env ltac:(lia))
               Demo.no_spk eq_refl).
Defined.

Lemma asteroid_accumulation_witness :
  exists ps' : list (reb_particle float),
    asteroid_loop ast_ephem 1%float 16%float 1 0%float 0%float 0%float 1 0
                  (Demo.demo_env, [Scenario.particle]) =
    Ret tt (ast_started Demo.demo_env, ps') /\
    List.length ps' = 1%nat.
Proof.
  pose proof (proj2 asteroid_accumulation float _ 1%float 16%float 0%float 0%float 0%float
                    Demo.no_spk 1%nat Demo.demo_env ltac:(lia) eq_refl) as Htrace.
  destruct (proj1 asteroid_accumulation float _ ast_ephem 1%float 16%float 1
                  0%float 0%float 0%float 1%nat Demo.demo_env [Scenario.particle] _ _
                  ltac:(simpl; lia) Htrace) as (ps' & Hrun & Hlen & _).
  exists ps'. split; [exact Hrun | exact Hlen].
Defined.

Lemma asteroids_beyond_catalog_witness :
  exists ps' : list (reb_particle float),
    asteroid_loop ast_ephem 1%float 16%float 1 0%float 0%float 0%float 17 0
                  (Demo.demo_env, [Scenario.particle]) =
    Exit (put_stderr "asteroid out of range\n" (ast_started Demo.demo_env), ps').
Proof.
  destruct (asteroids_beyond_catalog float _ 1%float 16%float 0%float 0%float 0%float 1 0%nat
                                     Demo.demo_env [Scenario.particle] Demo.no_spk eq_refl
                                     ltac:(simpl; lia)) as (ps' & Hrun & _).
  exists ps'. exact Hrun.
Defined.

Lemma bodies_beyond_catalog_witness :
  exists ps' : list (reb_particle float),
    major_loop ephem 1%float 16%float 1 2 11 (mkout 1 0 0 0 0 0 0)%float
               (Demo.demo_env, [Scenario.particle]) =
    Ret (mkout 1 0 0 0 0 0 0)%float (ephem_started Demo.demo_env, ps') /\
    nth_error ps' 0 =
    Some (pulled 1%float [(mkout 1 0 0 0 0 0 0)%float; (mkout 1 0 0 0 0 0 0)%float]
                 Scenario.particle).
Proof.
  destruct (bodies_beyond_catalog float _ 1%float 16%float 1 2%nat 11
                                  (mkout 1 0 0 0 0 0 0)%float Demo.demo_env
                                  [Scenario.particle] Demo.demo_jpl ltac:(lia) eq_refl
                                  ltac:(simpl; lia)) as (ps' & Hrun & Hnth).
  exists ps'. split; [exact Hrun | exact (Hnth 0%nat)].
Defined.

Lemma forces_without_ephemeris_file_witness :
  rebx_ephemeris_forces Scenario.sim Scenario.force 1 (Edge.no_files, [Scenario.particle]) =
  Exit (put_stderr "could not load DE430 file, fool!\n"
                   (set_ephem_static false None (ephem_spl Edge.no_files) Edge.no_files),
        [Scenario.particle]).
Proof.
  exact (forces_without_ephemeris_file float _ Scenario.sim Scenario.force 1 Edge.no_files
                                       [Scenario.particle] (REBX_INT 1) infinity
                                       eq_refl eq_refl eq_refl eq_refl).
Defined.

Lemma kick_coincident_is_nan_witness :
  Binary64.not_a_number (p_ax (kick 1%float 1%float 1%float 0%float 0%float
                                    Scenario.particle)) = true /\
  Binary64.not_a_number (p_ay (kick 1%float 1%float 1%float 0%float 0%float
                                    Scenario.particle)) = true /\
  Binary64.not_a_number (p_az (kick 1%float 1%float 1%float 0%float 0%float
                                    Scenario.particle)) = true.
Proof.
  exact (kick_coincident_is_nan 1%float 1%float Scenario.particle eq_refl eq_refl eq_refl).
Defined.

Lemma gr_at_rest_never_converges_witness :
  fst (gr_solve Scenario.particle 1%float 29979.0%float) = 10 /\
  gr_particle 1%float 29979.0%float Scenario.particle Demo.demo_env =
  Ret (gr_corrected Scenario.particle 1%float 29979.0%float
                    (snd (gr_solve Scenario.particle 1%float 29979.0%float)))
      (put_message gr_warning Demo.demo_env).
Proof.
  exact (gr_at_rest_never_converges Scenario.particle 1%float 29979.0%float Demo.demo_env
                                    eq_refl).
Defined.

Lemma jpl_init_truncated_file_witness :
  (exists jpl : _jpl_s float,
      jpl_init Edge.short_host = Some (init_handle jpl) /\
      jpl_beg jpl = 0%float /\ jpl_end jpl = 0%float /\ jpl_inc jpl = 0%float /\
      jpl_cau jpl = 0%float /\ jpl_cem jpl = 0%float /\ jpl_num jpl = 0 /\
      (forall B, jpl_off jpl B = -1 /\ jpl_ncf jpl B = 0 /\ jpl_niv jpl B = 0) /\
      jpl_rec jpl = 16 /\
      jpl_len jpl = Z.of_nat (List.length Edge.short_file)) /\
  (exists jpl : _jpl_s float,
      jpl_init Edge.empty_file_host = Some (init_map_failed jpl) /\
      jpl_beg jpl = 0%float /\ jpl_end jpl = 0%float /\ jpl_inc jpl = 0%float /\
      jpl_cau jpl = 0%float /\ jpl_cem jpl = 0%float /\ jpl_num jpl = 0 /\
      (forall B, jpl_off jpl B = -1 /\ jpl_ncf jpl B = 0 /\ jpl_niv jpl B = 0) /\
      jpl_rec jpl = 16 /\
      jpl_len jpl = Z.of_nat (List.length (@nil byte))).
Proof.
  split.
  - exact (jpl_init_truncated_file Edge.short_host Edge.short_file
                                   eq_refl eq_refl eq_refl eq_refl ltac:(simpl; lia)).
  - exact (jpl_init_truncated_file Edge.empty_file_host []
                                   eq_refl eq_refl eq_refl eq_refl ltac:(simpl; lia)).
Defined.

(** On the header of DE430 the record has 1018 doubles: the two time
    stamps and 1016 coefficients. *)
Lemma jpl_init_record_length_witness :
  exists jpl : _jpl_s float,
    jpl_init Edge.de430_host = Some (init_handle jpl) /\
    (jpl_ncf jpl JPL_MER, jpl_niv jpl JPL_MER, jpl_ncm jpl JPL_MER) = (14, 4, 3) /\
    (jpl_ncf jpl JPL_LUN, jpl_niv jpl JPL_LUN, jpl_ncm jpl JPL_LUN) = (13, 8, 3) /\
    (jpl_ncf jpl JPL_NUT, jpl_niv jpl JPL_NUT, jpl_ncm jpl JPL_NUT) = (10, 4, 2) /\
    sum_bodies (fun B => jpl_ncf jpl B * jpl_niv jpl B * jpl_ncm jpl B) = 1016 /\
    jpl_rec jpl = 8144 /\
    (forall B, jpl_ncm jpl B = match B with JPL_NUT => 2 | JPL_TDB => 1 | _ => 3 end) /\
    jpl_rec jpl =
    (16 + sum_bodies (fun B => 8 * (jpl_ncf jpl B * jpl_niv jpl B * jpl_ncm jpl B))) mod 2 ^ 64 /\
    jpl_rec jpl =
    16 + sum_bodies (fun B => 8 * (jpl_ncf jpl B * jpl_niv jpl B * jpl_ncm jpl B)).
Proof.
  pose (counts := fun r : init_result =>
          match r with
          | init_handle j =>
              Some (jpl_rec j, map (fun B => (jpl_ncf j B, jpl_niv j B, jpl_ncm j B)) jpl_indices)
          | _ => None
          end).
  assert (E : option_map counts (jpl_init Edge.de430_host) =
              Some (Some (8144,
                          [(14, 4, 3); (10, 2, 3); (13, 2, 3); (11, 1, 3); (8, 1, 3); (7, 1, 3);
                           (6, 1, 3); (6, 1, 3); (6, 1, 3); (13, 8, 3); (11, 2, 3); (10, 4, 2);
                           (10, 4, 3); (0, 0, 3); (0, 0, 1)])))
    by (vm_compute; reflexivity).
  destruct (jpl_init Edge.de430_host) as [[|jpl|jpl]|] eqn:Hinit; try discriminate E.
  cbn [option_map counts map jpl_indices] in E.
  injection E as Hrec.
  repeat match goal with H : @eq Z _ _ |- _ => revert H end. intros.
  destruct (jpl_init_record_length Edge.de430_host jpl (or_introl Hinit)) as (Hncm & Hmod & Hexact).
  assert (Hcounts : forall B, 0 <= jpl_ncf jpl B < 2 ^ 20 /\ 0 <= jpl_niv jpl B < 2 ^ 20)
    by (intros B; destruct B; lia).
  exists jpl. split; [reflexivity|].
  split; [congruence|]. split; [congruence|]. split; [congruence|].
  split.
  { unfold sum_bodies, jpl_indices. cbn [map fold_right].
    repeat match goal with H : @eq Z (_ jpl _) _ |- _ => rewrite H; clear H end. reflexivity. }
  split; [assumption|]. split; [exact Hncm|]. split; [exact Hmod | exact (Hexact Hcounts)].
Defined.

Lemma jpl_init_header_layout_witness :
  exists jpl : _jpl_s float,
    jpl_init Edge.header_host = Some (init_handle jpl) /\
    jpl_num jpl = 400 /\
    jpl_beg jpl = double_at Edge.header_file 0x0A5C /\
    jpl_off jpl JPL_TDB = int32_at Edge.header_file (0x0A5C + 204 + 6 * (400 - 400) + 12) - 1.
Proof.
  destruct (jpl_init_header_layout Edge.header_host Edge.header_file 400
              eq_refl eq_refl eq_refl eq_refl)
    as (jpl & Hinit & Hbeg & _ & _ & Hnum & _ & _ & _ & Htriples & _).
  - vm_compute. reflexivity.
  - vm_compute. discriminate.
  - vm_compute. discriminate.
  - vm_compute. discriminate.
  - vm_compute. discriminate.
  - intros B. destruct B; vm_compute; discriminate.
  - exists jpl. split; [exact Hinit|]. split; [exact Hnum|]. split; [exact Hbeg|].
    exact (proj1 (Htriples JPL_TDB)).
Defined.

(** X22.  The routine as a whole.  With the three parameters set and a
    particle array of at least [N] entries, when the query for the Earth,
    the queries for the bodies [0 .. N_ephem-1], the query for the Sun
    and the queries for the asteroids [0 .. N_ast-1] return, the routine
    returns; each particle [j < N] has been pulled by every body, then by
    every asteroid, and has then had the relativistic term of its last
    iterate added, computed with [mu = G * 1.0] and [C2 = c * c] from
    the acceleration so accumulated; the other particles are untouched,
    and one warning is reported for each particle whose iteration ran
    all its passes.  [rebx_ephemeris_forces] is this routine with the
    queries [ephem] and [ast_ephem]. *)
Theorem forces_compose :
  forall (F : Type) (A : Arith F)
         (query : F -> Z -> F -> ephem_out F -> M (env F) (ephem_out F))
         (ast_query : F -> Z -> F -> M (env F) (F * F * F * F))
         (sim : reb_simulation F) (force : rebx_force F) (N : Z)
         (e e1 e2 e3 e4 : env F) (ps : list (reb_particle F)) (ne na : Z) (cv : F)
         (oe o os : ephem_out F) (bodies asts : list (ephem_out F)),
    rebx_get_param (ap force) "N_ephem" = Some (REBX_INT ne) ->
    rebx_get_param (ap force) "N_ast" = Some (REBX_INT na) ->
    rebx_get_param (ap force) "c" = Some (REBX_DOUBLE cv) ->
    (Z.to_nat N <= List.length ps)%nat ->
    let G := sim_G sim in
    let t := sim_t sim in
    let l := uninit_out e in
    query G 3 t l e = Ret oe e1 ->
    query_trace query G t (Z.to_nat ne) 0
                (mkout (o_m oe) (o_x l) (o_y l) (o_z l) (o_vx l) (o_vy l) (o_vz l)) e1 =
      Ret (bodies, o) e2 ->
    query G 0 t (mkout (o_m o) (o_x l) (o_y l) (o_z l) (o_vx l) (o_vy l) (o_vz l)) e2 =
      Ret os e3 ->
    ast_trace ast_query G t (o_x os) (o_y os) (o_z os) (Z.to_nat na) 0 e3 = Ret asts e4 ->
    let mu := fmul G (of_Z 1) in
    let C2 := fmul cv cv in
    let newton := fun p => pulled G asts (pulled G bodies p) in
    ephemeris_forces query ast_query sim force N (e, ps) =
    Ret tt (put_messages (gr_reports mu C2 (map newton (firstn (Z.to_nat N) ps))) e4,
            on_first (Z.to_nat N) (fun p => gr_fixed mu C2 (newton p)) ps).
Proof.
  intros F A query ast_query sim force N e e1 e2 e3 e4 ps ne na cv oe o os bodies asts.
  apply ephemeris_forces_run.
Qed.

Lemma forces_compose_witness :
  let sun := (mkout 0.295912208285591100E-03 0.5 0.5 0.5 0.03125 0.03125 0.03125)%float in
  rebx_ephemeris_forces Scenario.sim Scenario.force 1 (Demo.demo_env, [Scenario.particle]) =
  Ret tt (put_messages
            (gr_reports (1 * 1)%float (infinity * infinity)%float
               (map (fun p => pulled 1%float [] (pulled 1%float [sun] p))
                    (firstn 1 [Scenario.particle])))
            (ephem_started Demo.demo_env),
          on_first 1 (fun p => gr_fixed (1 * 1)%float (infinity * infinity)%float
                                        (pulled 1%float [] (pulled 1%float [sun] p)))
                   [Scenario.particle]).
Proof.
  intros sun.
  exact (forces_compose float _ ephem ast_ephem Scenario.sim Scenario.force 1
                        Demo.demo_env (ephem_started Demo.demo_env)
                        (ephem_started Demo.demo_env) (ephem_started Demo.demo_env)
                        (ephem_started Demo.demo_env)
                        [Scenario.particle] 1 0 infinity
                        (mkout 0.888769244512563400E-09 0.4 0.4 0.4 0.025 0.025 0.025)%float
                        sun sun [sun] []
                        eq_refl eq_refl eq_refl ltac:(simpl; lia)
                        ltac:(vm_compute; reflexivity) ltac:(vm_compute; reflexivity)
                        ltac:(vm_compute; reflexivity) ltac:(vm_compute; reflexivity)).
Defined.

Section CatalogPull.
Local Open Scope R_scope.

(** X25.  [ephem] divides the catalog value by [G] and the loop
    multiplies the mass by [G] again: in exact arithmetic, for [G <> 0],
    the pull of a body of mass [gm / G] is the pull computed with [G = 1]
    and mass [gm], so the Newtonian part does not depend on [G]. *)
Theorem catalog_pull_independent_of_G :
  forall (G gm x y z : R) (p : reb_particle R),
    G <> 0 ->
    kick G (gm / G) x y z p = kick 1 gm x y z p.
Proof.
  intros G gm x y z p HG. unfold kick. cbn [fmul fdiv Arith_R].
  replace (G * (gm / G)) with (1 * gm) by (field; exact HG). reflexivity.
Qed.

Lemma catalog_pull_independent_of_G_witness :
  kick 2 (3 / 2) 0 0 0 (mkparticle 1 0 0 0 0 0 0 0 0 0) =
  kick 1 3 0 0 0 (mkparticle 1 0 0 0 0 0 0 0 0 0).
Proof.
  apply (catalog_pull_independent_of_G 2 3 0 0 0 (mkparticle 1 0 0 0 0 0 0 0 0 0)). lra.
Defined.

Lemma kick_inverse_square_witness :
  let p := mkparticle 2 0 0 0 0 0 0 0 0 0 in
  let p' := kick 1 1 0 0 0 p in
  (p_ax p' - p_ax p) * (p_ax p' - p_ax p) + (p_ay p' - p_ay p) * (p_ay p' - p_ay p) +
  (p_az p' - p_az p) * (p_az p' - p_az p) =
  (1 * 1) * (1 * 1) / (((2 - 0) * (2 - 0) + (0 - 0) * (0 - 0) + (0 - 0) * (0 - 0)) *
                       ((2 - 0) * (2 - 0) + (0 - 0) * (0 - 0) + (0 - 0) * (0 - 0))).
Proof.
  intros p p'.
  refine (proj1 (kick_inverse_square 1 1 0 0 0 p _)).
  cbn [p_x p_y p_z p]. lra.
Defined.
End CatalogPull.
